(** * Flowglad MCP setup-instruction tools: a shallow embedding

    This development embeds the extraction-and-template-composition code of
    [platform/flowglad-next/src/mcp/tools] and states the properties its
    specification gives for it.

    Strings.  A JavaScript string is a sequence of UTF-16 code units.  The
    embedding works with code units in the range 0..255, written [ascii], so a
    string is a [list ascii].  All keywords, markers and pattern literals of
    the source are ASCII. *)

From Stdlib Require Import Ascii String List Arith ZArith Lia Bool DecimalString.
From stdpp Require Import base option list strings gmap.

Local Open Scope char_scope.
Local Open Scope list_scope.

Abbreviation jsstring := (list ascii).

(** String literals of the source, as code-unit lists. *)
Definition str (s : string) : jsstring := list_ascii_of_string s.

(* ===================================================================== *)
(** * Part 1.  String primitives *)
(* ===================================================================== *)

Module JsString.

(** [s.startsWith(k)], returning what follows the prefix. *)
Fixpoint stripPrefix (k s : jsstring) : option jsstring :=
  match k, s with
  | [], _ => Some s
  | a :: k', b :: s' => if Ascii.eqb a b then stripPrefix k' s' else None
  | _ :: _, [] => None
  end.

(** [s.includes(k)]. *)
Fixpoint includes (k s : jsstring) : bool :=
  match stripPrefix k s with
  | Some _ => true
  | None => match s with [] => false | _ :: s' => includes k s' end
  end.

(** [s.indexOf(k)]: the index of the first occurrence, [-1] when there is
    none. *)
Fixpoint indexOf (k s : jsstring) : Z :=
  match stripPrefix k s with
  | Some _ => 0%Z
  | None =>
      match s with
      | [] => (-1)%Z
      | _ :: s' => let i := indexOf k s' in if (i =? -1)%Z then (-1)%Z else (i + 1)%Z
      end
  end.

(** [s.endsWith(k)]. *)
Definition endsWith (k s : jsstring) : bool :=
  match stripPrefix (rev k) (rev s) with Some _ => true | None => false end.

(** [toLowerCase] on code units 0..255: A-Z, and the Latin-1 capitals
    U+00C0..U+00DE other than the multiplication sign U+00D7. *)
Definition lowerChar (c : ascii) : ascii :=
  let n := nat_of_ascii c in
  if ((65 <=? n) && (n <=? 90))%nat then ascii_of_nat (n + 32)
  else if ((192 <=? n) && (n <=? 222) && negb (n =? 215))%nat then ascii_of_nat (n + 32)
  else c.

Definition toLowerCase (s : jsstring) : jsstring := map lowerChar s.

(** White space and line terminators stripped by [trim], in 0..255:
    TAB, LF, VT, FF, CR, SPACE and NBSP. *)
Definition isTrimChar (c : ascii) : bool :=
  let n := nat_of_ascii c in
  (((9 <=? n) && (n <=? 13)) || (n =? 32) || (n =? 160))%nat.

Fixpoint trimStart (s : jsstring) : jsstring :=
  match s with
  | c :: s' => if isTrimChar c then trimStart s' else s
  | [] => []
  end.

Definition trim (s : jsstring) : jsstring := rev (trimStart (rev (trimStart s))).

(** [parts.join(sep)]. *)
Fixpoint join (sep : jsstring) (parts : list jsstring) : jsstring :=
  match parts with
  | [] => []
  | [p] => p
  | p :: ps => p ++ sep ++ join sep ps
  end.

(** A truthy string is a non-empty one. *)
Definition truthy (s : jsstring) : bool := match s with [] => false | _ => true end.

End JsString.
Import JsString.

(* ===================================================================== *)
(** * Part 2.  Template replacement engine ([templateReplacer.ts]) *)
(* ===================================================================== *)

Module TemplateReplacer.

(** ** The fragment of the pattern language reached by token keys

    [applyTemplateReplacements] builds [new RegExp(p, 'g')] from each key
    after escaping its braces.  The embedding parses the fragment of the
    pattern language made of literal characters, identity escapes of syntax
    characters and the dot; [parsePattern] answers [None] for every other
    pattern (those that raise [SyntaxError], and those using syntax beyond
    this fragment). *)

Inductive patItem : Type :=
  | PChar (c : ascii)   (* this code unit *)
  | PAny.               (* [.]: any code unit but a line terminator *)

Definition isSyntaxChar (c : ascii) : bool :=
  existsb (Ascii.eqb c) (str "^$\.*+?()[]{}|").

Definition isBrace (c : ascii) : bool := Ascii.eqb c "{" || Ascii.eqb c "}".

(** [placeholder.replace(/[{}]/g, '\\$&')]: a backslash before each brace. *)
Definition escapeBraces (placeholder : jsstring) : jsstring :=
  flat_map (fun c => if isBrace c then ["\"; c] else [c]) placeholder.

Fixpoint parsePattern (p : jsstring) : option (list patItem) :=
  match p with
  | [] => Some []
  | c :: p' =>
      if Ascii.eqb c "\" then
        match p' with
        | d :: p'' =>
            if isSyntaxChar d || Ascii.eqb d "/"
            then cons (PChar d) <$> parsePattern p''
            else None
        | [] => None
        end
      else if Ascii.eqb c "." then cons PAny <$> parsePattern p'
      else if isSyntaxChar c then None
      else cons (PChar c) <$> parsePattern p'
  end.

Definition isLineTerminator (c : ascii) : bool :=
  Ascii.eqb c "010" || Ascii.eqb c "013".

Definition itemMatches (it : patItem) (c : ascii) : bool :=
  match it with
  | PChar a => Ascii.eqb a c
  | PAny => negb (isLineTerminator c)
  end.

(** One match attempt at the head of [s]: the matched text and what follows. *)
Fixpoint matchItems (its : list patItem) (s : jsstring) : option (jsstring * jsstring) :=
  match its, s with
  | [], _ => Some ([], s)
  | it :: its', c :: s' =>
      if itemMatches it c
      then match matchItems its' s' with
           | Some (m, r) => Some (c :: m, r)
           | None => None
           end
      else None
  | _ :: _, [] => None
  end.

(** [GetSubstitution] for a pattern without capture groups: [$$], [$&],
    [$`] and [$'] are expanded, every other [$] stands for itself. *)
Fixpoint getSubstitution (matched before after repl : jsstring) : jsstring :=
  match repl with
  | [] => []
  | c :: r =>
      if Ascii.eqb c "$" then
        match r with
        | d :: r' =>
            if Ascii.eqb d "$" then "$" :: getSubstitution matched before after r'
            else if Ascii.eqb d "&" then matched ++ getSubstitution matched before after r'
            else if Ascii.eqb d "`" then before ++ getSubstitution matched before after r'
            else if Ascii.eqb d "'" then after ++ getSubstitution matched before after r'
            else c :: getSubstitution matched before after r
        | [] => [c]
        end
      else c :: getSubstitution matched before after r
  end.

(** [s.replace(re, repl)] for a global [re]: matches are taken leftmost
    first, the search resumes after a match, and one code unit further after
    an empty match.  [before] is the text already passed; [fuel] bounds the
    number of match attempts, [S (length s)] of them are enough. *)
Fixpoint replaceLoop (its : list patItem) (repl : jsstring)
    (fuel : nat) (before s : jsstring) : jsstring :=
  match fuel with
  | 0 => s
  | S fuel' =>
      match matchItems its s with
      | Some (m, rest) =>
          getSubstitution m before rest repl ++
          match m, s with
          | [], c :: s' => c :: replaceLoop its repl fuel' (before ++ [c]) s'
          | [], [] => []
          | _ :: _, _ => replaceLoop its repl fuel' (before ++ m) rest
          end
      | None =>
          match s with
          | [] => []
          | c :: s' => c :: replaceLoop its repl fuel' (before ++ [c]) s'
          end
      end
  end.

Definition replaceGlobal (its : list patItem) (repl s : jsstring) : jsstring :=
  replaceLoop its repl (S (length s)) [] s.

(** One turn of the loop of [applyTemplateReplacements]. *)
Definition replaceEntry (result : jsstring) (entry : jsstring * jsstring) : option jsstring :=
  let '(placeholder, value) := entry in
  match parsePattern (escapeBraces placeholder) with
  | Some its => Some (replaceGlobal its value result)
  | None => None
  end.

(** [applyTemplateReplacements(template, replacements)].  [replacements] is
    the token map in the order of [Object.entries].  [None]: some key is
    outside the modelled pattern fragment. *)
Fixpoint applyTemplateReplacements (template : jsstring)
    (replacements : list (jsstring * jsstring)) : option jsstring :=
  match replacements with
  | [] => Some template
  | entry :: rest =>
      match replaceEntry template entry with
      | Some result => applyTemplateReplacements result rest
      | None => None
      end
  end.

End TemplateReplacer.

Import TemplateReplacer.

(** ** Reading of the specification: literal replacement

    The specification describes the engine as replacing every occurrence of a
    key, taken as literal text, by the mapped value.  [literalReplaceAll]
    writes that down directly: scanning from the left, each occurrence of [k]
    is replaced by [v] and the scan resumes after it. *)

Fixpoint literalReplaceLoop (k v : jsstring) (fuel : nat) (s : jsstring) : jsstring :=
  match fuel with
  | 0 => s
  | S fuel' =>
      match stripPrefix k s with
      | Some rest => v ++ literalReplaceLoop k v fuel' rest
      | None =>
          match s with
          | [] => []
          | c :: s' => c :: literalReplaceLoop k v fuel' s'
          end
      end
  end.

Definition literalReplaceAll (k v s : jsstring) : jsstring :=
  literalReplaceLoop k v (S (length s)) s.

(** [k] occurs in [s] as a contiguous piece of text. *)
Definition occursIn (k s : jsstring) : Prop := exists pre post, s = pre ++ k ++ post.

(** Keys made of braces and of characters that mean themselves in a pattern. *)
Definition plainKeyChar (c : ascii) : bool := isBrace c || negb (isSyntaxChar c).
Definition plainKey (k : jsstring) : bool := truthy k && forallb plainKeyChar k.

(** Values in which [GetSubstitution] has nothing to expand. *)
Definition dollarFree (v : jsstring) : bool := negb (existsb (Ascii.eqb "$") v).

Definition plainTokens (m : list (jsstring * jsstring)) : bool :=
  forallb (fun e => plainKey (fst e) && dollarFree (snd e)) m.

(** ** Reading of the specification: templates made of text and tokens

    A template seen as a sequence of pieces, each either plain text or a
    token [{NAME}]; the token map seen as a list of names with their values.
    [substitute] replaces each token that has an entry by its value and keeps
    every other piece. *)

Inductive piece : Type :=
  | Text (t : jsstring)
  | Token (name : jsstring).

Definition tokenKey (name : jsstring) : jsstring := "{" :: name ++ ["}"].

Definition renderPiece (p : piece) : jsstring :=
  match p with Text t => t | Token n => tokenKey n end.

Definition render (ps : list piece) : jsstring := concat (map renderPiece ps).

Definition tokenEntries (l : list (jsstring * jsstring)) : list (jsstring * jsstring) :=
  map (fun e => (tokenKey (fst e), snd e)) l.

Fixpoint lookupName (name : jsstring) (l : list (jsstring * jsstring)) : option jsstring :=
  match l with
  | [] => None
  | (n, v) :: l' => if decide (n = name) then Some v else lookupName name l'
  end.

Definition substitutePiece (l : list (jsstring * jsstring)) (p : piece) : piece :=
  match p with
  | Text t => Text t
  | Token n => match lookupName n l with Some v => Text v | None => Token n end
  end.

Definition substitute (l : list (jsstring * jsstring)) (ps : list piece) : jsstring :=
  render (map (substitutePiece l) ps).

Definition openFree (s : jsstring) : bool := negb (existsb (Ascii.eqb "{") s).
Definition nameChars (n : jsstring) : bool := forallb (fun c => negb (isSyntaxChar c)) n.

(** Text pieces carry no opening brace, token names are plain. *)
Definition wfPiece (p : piece) : bool :=
  match p with Text t => openFree t | Token n => nameChars n end.

(** Names are plain, values carry neither an opening brace nor a dollar. *)
Definition wfEntry (e : jsstring * jsstring) : bool :=
  nameChars (fst e) && openFree (snd e) && dollarFree (snd e).

(* ===================================================================== *)
(** * Part 3.  Fact extractor ([codebaseAnalysisExtractor.ts]) *)
(* ===================================================================== *)

Module Regex.

(** ** The patterns of the extractor

    Every pattern of the extractor is a sequence of literal characters and
    of repetitions of a one-character class, all under the [i] flag.  A
    repetition is greedy or lazy, has a lower bound of zero or one, and may
    be the capture group 1. *)

Inductive cclass : Type :=
  | AnyUnit       (* [\s\S] *)
  | NotNewline.   (* [^\n]  *)

Inductive node : Type :=
  | NChar (c : ascii)
  | NRepeat (cls : cclass) (atLeastOne greedy captured : bool).

Record matchResult : Type := MatchResult {
  matched : jsstring;          (* m[0] *)
  group1 : option jsstring;    (* m[1] *)
  rest : jsstring              (* the input after the match *)
}.

Definition inClass (cls : cclass) (c : ascii) : bool :=
  match cls with
  | AnyUnit => true
  | NotNewline => negb (Ascii.eqb c "010")
  end.

(** [Canonicalize] under the [i] flag.  The pattern literals are ASCII, and a
    code unit canonicalizes to an ASCII letter only when it is that letter in
    either case. *)
Definition canonicalize (c : ascii) : ascii :=
  let n := nat_of_ascii c in
  if ((97 <=? n) && (n <=? 122))%nat then ascii_of_nat (n - 32) else c.

Definition eqbCI (a b : ascii) : bool := Ascii.eqb (canonicalize a) (canonicalize b).

Definition consumed (d : ascii) (r : option matchResult) : option matchResult :=
  match r with
  | Some m => Some (MatchResult (d :: matched m) (group1 m) (rest m))
  | None => None
  end.

(** Leaving a repetition that has taken [taken]: the bound is checked, the
    rest of the pattern is matched by [k], and the group is recorded. *)
Definition leaveRepeat (atLeastOne captured : bool) (k : jsstring -> option matchResult)
    (taken s : jsstring) : option matchResult :=
  if atLeastOne && negb (truthy taken) then None
  else match k s with
       | Some m =>
           Some (MatchResult (taken ++ matched m)
                   (if captured then Some taken else group1 m) (rest m))
       | None => None
       end.

(** Greedy repetition: take one more code unit first, leave on failure. *)
Fixpoint greedyRepeat (cls : cclass) (atLeastOne captured : bool)
    (k : jsstring -> option matchResult) (taken s : jsstring) : option matchResult :=
  match s with
  | c :: s' =>
      if inClass cls c then
        match greedyRepeat cls atLeastOne captured k (taken ++ [c]) s' with
        | Some m => Some m
        | None => leaveRepeat atLeastOne captured k taken s
        end
      else leaveRepeat atLeastOne captured k taken s
  | [] => leaveRepeat atLeastOne captured k taken s
  end.

(** Lazy repetition: leave first, take one more code unit on failure. *)
Fixpoint lazyRepeat (cls : cclass) (atLeastOne captured : bool)
    (k : jsstring -> option matchResult) (taken s : jsstring) : option matchResult :=
  match leaveRepeat atLeastOne captured k taken s with
  | Some m => Some m
  | None =>
      match s with
      | c :: s' =>
          if inClass cls c
          then lazyRepeat cls atLeastOne captured k (taken ++ [c]) s'
          else None
      | [] => None
      end
  end.

(** The backtracking matcher at one position: the first match in the order
    in which the pattern tries its alternatives. *)
Fixpoint matchNodes (ns : list node) : jsstring -> option matchResult :=
  match ns with
  | [] => fun s => Some (MatchResult [] None s)
  | n :: ns' =>
      let k := matchNodes ns' in
      match n with
      | NChar c => fun s =>
          match s with
          | d :: s' => if eqbCI c d then consumed d (k s') else None
          | [] => None
          end
      | NRepeat cls atLeastOne greedy captured =>
          if greedy
          then greedyRepeat cls atLeastOne captured k []
          else lazyRepeat cls atLeastOne captured k []
      end
  end.

(** [s.match(re)] for a pattern without the [g] flag: the leftmost position
    with a match.  The answer carries the text before the match. *)
Fixpoint execFrom (ns : list node) (before s : jsstring) : option (jsstring * matchResult) :=
  match matchNodes ns s with
  | Some m => Some (before, m)
  | None =>
      match s with
      | [] => None
      | c :: s' => execFrom ns (before ++ [c]) s'
      end
  end.

Definition exec (ns : list node) (s : jsstring) : option (jsstring * matchResult) :=
  execFrom ns [] s.

(** [s.replace(re, '')] for a pattern without the [g] flag. *)
Definition removeFirst (ns : list node) (s : jsstring) : jsstring :=
  match exec ns s with
  | Some (before, m) => before ++ rest m
  | None => s
  end.

Definition lit (s : string) : list node := map NChar (str s).
Definition lazyAny : node := NRepeat AnyUnit false false false.     (* [\s\S]*? *)
Definition restOfLine : node := NRepeat NotNewline false true false. (* [^\n]*   *)
Definition captureLine : node := NRepeat NotNewline true true true. (* ([^\n]+) *)

(** [/<question>[^\n]*\n- ([^\n]+)/i] *)
Definition answerTo (question : list node) : list node :=
  question ++ [restOfLine; NChar "010"] ++ lit "- " ++ [captureLine].

(** [/<heading>[\s\S]*?<question>[^\n]*\n- ([^\n]+)/i] *)
Definition answerUnder (heading question : list node) : list node :=
  heading ++ [lazyAny] ++ answerTo question.

(** [m[1]] of [s.match(re)]. *)
Definition answer (re : list node) (s : jsstring) : option jsstring :=
  match exec re s with
  | Some (_, m) => group1 m
  | None => None
  end.

End Regex.
Import Regex.

Module Extractor.

Inductive CustomerModel : Type := B2C | B2B.
Inductive ProjectStructure : Type := Nextjs | React.

(** [ExtractedCodebaseInfo].  [filePaths] is kept as the object it is: a
    finite map from role names to paths. *)
Record ExtractedCodebaseInfo : Type := {
  framework : jsstring;
  language : jsstring;
  authLibrary : jsstring;
  customerModel : CustomerModel;
  customerIdSource : jsstring;
  projectStructure : option ProjectStructure;
  stackDetails : option jsstring;
  additionalDetails : option jsstring;
  filePaths : gmap string jsstring
}.

(** The roles of [filePaths]. *)
Definition pathRoles : list string :=
  ["apiRoutePath"; "libPath"; "componentsPath"; "serverFile"; "routeHandler";
   "layoutFile"; "billingPage"; "packageFile"; "envFile"; "envVarAccess";
   "mockBillingPath"; "pricingComponentPath"; "navbarComponentPath";
   "dashboardComponentPath"]%string.

Definition builtinPaths : gmap string jsstring :=
  list_to_map
    [("apiRoutePath", str "src/app/api");
     ("libPath", str "src/lib");
     ("componentsPath", str "src/components");
     ("serverFile", str "src/lib/flowglad.ts");
     ("routeHandler", str "src/app/api/flowglad/[...path]/route.ts");
     ("layoutFile", str "src/app/layout.tsx");
     ("billingPage", str "src/app/billing/page.tsx");
     ("packageFile", str "package.json");
     ("envFile", str ".env.local");
     ("envVarAccess", str "process.env.VAR_NAME");
     ("mockBillingPath", str "src/lib/billing.ts");
     ("pricingComponentPath", str "src/components/pricing.tsx");
     ("navbarComponentPath", str "src/components/navbar.tsx");
     ("dashboardComponentPath", str "src/app/dashboard/page.tsx")]%string.

(** The local [defaults]: the spread [...defaultPaths] comes last, so an
    override wins over the built-in path.  A [Partial] override record is the
    finite map of the keys it has. *)
Definition defaults (defaultPaths : gmap string jsstring) : ExtractedCodebaseInfo :=
  {| framework := str "Next.js";
     language := str "TypeScript";
     authLibrary := str "unknown";
     customerModel := B2C;
     customerIdSource := str "user.id";
     projectStructure := None;
     stackDetails := None;
     additionalDetails := None;
     filePaths := defaultPaths ∪ builtinPaths |}.

Definition setPath (role : string) (v : jsstring) (info : ExtractedCodebaseInfo)
    : ExtractedCodebaseInfo :=
  {| framework := framework info; language := language info;
     authLibrary := authLibrary info; customerModel := customerModel info;
     customerIdSource := customerIdSource info;
     projectStructure := projectStructure info;
     stackDetails := stackDetails info;
     additionalDetails := additionalDetails info;
     filePaths := <[role := v]> (filePaths info) |}.

(** [info.filePaths.libPath], a key that every record built here has. *)
Definition getPath (role : string) (info : ExtractedCodebaseInfo) : jsstring :=
  default [] (filePaths info !! role).

(** *** The patterns *)

Definition frameworkRe : list node :=
  answerUnder (lit "## 1. Framework & Language Detection")
              (lit "What framework does the application use?").
Definition languageRe : list node := answerTo (lit "What language is the server written in?").
Definition authRe : list node :=
  answerUnder (lit "## 3. Authentication System")
              (lit "What authentication library/system is used?").
Definition customerIdRe : list node :=
  answerUnder (lit "Customer ID Source") (lit "For B2C: What field identifies a user?").
Definition stackHeadRe : list node := lit "## 2. File Structure & Paths".
Definition stackTailRe : list node := lit "## 3.".
Definition stackRe : list node := stackHeadRe ++ [lazyAny] ++ stackTailRe.
Definition additionalRe : list node := lit "## 4. Customer Model" ++ [lazyAny] ++ lit "## 5.".

Definition b2bMarker : jsstring := str "**B2B**: Businesses".
Definition b2cMarker : jsstring := str "**B2C**: Individual users".

(** *** The blocks of [extractCodebaseInfo], in source order *)

(** Extract framework *)
Definition extractFramework (doc : jsstring) (info : ExtractedCodebaseInfo) : ExtractedCodebaseInfo :=
  match answer frameworkRe doc with
  | Some g =>
      let frameworkText := toLowerCase g in
      if includes (str "next.js") frameworkText || includes (str "nextjs") frameworkText then
        {| framework := str "Next.js"; language := language info;
           authLibrary := authLibrary info; customerModel := customerModel info;
           customerIdSource := customerIdSource info;
           projectStructure := Some Nextjs;
           stackDetails := stackDetails info;
           additionalDetails := additionalDetails info;
           filePaths := filePaths info |}
      else if includes (str "react") frameworkText then
        {| framework := str "React"; language := language info;
           authLibrary := authLibrary info; customerModel := customerModel info;
           customerIdSource := customerIdSource info;
           projectStructure := Some React;
           stackDetails := stackDetails info;
           additionalDetails := additionalDetails info;
           filePaths := filePaths info |}
      else info
  | None => info
  end.

(** Extract language *)
Definition extractLanguage (doc : jsstring) (info : ExtractedCodebaseInfo) : ExtractedCodebaseInfo :=
  match answer languageRe doc with
  | Some g =>
      {| framework := framework info; language := trim g;
         authLibrary := authLibrary info; customerModel := customerModel info;
         customerIdSource := customerIdSource info;
         projectStructure := projectStructure info;
         stackDetails := stackDetails info;
         additionalDetails := additionalDetails info;
         filePaths := filePaths info |}
  | None => info
  end.

Definition setAuthLibrary (v : jsstring) (info : ExtractedCodebaseInfo) : ExtractedCodebaseInfo :=
  {| framework := framework info; language := language info;
     authLibrary := v; customerModel := customerModel info;
     customerIdSource := customerIdSource info;
     projectStructure := projectStructure info;
     stackDetails := stackDetails info;
     additionalDetails := additionalDetails info;
     filePaths := filePaths info |}.

(** Extract auth library *)
Definition extractAuth (doc : jsstring) (info : ExtractedCodebaseInfo) : ExtractedCodebaseInfo :=
  match answer authRe doc with
  | Some g =>
      let authText := toLowerCase g in
      if includes (str "clerk") authText then setAuthLibrary (str "Clerk") info
      else if includes (str "supabase") authText then setAuthLibrary (str "Supabase") info
      else if includes (str "nextauth") authText || includes (str "next-auth") authText
      then setAuthLibrary (str "NextAuth") info
      else setAuthLibrary (trim g) info
  | None => info
  end.

(** Extract customer model *)
Definition extractCustomerModel (doc : jsstring) (info : ExtractedCodebaseInfo) : ExtractedCodebaseInfo :=
  let b2bIndex := indexOf b2bMarker doc in
  let b2cIndex := indexOf b2cMarker doc in
  if negb (b2bIndex =? -1)%Z && ((b2cIndex =? -1)%Z || (b2bIndex <? b2cIndex)%Z) then
    {| framework := framework info; language := language info;
       authLibrary := authLibrary info; customerModel := B2B;
       customerIdSource := customerIdSource info;
       projectStructure := projectStructure info;
       stackDetails := stackDetails info;
       additionalDetails := additionalDetails info;
       filePaths := filePaths info |}
  else info.

(** Extract customer ID source *)
Definition extractCustomerId (doc : jsstring) (info : ExtractedCodebaseInfo) : ExtractedCodebaseInfo :=
  match answer customerIdRe doc with
  | Some g =>
      {| framework := framework info; language := language info;
         authLibrary := authLibrary info; customerModel := customerModel info;
         customerIdSource := trim g;
         projectStructure := projectStructure info;
         stackDetails := stackDetails info;
         additionalDetails := additionalDetails info;
         filePaths := filePaths info |}
  | None => info
  end.

(** Extract stack details from section 2 *)
Definition extractStack (doc : jsstring) (info : ExtractedCodebaseInfo) : ExtractedCodebaseInfo :=
  match exec stackRe doc with
  | Some (_, m) =>
      {| framework := framework info; language := language info;
         authLibrary := authLibrary info; customerModel := customerModel info;
         customerIdSource := customerIdSource info;
         projectStructure := projectStructure info;
         stackDetails :=
           Some (trim (removeFirst stackTailRe (removeFirst stackHeadRe (matched m))));
         additionalDetails := additionalDetails info;
         filePaths := filePaths info |}
  | None => info
  end.

(** Extract additional details from section 4 *)
Definition extractAdditional (doc : jsstring) (info : ExtractedCodebaseInfo) : ExtractedCodebaseInfo :=
  match exec additionalRe doc with
  | Some (_, m) =>
      {| framework := framework info; language := language info;
         authLibrary := authLibrary info; customerModel := customerModel info;
         customerIdSource := customerIdSource info;
         projectStructure := projectStructure info;
         stackDetails := stackDetails info;
         additionalDetails := Some (trim (removeFirst additionalRe (matched m)));
         filePaths := filePaths info |}
  | None => info
  end.

(** [if (m) info.filePaths.<role> = m[1].trim()] *)
Definition extractPath (role : string) (question : string) (doc : jsstring)
    (info : ExtractedCodebaseInfo) : ExtractedCodebaseInfo :=
  match answer (answerTo (lit question)) doc with
  | Some g => setPath role (trim g) info
  | None => info
  end.

(** The utilities path, and the server file derived from it. *)
Definition extractLib (doc : jsstring) (info : ExtractedCodebaseInfo) : ExtractedCodebaseInfo :=
  match answer (answerTo (lit "Where are utility functions and shared code located?")) doc with
  | Some g =>
      let info := setPath "libPath" (trim g) info in
      setPath "serverFile"
        (getPath "libPath" info ++ str "/flowglad." ++
         (if includes (str "TypeScript") (language info) then str "ts" else str "js"))
        info
  | None => info
  end.

(** [extractCodebaseInfo(codebaseAnalysis, defaultPaths)] *)
Definition extractCodebaseInfo (codebaseAnalysis : option jsstring)
    (defaultPaths : gmap string jsstring) : ExtractedCodebaseInfo :=
  match codebaseAnalysis with
  | None => defaults defaultPaths
  | Some doc =>
      if negb (truthy doc) then defaults defaultPaths
      else
        let info := defaults defaultPaths in
        let info := extractFramework doc info in
        let info := extractLanguage doc info in
        let info := extractAuth doc info in
        let info := extractCustomerModel doc info in
        let info := extractCustomerId doc info in
        let info := extractStack doc info in
        let info := extractAdditional doc info in
        let info := extractPath "apiRoutePath" "Where should API routes be mounted?" doc info in
        let info := extractLib doc info in
        let info := extractPath "componentsPath" "Where are UI components located?" doc info in
        let info := extractPath "pricingComponentPath" "Where is the pricing page/component?" doc info in
        let info := extractPath "navbarComponentPath"
                      "Where is the navbar/account menu component?" doc info in
        let info := extractPath "dashboardComponentPath"
                      "Where is the main dashboard/home page component?" doc info in
        let info := extractPath "envFile" "What is the name of the environment file?" doc info in
        let info := extractPath "envVarAccess" "How are environment variables accessed?" doc info in
        let info := extractPath "packageFile"
                      "What is the name and location of the dependency file?" doc info in
        info
  end.

End Extractor.
Import Extractor.

(* ===================================================================== *)
(** * Part 4.  Pricing model analyzer and composer ([pricingModelUtils.ts]) *)
(* ===================================================================== *)

Module Pricing.

(** Modelled from the spec: the enumeration [FeatureType] of [@/types], which
    is not among the sources; the specification gives a closed set with at
    least toggle, usage-credit-grant and others. *)
Inductive FeatureType : Type := Toggle | UsageCreditGrant | OtherFeatureType.

Global Instance FeatureType_eq_dec : EqDecision FeatureType.
Proof. solve_decision. Defined.

(** A property that holds [undefined], [null] or a value. *)
Inductive nullable (A : Type) : Type :=
  | Undefined
  | Null
  | Value (a : A).
Arguments Undefined {A}.
Arguments Null {A}.
Arguments Value {A} a.

Definition isUndefined {A} (x : nullable A) : bool :=
  match x with Undefined => true | _ => false end.
Definition isNull {A} (x : nullable A) : bool :=
  match x with Null => true | _ => false end.

(** Modelled from the spec: [SetupPricingModelInput] of
    [@/utils/pricingModels/setupSchemas], which is not among the sources;
    the records carry the properties that the tools read. *)
Record Price : Type := { trialPeriodDays : nullable Z }.
Record ProductInfo : Type := { productName : jsstring; productSlug : jsstring }.
Record Product : Type := { product : ProductInfo; prices : list Price }.
Record Feature : Type := { featureType : FeatureType; featureSlug : jsstring }.
Record UsageMeter : Type := { meterSlug : jsstring; meterName : jsstring }.
Record SetupPricingModelInput : Type := {
  products : list Product;
  features : list Feature;
  usageMeters : list UsageMeter
}.

Record PricingModelAnalysis : Type := {
  hasTrials : bool;
  hasUsageMeters : bool;
  hasToggleFeatures : bool
}.

(** [analyzePricingModel(pricingModelData)] *)
Definition analyzePricingModel (pricingModelData : SetupPricingModelInput)
    : PricingModelAnalysis :=
  {| hasTrials :=
       existsb (fun product =>
         existsb (fun price =>
           negb (isUndefined (trialPeriodDays price)) &&
           negb (isNull (trialPeriodDays price)))
           (prices product))
         (products pricingModelData);
     hasUsageMeters := (0 <? length (usageMeters pricingModelData))%nat;
     hasToggleFeatures :=
       existsb (fun feature => bool_decide (featureType feature = Toggle))
         (features pricingModelData) |}.

(** [constructPricingModelInstructions(pricingModelData, analysis)].  The
    three blocks are fixed prose of the source; they are taken as given. *)
Definition constructPricingModelInstructions
    (trialsBlock usageBlock toggleBlock : jsstring)
    (pricingModelData : SetupPricingModelInput) (analysis : PricingModelAnalysis)
    : jsstring :=
  let sections := [] in
  let sections := if hasTrials analysis then sections ++ [trialsBlock] else sections in
  let sections := if hasUsageMeters analysis then sections ++ [usageBlock] else sections in
  let sections := if hasToggleFeatures analysis then sections ++ [toggleBlock] else sections in
  join ["010"; "010"] sections.

End Pricing.
Import Pricing.

(* ===================================================================== *)
(** * Part 5.  Snippet resolver ([codeSnippetUtils.ts]) *)
(* ===================================================================== *)

(** How a call ends.  [Unmodelled] marks a run that leaves what this
    development describes (see [applyTemplateReplacements]). *)
Inductive completion (A : Type) : Type :=
  | Normal (a : A)
  | Throw (message : jsstring)
  | Unmodelled.
Arguments Normal {A} a.
Arguments Throw {A} message.
Arguments Unmodelled {A}.

Module Snippets.

Inductive FrameworkKey : Type := KeyNextjs | KeyReact.

Definition frameworkKeyName (k : FrameworkKey) : string :=
  match k with KeyNextjs => "nextjs" | KeyReact => "react" end.

(** An entry of the [frameworks] level: the package names. *)
Record FrameworkEntry : Type := {
  serverPkg : jsstring;
  providerPkg : jsstring;
  billingHookPkg : jsstring
}.

(** The snippet library as parsed from [codeSnippets.json].  A level that the
    document lacks is [None]; the [base] level is kept in the order of
    [Object.entries], auth provider by auth provider, key by key. *)
Record SnippetLibrary : Type := {
  base : option (list (jsstring * list (jsstring * jsstring)));
  frameworks : option (gmap string FrameworkEntry)
}.

(** [key.replace('Template', '')]: the first occurrence of the text is
    removed. *)
Fixpoint removeFirstText (k s : jsstring) : jsstring :=
  match stripPrefix k s with
  | Some r => r
  | None => match s with [] => [] | c :: s' => c :: removeFirstText k s' end
  end.

Definition serverMarker : jsstring := str "{SERVER_PKG}".
Definition providerMarker : jsstring := str "{PROVIDER_PKG}".
Definition billingHookMarker : jsstring := str "{BILLING_HOOK_PKG}".

(** [/\{SERVER_PKG\}/g] and its siblings. *)
Definition markerRe (marker : jsstring) : list patItem := map PChar marker.

(** The three chained [replace] calls on a template value. *)
Definition resolveValue (framework : FrameworkEntry) (value : jsstring) : jsstring :=
  replaceGlobal (markerRe billingHookMarker) (billingHookPkg framework)
    (replaceGlobal (markerRe providerMarker) (providerPkg framework)
       (replaceGlobal (markerRe serverMarker) (serverPkg framework) value)).

(** The name under which an entry is written. *)
Definition resolvedName (key : jsstring) : jsstring :=
  if endsWith (str "Template") key then removeFirstText (str "Template") key else key.

(** The one name that is an accessor on [Object.prototype]. *)
Definition protoKey : jsstring := str "__proto__".

(** [obj[key] = value] for a string [value], on an object made by [{}]:
    every name becomes an own property but [__proto__], whose inherited
    setter ignores a value that is neither an object nor [null]. *)
Definition assignText (key value : jsstring) (obj : gmap jsstring jsstring)
    : gmap jsstring jsstring :=
  if bool_decide (key = protoKey) then obj else <[key := value]> obj.

(** The object [resolved]: its own properties, and its prototype when the
    loop has replaced it ([None] is [Object.prototype]). *)
Record ResolvedSnippets : Type := {
  ownProviders : gmap jsstring (gmap jsstring jsstring);
  prototype : option (gmap jsstring jsstring)
}.

(** One turn of the inner loop: [resolved[authKey][...] = ...]. *)
Definition resolveEntry (framework : FrameworkEntry)
    (acc : gmap jsstring jsstring) (entry : jsstring * jsstring) : gmap jsstring jsstring :=
  let '(key, value) := entry in
  if endsWith (str "Template") key then
    let baseKey := removeFirstText (str "Template") key in
    assignText baseKey (resolveValue framework value) acc
  else assignText key value acc.

(** One turn of the outer loop.  [resolved[authKey] = {}] makes an own
    property holding a fresh object, which the inner loop fills; for the
    name [__proto__] the inherited setter makes the fresh object the
    prototype of [resolved] instead, and [resolved[authKey]] then reads that
    prototype, which the inner loop fills. *)
Definition resolveAuth (framework : FrameworkEntry)
    (resolved : ResolvedSnippets)
    (entry : jsstring * list (jsstring * jsstring)) : ResolvedSnippets :=
  let '(authKey, authSnippets) := entry in
  let filled := fold_left (resolveEntry framework) authSnippets ∅ in
  if bool_decide (authKey = protoKey)
  then {| ownProviders := ownProviders resolved; prototype := Some filled |}
  else {| ownProviders := <[authKey := filled]> (ownProviders resolved);
          prototype := prototype resolved |}.

(** [resolveSnippets(snippets, frameworkKey)].  Reading
    [snippets.frameworks[frameworkKey]] raises [TypeError] when the library
    has no [frameworks] level; the answer [Normal None] is [null]. *)
Definition resolveSnippets (snippets : SnippetLibrary) (frameworkKey : FrameworkKey)
    : completion (option ResolvedSnippets) :=
  let base := base snippets in
  match frameworks snippets with
  | None => Throw (str "TypeError: Cannot read properties of undefined")
  | Some fws =>
      let framework := fws !! frameworkKeyName frameworkKey in
      match base, framework with
      | Some base, Some framework =>
          Normal (Some (fold_left (resolveAuth framework) base
                          {| ownProviders := ∅; prototype := None |}))
      | _, _ => Normal None
      end
  end.

(** ** Reading of the specification: a well-formed framework entry

    Package names: not empty, without dollar sign, and without any character
    of the three markers. *)
Definition markerAlphabet : jsstring := serverMarker ++ providerMarker ++ billingHookMarker.

Definition packageName (v : jsstring) : bool :=
  truthy v && dollarFree v &&
  forallb (fun c => negb (existsb (Ascii.eqb c) markerAlphabet)) v.

Definition wellFormedFramework (framework : FrameworkEntry) : bool :=
  packageName (serverPkg framework) && packageName (providerPkg framework) &&
  packageName (billingHookPkg framework).

End Snippets.
Import Snippets.

(* ===================================================================== *)
(** * Part 6.  The tools ([analyzeCodebase.ts], [getSetupInstructions.ts]) *)
(* ===================================================================== *)

Module Tools.

(** ** The collaborators outside the engine *)

(** What a collaborator answers: a value, or an exception with its message. *)
Inductive external (A : Type) : Type :=
  | Gives (a : A)
  | Raises (message : jsstring).
Arguments Gives {A} a.
Arguments Raises {A} message.

Record World : Type := {
  (* [core.envVariable('MCP_API_KEY')] *)
  envMcpApiKey : option jsstring;
  (* reading [analyze-codebase.md] *)
  analysisPrompt : external jsstring;
  (* [authenticatedTransaction] looking up the default pricing model under
     an API key; [Gives None] is [null] *)
  defaultPricingModel : jsstring -> external (option SetupPricingModelInput);
  (* [yaml.stringify] *)
  yamlStringify : SetupPricingModelInput -> external jsstring;
  (* reading the generation template *)
  generationTemplate : external jsstring;
  (* reading and parsing [codeSnippets.json] *)
  codeSnippets : external SnippetLibrary
}.

(** ** Arguments of the tools *)

Record FileContent : Type := { path : jsstring; content : jsstring }.

Inductive PricingComponent : Type :=
  | FeatureAccess | UsageBased | Subscription | OneTime
  | FreeTrial | FreeTrialByCredit | Discount.

Definition pricingComponentValue (c : PricingComponent) : jsstring :=
  match c with
  | FeatureAccess => str "feature_access"
  | UsageBased => str "usage_based"
  | Subscription => str "subscription"
  | OneTime => str "one_time"
  | FreeTrial => str "free_trial_by_time"
  | FreeTrialByCredit => str "free_trial_by_credit"
  | Discount => str "discount"
  end.

Record Args : Type := {
  fileContents : option (list FileContent);
  codebaseAnalysis : option jsstring;
  manualProjectStructure : option ProjectStructure;
  pricingComponents : list PricingComponent;
  manualStackDetails : option jsstring;
  manualAdditionalDetails : option jsstring
}.

(** The same call with another [codebaseAnalysis]. *)
Definition withCodebaseAnalysis (a : option jsstring) (args : Args) : Args :=
  {| fileContents := fileContents args;
     codebaseAnalysis := a;
     manualProjectStructure := manualProjectStructure args;
     pricingComponents := pricingComponents args;
     manualStackDetails := manualStackDetails args;
     manualAdditionalDetails := manualAdditionalDetails args |}.

(** ** Text helpers *)

Definition nl : jsstring := ["010"].
Definition dq : jsstring := ["034"].

(** Lines joined by a line feed. *)
Definition lines (l : list string) : jsstring := join nl (map str l).

(** [`${n}`] for a length. *)
Definition decimal (n : nat) : jsstring :=
  str (NilZero.string_of_uint (Nat.to_uint n)).

(** [JSON.stringify] of a string without characters to escape. *)
Definition jsonString (s : jsstring) : jsstring := dq ++ s ++ dq.

(** [JSON.stringify(pricingComponents)] *)
Definition jsonComponents (cs : list PricingComponent) : jsstring :=
  str "[" ++ join (str ",") (map (fun c => jsonString (pricingComponentValue c)) cs) ++ str "]".

(** [!s] for an optional string. *)
Definition falsy (s : option jsstring) : bool :=
  match s with Some s => negb (truthy s) | None => true end.

(** [a || b] on optional strings. *)
Definition orElse (a : option jsstring) (b : option jsstring) : option jsstring :=
  if falsy a then b else a.

(** ** [analyzeCodebase], entered with an array of files

    The token lookup at its head only logs; it is left out.  The whole body
    sits in a [try], so the tool answers a text in every case. *)

Definition noValidFilesText (fileContents : list FileContent) : jsstring :=
  join nl
    [str "{";
     str "  " ++ jsonString (str "error") ++ str ": " ++
       jsonString (str "No valid files provided for analysis") ++ str ",";
     str "  " ++ jsonString (str "message") ++ str ": " ++
       jsonString (str "Please provide files with both path and content properties.") ++ str ",";
     str "  " ++ jsonString (str "received") ++ str ": " ++
       jsonString
         (if (length fileContents =? 0)%nat then str "Empty array"
          else decimal (length fileContents) ++
               str " file(s) provided, but none had valid path and content");
     str "}"].

Definition fileBlock (f : FileContent) : jsstring :=
  str "## File: " ++ path f ++ nl ++ nl ++ str "```" ++ nl ++ content f ++ nl ++ str "```".

Definition fullAnalysisRequest (prompt : jsstring) (validFiles : list FileContent) : jsstring :=
  prompt ++ nl ++ nl ++
  lines ["---"; ""; "# Codebase Files to Analyze"; ""; ""]%string ++
  str "**Files Analyzed:** " ++ decimal (length validFiles) ++ nl ++ nl ++
  lines ["---"; ""; ""]%string ++
  join (nl ++ nl ++ str "---" ++ nl ++ nl) (map fileBlock validFiles) ++ nl ++ nl ++
  lines ["---"; ""; "# Your Task"; "";
         "Please analyze the above codebase files according to the prompt above and create a comprehensive markdown document that covers all sections. The document should be complete and ready to be used as context for generating a Flowglad integration guide."]%string.

Definition analyzeCodebase (w : World) (fileContents : list FileContent) : jsstring :=
  let validFiles := List.filter (fun f => truthy (path f)) fileContents in
  if (length validFiles =? 0)%nat then noValidFilesText fileContents
  else
    match analysisPrompt w with
    | Gives prompt => fullAnalysisRequest prompt validFiles
    | Raises message => str "Error analyzing codebase: " ++ message
    end.

(** ** [getSetupInstructions] *)

Definition noApiKeyMessage : jsstring :=
  str "No API key provided. The tool requires authentication via API key in the Authorization header or MCP_API_KEY environment variable.".

(** The credential: the constructor argument, else the environment variable
    with a leading ["Bearer "] stripped; none is a raised error. *)
Definition resolveApiKey (apiKey : jsstring) (w : World) : completion jsstring :=
  let bearerToken := apiKey in
  let bearerToken :=
    if negb (truthy bearerToken) || negb (truthy (trim bearerToken)) then
      let bearerToken := default [] (envMcpApiKey w) in
      match stripPrefix (str "Bearer ") bearerToken with
      | Some r => trim r
      | None => bearerToken
      end
    else bearerToken in
  if negb (truthy bearerToken) || negb (truthy (trim bearerToken))
  then Throw noApiKeyMessage
  else Normal bearerToken.

(** The text returned when the analysis has to come first. *)
Definition redirectText (pricingComponents : list PricingComponent)
    (analyzeText : jsstring) : jsstring :=
  lines ["# Codebase Analysis Required"; "";
         "Before generating setup instructions, please analyze the codebase first using the analyzeCodebase tool.";
         "";
         "## Step 1: Analyze the Codebase"; "";
         "The analyzeCodebase tool has been called with your file contents. Please analyze the codebase according to the prompt and create a comprehensive markdown document.";
         "";
         "## Step 2: Generate Setup Instructions"; "";
         "Once you have completed the codebase analysis and created the markdown document, call getSetupInstructions again with:";
         "- `codebaseAnalysis`: The complete markdown document from your analysis";
         "- `fileContents`: (same as before, optional)";
         "- `pricingComponents`: "]%string ++
  jsonComponents pricingComponents ++ nl ++ nl ++
  lines ["---"; ""; "## Analysis Request from analyzeCodebase:"; ""; ""]%string ++
  analyzeText.

(** The phrase of the redirect text that tells how to call again. *)
Definition redirectPhrase : jsstring :=
  lines ["call getSetupInstructions again with:";
         "- `codebaseAnalysis`: The complete markdown document from your analysis"]%string.

Definition noModelStatus : jsstring :=
  str "No default pricing model found for your organization. You can set up your pricing model in the Flowglad dashboard.".
Definition yamlFailedStatus : jsstring :=
  str "Failed to generate YAML from pricing model data. Please check the console for errors.".
Definition analysisFailedStatus : jsstring :=
  str "Pricing model data was found but analysis failed. The YAML may be incomplete.".

Definition pricingModelStatus (pricingModelData : option SetupPricingModelInput)
    (pricingModelYAML : option jsstring) : jsstring :=
  match pricingModelData with
  | None => noModelStatus
  | Some _ =>
      match pricingModelYAML with
      | None => yamlFailedStatus
      | Some _ => analysisFailedStatus
      end
  end.

(** What follows the instructions when there is no pricing block. *)
Definition statusTail (status : jsstring) : jsstring :=
  nl ++ nl ++ lines ["---"; ""; "## Pricing Model Status"; ""; ""]%string ++ status ++ nl ++ nl ++
  lines ["To use pricing model-specific instructions, ensure you have:";
         "1. Created a default pricing model in your Flowglad organization";
         "2. Configured products, prices, features, and usage meters (if applicable)";
         ""]%string.

(** What follows the instructions when the pricing model is at hand. *)
Definition pricingTail (pricingModelYAML pricingModelInstructions : jsstring) : jsstring :=
  nl ++ nl ++
  lines ["# Pricing Model Configuration"; "";
         "Your organization's default pricing model has been detected. Use the following configuration when setting up products and features:";
         ""; "```yaml"; ""]%string ++
  pricingModelYAML ++ nl ++ str "```" ++ nl ++ nl ++
  (if truthy pricingModelInstructions then nl ++ pricingModelInstructions else []) ++ nl.

(** The opening of a structured pricing block. *)
Definition yamlFence : jsstring := str "```yaml".

(** The analysis put in front of the instructions. *)
Definition withAnalysis (codebaseAnalysis : option jsstring) (customizedInstructions : jsstring)
    : jsstring :=
  match codebaseAnalysis with
  | Some doc =>
      if truthy doc then
        lines ["# Codebase Analysis"; ""; ""]%string ++ doc ++ nl ++ nl ++
        lines ["---"; ""; "# Flowglad Integration Instructions"; ""; ""]%string ++
        customizedInstructions
      else customizedInstructions
  | None => customizedInstructions
  end.

(** [TemplateReplacementContext] *)
Record TemplateReplacementContext : Type := {
  ctxCodebaseInfo : ExtractedCodebaseInfo;
  ctxCodebaseAnalysis : option jsstring;
  ctxPricingModelData : option SetupPricingModelInput;
  ctxSnippets : SnippetLibrary;
  finalProjectStructure : ProjectStructure;
  finalStackDetails : jsstring
}.

(** ** Runs: the steps taken, and how the call ends *)

Inductive Step : Type :=
  | Delegate       (* analyzeCodebase is called *)
  | Extract        (* extractCodebaseInfo *)
  | Fetch          (* the default pricing model is looked up *)
  | Serialize      (* yaml.stringify *)
  | Analyze        (* analyzePricingModel *)
  | LoadTemplate
  | LoadSnippets
  | BuildTokens    (* buildTemplateReplacements *)
  | Substitute     (* applyTemplateReplacements *)
  | Compose        (* constructPricingModelInstructions *)
  | Assemble.      (* the final concatenation *)

Global Instance Step_eq_dec : EqDecision Step.
Proof. solve_decision. Defined.

Definition run (A : Type) : Type := (list Step * completion A)%type.

Global Instance run_ret : MRet run := fun A a => ([], Normal a).

Global Instance run_bind : MBind run := fun A B f m =>
  match m with
  | (t, Normal a) => let '(t', r) := f a in (t ++ t', r)
  | (t, Throw e) => (t, Throw e)
  | (t, Unmodelled) => (t, Unmodelled)
  end.

Definition step (s : Step) : run unit := ([s], Normal tt).
Definition finish {A : Type} (c : completion A) : run A := ([], c).

(** An exception of a collaborator that nothing catches. *)
Definition propagate {A : Type} (x : external A) : run A :=
  match x with
  | Gives a => finish (Normal a)
  | Raises message => finish (Throw message)
  end.

Definition trace {A : Type} (r : run A) : list Step := fst r.
Definition result {A : Type} (r : run A) : completion A := snd r.

(** The order of the generation pipeline. *)
Definition pipelineOrder : list Step :=
  [Extract; Fetch; Serialize; Analyze; LoadTemplate; LoadSnippets;
   BuildTokens; Substitute; Compose; Assemble].

(** [t] goes through steps of [order], each at most once, in that order. *)
Fixpoint inOrder (t order : list Step) : bool :=
  match t, order with
  | [], _ => true
  | _ :: _, [] => false
  | s :: t', o :: order' =>
      if bool_decide (s = o) then inOrder t' order' else inOrder t order'
  end.

Section Orchestrator.

(** [buildTemplateReplacements] is taken as given: it answers a token map or
    ends otherwise.  So are the three blocks of prose of
    [constructPricingModelInstructions]. *)
Variable buildTemplateReplacements :
  TemplateReplacementContext -> completion (list (jsstring * jsstring)).
Variables trialsBlock usageBlock toggleBlock : jsstring.

(** The [try] around the lookup of the pricing model: data, YAML, analysis. *)
Definition fetchPricingModel (w : World) (resolvedApiKey : jsstring)
    : run (option SetupPricingModelInput * option jsstring * option PricingModelAnalysis) :=
  step Fetch;;
  match defaultPricingModel w resolvedApiKey with
  | Raises _ => mret (None, None, None)
  | Gives None => mret (None, None, None)
  | Gives (Some pricingModelData) =>
      step Serialize;;
      match yamlStringify w pricingModelData with
      | Gives pricingModelYAML =>
          step Analyze;;
          mret (Some pricingModelData, Some pricingModelYAML,
                Some (analyzePricingModel pricingModelData))
      | Raises _ => mret (Some pricingModelData, None, None)
      end
  end.

(** The end of the callback: the pricing block, or the status. *)
Definition assemble (customizedInstructions : jsstring)
    (pricingModelData : option SetupPricingModelInput)
    (pricingModelYAML : option jsstring)
    (pricingModelAnalysis : option PricingModelAnalysis) : run jsstring :=
  match pricingModelYAML, pricingModelData, pricingModelAnalysis with
  | Some yaml, Some data, Some analysis =>
      if truthy yaml then
        step Compose;;
        let pricingModelInstructions :=
          constructPricingModelInstructions trialsBlock usageBlock toggleBlock data analysis in
        step Assemble;;
        mret (customizedInstructions ++ pricingTail yaml pricingModelInstructions)
      else
        step Assemble;;
        mret (customizedInstructions ++
              statusTail (pricingModelStatus pricingModelData pricingModelYAML))
  | _, _, _ =>
      step Assemble;;
      mret (customizedInstructions ++
            statusTail (pricingModelStatus pricingModelData pricingModelYAML))
  end.

(** The generation pipeline, from the extraction on. *)
Definition generate (w : World) (resolvedApiKey : jsstring) (args : Args) : run jsstring :=
  step Extract;;
  let codebaseInfo := extractCodebaseInfo (codebaseAnalysis args) ∅ in
  (* [finalAdditionalDetails] is computed by the source and never read *)
  let finalProjectStructure :=
    match manualProjectStructure args with
    | Some p => p
    | None => default Nextjs (projectStructure codebaseInfo)
    end in
  let finalStackDetails :=
    default (str "No stack details provided.")
      (orElse (orElse (manualStackDetails args) (stackDetails codebaseInfo))
              (Some (str "No stack details provided."))) in
  '(pricingModelData, pricingModelYAML, pricingModelAnalysis) ←
    fetchPricingModel w resolvedApiKey;
  step LoadTemplate;;
  generationTemplate ← propagate (generationTemplate w);
  step LoadSnippets;;
  snippets ← propagate (codeSnippets w);
  step BuildTokens;;
  templateReplacements ← finish (buildTemplateReplacements
    {| ctxCodebaseInfo := codebaseInfo;
       ctxCodebaseAnalysis := codebaseAnalysis args;
       ctxPricingModelData := pricingModelData;
       ctxSnippets := snippets;
       finalProjectStructure := finalProjectStructure;
       finalStackDetails := finalStackDetails |});
  step Substitute;;
  customizedInstructions ← finish
    match applyTemplateReplacements generationTemplate templateReplacements with
    | Some text => Normal text
    | None => Unmodelled
    end;
  let customizedInstructions := withAnalysis (codebaseAnalysis args) customizedInstructions in
  assemble customizedInstructions pricingModelData pricingModelYAML pricingModelAnalysis.

(** [fileContents && fileContents.length > 0 && !codebaseAnalysis] *)
Definition analysisRequired (args : Args) : bool :=
  match fileContents args with
  | Some files => (0 <? length files)%nat && falsy (codebaseAnalysis args)
  | None => false
  end.

(** [getSetupInstructions.callbackConstructor(apiKey)(args)]: the text of the
    single content item it returns. *)
Definition getSetupInstructions (apiKey : jsstring) (w : World) (args : Args) : run jsstring :=
  resolvedApiKey ← finish (resolveApiKey apiKey w);
  if analysisRequired args then
    step Delegate;;
    let analyzeText := analyzeCodebase w (default [] (fileContents args)) in
    mret (redirectText (pricingComponents args) analyzeText)
  else generate w resolvedApiKey args.

End Orchestrator.

End Tools.
Import Tools.

(* ===================================================================== *)
(** * Part 7.  Sample collaborators and calls *)
(* ===================================================================== *)

Module Samples.

(** A token map builder with the shape of the source's: tokens [{NAME}]. *)
Definition sampleTokens (ctx : TemplateReplacementContext)
    : completion (list (jsstring * jsstring)) :=
  Normal [(str "{FRAMEWORK}", framework (ctxCodebaseInfo ctx));
          (str "{LANGUAGE}", language (ctxCodebaseInfo ctx))].

Definition sampleFramework : FrameworkEntry :=
  {| serverPkg := str "@flowglad/nextjs/server";
     providerPkg := str "@flowglad/nextjs";
     billingHookPkg := str "@flowglad/nextjs" |}.

Definition sampleLibrary : SnippetLibrary :=
  {| base :=
       Some [(str "clerk",
              [(str "serverInitTemplate", str "import { FlowgladServer } from '{SERVER_PKG}'");
               (str "layoutProvider", str "<FlowgladProvider>")])];
     frameworks := Some {["nextjs"%string := sampleFramework]} |}.

Definition sampleModel : SetupPricingModelInput :=
  {| products := []; features := []; usageMeters := [] |}.

(** A world in which everything is at hand and no model is configured. *)
Definition sampleWorld : World :=
  {| envMcpApiKey := None;
     analysisPrompt := Gives (str "Analyze the codebase.");
     defaultPricingModel := fun _ => Gives None;
     yamlStringify := fun _ => Gives (str "products: []");
     generationTemplate := Gives (str "Integrate Flowglad into a {FRAMEWORK} app.");
     codeSnippets := Gives sampleLibrary |}.

(** The same world with a model whose serialization raises. *)
Definition unserializableWorld : World :=
  {| envMcpApiKey := None;
     analysisPrompt := Gives (str "Analyze the codebase.");
     defaultPricingModel := fun _ => Gives (Some sampleModel);
     yamlStringify := fun _ => Raises (str "cannot serialize");
     generationTemplate := Gives (str "Integrate Flowglad into a {FRAMEWORK} app.");
     codeSnippets := Gives sampleLibrary |}.

(** The same world without the generation template. *)
Definition templatelessWorld : World :=
  {| envMcpApiKey := None;
     analysisPrompt := Gives (str "Analyze the codebase.");
     defaultPricingModel := fun _ => Gives None;
     yamlStringify := fun _ => Gives (str "products: []");
     generationTemplate := Raises (str "ENOENT: no such file or directory");
     codeSnippets := Gives sampleLibrary |}.

Definition sampleFiles : list FileContent :=
  [{| path := str "package.json"; content := str "{}" |}].

(** File contents supplied, no analysis document. *)
Definition filesOnly : Args :=
  {| fileContents := Some sampleFiles;
     codebaseAnalysis := None;
     manualProjectStructure := None;
     pricingComponents := [Subscription; UsageBased];
     manualStackDetails := None;
     manualAdditionalDetails := None |}.

(** An analysis document supplied. *)
Definition analysed : Args :=
  {| fileContents := Some sampleFiles;
     codebaseAnalysis := Some (str "The app uses Next.js.");
     manualProjectStructure := None;
     pricingComponents := [Subscription];
     manualStackDetails := None;
     manualAdditionalDetails := None |}.

End Samples.
Import Samples.


(* ===================================================================== *)
(** * Part 8.  Notions used in the statements *)
(* ===================================================================== *)

(** A matcher whose every match records the group 1. *)
Definition capturing (k : jsstring -> option matchResult) : Prop :=
  forall s m, k s = Some m -> is_Some (group1 m).

(** One token replaced throughout a template of pieces. *)
Definition replaceToken (n v : jsstring) (p : piece) : piece :=
  match p with
  | Text t => Text t
  | Token n' => if decide (n = n') then Text v else Token n'
  end.

(** What each block leaves alone. *)
Definition keepsCustomerModel (f : ExtractedCodebaseInfo -> ExtractedCodebaseInfo) : Prop :=
  forall info, customerModel (f info) = customerModel info.

Definition keepsAuthLibrary (f : ExtractedCodebaseInfo -> ExtractedCodebaseInfo) : Prop :=
  forall info, authLibrary (f info) = authLibrary info.

(** Every role has an entry. *)
Definition allRoles (info : ExtractedCodebaseInfo) : Prop :=
  forall role, In role pathRoles -> is_Some (filePaths info !! role).

Definition keepsRoles (f : ExtractedCodebaseInfo -> ExtractedCodebaseInfo) : Prop :=
  forall info, allRoles info -> allRoles (f info).

(** The answer to the authentication question names none of the keywords. *)
Definition noAuthKeyword (g : jsstring) : bool :=
  let authText := toLowerCase g in
  negb (includes (str "clerk") authText) &&
  negb (includes (str "supabase") authText) &&
  negb (includes (str "nextauth") authText || includes (str "next-auth") authText).

(** The authentication section of an analysis document. *)
Definition authSection (reply : string) : jsstring :=
  str "## 3. Authentication System" ++ ["010"] ++
  str "What authentication library/system is used?" ++ ["010"] ++
  str "- " ++ str reply.

(** The three placeholder markers of the snippet library. *)
Definition isMarker (M : jsstring) : Prop :=
  M = serverMarker \/ M = providerMarker \/ M = billingHookMarker.

(** What [resolveEntry] writes for an entry. *)
Definition resolvedText (framework : FrameworkEntry) (entry : jsstring * jsstring) : jsstring :=
  if endsWith (str "Template") (fst entry)
  then resolveValue framework (snd entry) else snd entry.


(* ===================================================================== *)
(** * Part 9.  Classifiers of [codeSnippetUtils.ts] *)
(* ===================================================================== *)

Module Classifiers.

Inductive AuthKey : Type := AuthSupabase | AuthClerk | AuthNextauth | AuthCustom.

(** [getFrameworkKey(framework)] *)
Definition getFrameworkKey (framework : jsstring) : FrameworkKey :=
  let lower := toLowerCase framework in
  if includes (str "nextjs") lower || includes (str "next.js") lower then KeyNextjs
  else if includes (str "react") lower then KeyReact
  else KeyNextjs.

(** [getAuthKey(authProvider)] *)
Definition getAuthKey (authProvider : jsstring) : AuthKey :=
  let lower := toLowerCase authProvider in
  if includes (str "supabase") lower then AuthSupabase
  else if includes (str "clerk") lower then AuthClerk
  else if includes (str "nextauth") lower || includes (str "next-auth") lower then AuthNextauth
  else AuthCustom.

End Classifiers.
Import Classifiers.

(* ===================================================================== *)
(** * Part 10.  Further notions used in the statements *)
(* ===================================================================== *)

(** The roles that [extractCodebaseInfo] reads from the document, each with
    its question, in source order ([libPath] apart, which also sets
    [serverFile]). *)
Definition answeredRoles : list (string * string) :=
  [("apiRoutePath", "Where should API routes be mounted?");
   ("componentsPath", "Where are UI components located?");
   ("pricingComponentPath", "Where is the pricing page/component?");
   ("navbarComponentPath", "Where is the navbar/account menu component?");
   ("dashboardComponentPath", "Where is the main dashboard/home page component?");
   ("envFile", "What is the name of the environment file?");
   ("envVarAccess", "How are environment variables accessed?");
   ("packageFile", "What is the name and location of the dependency file?")]%string.

(** The roles that no block of [extractCodebaseInfo] writes. *)
Definition untouchedRoles : list string :=
  ["routeHandler"; "layoutFile"; "billingPage"; "mockBillingPath"]%string.

(** The question about the utilities path. *)
Definition libQuestion : list node :=
  answerTo (lit "Where are utility functions and shared code located?").

(** A node that is not the capture group. *)
Definition uncaptured (n : node) : bool :=
  match n with
  | NChar _ => true
  | NRepeat _ _ _ captured => negb captured
  end.

(** A non-empty text without a line feed: what [([^\n]+)] can take. *)
Definition lineText (g : jsstring) : bool := truthy g && forallb (inClass NotNewline) g.

(** What a matcher returns splits its input. *)
Definition splitting (k : jsstring -> option matchResult) : Prop :=
  forall s m, k s = Some m -> s = matched m ++ rest m.

(** What a matcher returns splits its input, and its group 1 is a line text
    inside the match. *)
Definition answering (k : jsstring -> option matchResult) : Prop :=
  forall s m, k s = Some m ->
    s = matched m ++ rest m /\
    exists g, group1 m = Some g /\ lineText g = true /\ occursIn g (matched m).

(** A model with one usage meter and one toggle feature. *)
Definition meteredModel : SetupPricingModelInput :=
  {| products := [];
     features := [{| featureType := Toggle; featureSlug := str "export" |}];
     usageMeters := [{| meterSlug := str "api_calls"; meterName := str "API calls" |}] |}.

(** A world in which the credential comes from the environment and the
    organization has the metered model. *)
Definition meteredWorld : World :=
  {| envMcpApiKey := Some (str "Bearer sk_live_1 ");
     analysisPrompt := Gives (str "Analyze the codebase.");
     defaultPricingModel := fun _ => Gives (Some meteredModel);
     yamlStringify := fun _ => Gives (str "usageMeters: [api_calls]");
     generationTemplate := Gives (str "Integrate Flowglad into a {FRAMEWORK} app.");
     codeSnippets := Gives sampleLibrary |}.

(** The value put before every code unit and after the last: what an empty
    pattern does. *)
Definition interleave (v t : jsstring) : jsstring := flat_map (fun c => v ++ [c]) t ++ v.

(** The steps that the lookup of the pricing model adds to a run after
    [Fetch]: the serialization when a model is found, and the analysis when
    the serialization succeeds. *)
Definition fetchSteps (w : World) (key : jsstring) : list Step :=
  match defaultPricingModel w key with
  | Gives (Some data) =>
      match yamlStringify w data with
      | Gives _ => [Serialize; Analyze]
      | Raises _ => [Serialize]
      end
  | _ => []
  end.

(** The composition step: taken when a model is found and its YAML text is
    not empty. *)
Definition composeSteps (w : World) (key : jsstring) : list Step :=
  match defaultPricingModel w key with
  | Gives (Some data) =>
      match yamlStringify w data with
      | Gives yaml => if truthy yaml then [Compose] else []
      | Raises _ => []
      end
  | _ => []
  end.

(** The header put before an analysis document. *)
Definition analysisHeader : jsstring := lines ["# Codebase Analysis"; ""; ""]%string.


(* ===================================================================== *)
(** * Proofs *)
(* ===================================================================== *)

Section StringFacts.

Lemma stripPrefix_Some (k s r : jsstring) :
  stripPrefix k s = Some r <-> s = k ++ r.
Proof.
  revert s; induction k as [|a k IH]; intros s; simpl.
  - split; [intros [= ->]; reflexivity | intros ->; reflexivity].
  - destruct s as [|b s]; [split; discriminate|].
    destruct (Ascii.eqb_spec a b) as [->|Hne].
    + rewrite IH. split; [intros ->; reflexivity | intros [= ->]; reflexivity].
    + split; [discriminate | intros [= Hab _]; congruence].
Qed.

Lemma stripPrefix_app (k r : jsstring) : stripPrefix k (k ++ r) = Some r.
Proof. apply stripPrefix_Some; reflexivity. Qed.

Lemma stripPrefix_None_nonempty (k s : jsstring) : stripPrefix k s = None -> k <> [].
Proof. intros H ->; discriminate. Qed.

Lemma includes_occursIn (k s : jsstring) : includes k s = true <-> occursIn k s.
Proof.
  induction s as [|c s IH]; simpl.
  - destruct (stripPrefix k []) as [r|] eqn:E.
    + split; [intros _|reflexivity]. apply stripPrefix_Some in E.
      exists [], r. exact E.
    + split; [discriminate|]. intros (pre & post & H).
      destruct pre; [|discriminate]. simpl in H.
      apply stripPrefix_Some in H. congruence.
  - destruct (stripPrefix k (c :: s)) as [r|] eqn:E.
    + split; [intros _|reflexivity]. apply stripPrefix_Some in E.
      exists [], r. exact E.
    + rewrite IH. split.
      * intros (pre & post & ->). exists (c :: pre), post. reflexivity.
      * intros (pre & post & H). destruct pre as [|c' pre].
        -- simpl in H. apply stripPrefix_Some in H. congruence.
        -- injection H as -> ->. exists pre, post. reflexivity.
Qed.

Lemma includes_false (k s : jsstring) : includes k s = false <-> ~ occursIn k s.
Proof. rewrite <- includes_occursIn. destruct (includes k s); intuition congruence. Qed.

End StringFacts.

Section LiteralReplacement.

Lemma stripPrefix_length (k s r : jsstring) :
  stripPrefix k s = Some r -> length s = length k + length r.
Proof. intros H. apply stripPrefix_Some in H. subst. apply length_app. Qed.

Lemma literalReplaceLoop_fuel (k v : jsstring) (f1 f2 : nat) (s : jsstring) :
  k <> [] -> length s < f1 -> length s < f2 ->
  literalReplaceLoop k v f1 s = literalReplaceLoop k v f2 s.
Proof.
  intros Hk. revert f2 s. induction f1 as [|f1 IH]; intros f2 s H1 H2; [lia|].
  destruct f2 as [|f2]; [lia|]. simpl.
  destruct (stripPrefix k s) as [r|] eqn:E.
  - f_equal. apply stripPrefix_length in E.
    assert (0 < length k) by (destruct k; [congruence | simpl; lia]).
    apply IH; lia.
  - destruct s as [|c s]; [reflexivity|]. simpl in *. f_equal. apply IH; lia.
Qed.

Lemma literalReplaceAll_nil (k v : jsstring) : k <> [] -> literalReplaceAll k v [] = [].
Proof. intros Hk. destruct k; [congruence | reflexivity]. Qed.

Lemma literalReplaceAll_match (k v r : jsstring) :
  k <> [] -> literalReplaceAll k v (k ++ r) = v ++ literalReplaceAll k v r.
Proof.
  intros Hk. unfold literalReplaceAll at 1. cbn [literalReplaceLoop].
  rewrite stripPrefix_app. f_equal.
  apply literalReplaceLoop_fuel; [assumption| |lia].
  rewrite length_app. destruct k; [congruence | simpl; lia].
Qed.

Lemma literalReplaceAll_skip (k v : jsstring) (c : ascii) (s : jsstring) :
  stripPrefix k (c :: s) = None ->
  literalReplaceAll k v (c :: s) = c :: literalReplaceAll k v s.
Proof.
  intros E. unfold literalReplaceAll at 1. cbn [literalReplaceLoop]. rewrite E.
  reflexivity.
Qed.

(** A key that does not occur leaves the text as it is. *)
Lemma literalReplaceAll_absent (k v s : jsstring) :
  k <> [] -> includes k s = false -> literalReplaceAll k v s = s.
Proof.
  intros Hk. induction s as [|c s IH]; intros H.
  - apply literalReplaceAll_nil; assumption.
  - simpl in H. destruct (stripPrefix k (c :: s)) eqn:E; [discriminate|].
    rewrite literalReplaceAll_skip by assumption. f_equal. apply IH, H.
Qed.

Lemma matchItems_PChar (k s : jsstring) :
  matchItems (map PChar k) s =
  match stripPrefix k s with Some r => Some (k, r) | None => None end.
Proof.
  revert s; induction k as [|a k IH]; intros s; [reflexivity|].
  cbn [map matchItems stripPrefix itemMatches].
  destruct s as [|b s]; [reflexivity|].
  destruct (Ascii.eqb_spec a b) as [->|Hne]; [|reflexivity].
  rewrite IH. destruct (stripPrefix k s); reflexivity.
Qed.

Lemma getSubstitution_dollarFree (m b a v : jsstring) :
  dollarFree v = true -> getSubstitution m b a v = v.
Proof.
  unfold dollarFree. induction v as [|c v IH]; [reflexivity|].
  cbn [existsb getSubstitution].
  rewrite negb_true_iff, orb_false_iff. intros [Hc Hv].
  rewrite Ascii.eqb_sym, Hc. f_equal. apply IH. rewrite Hv. reflexivity.
Qed.

Lemma matchItems_split (its : list patItem) (s m r : jsstring) :
  matchItems its s = Some (m, r) -> s = m ++ r.
Proof.
  revert s m r. induction its as [|it its IH]; intros s m r; cbn [matchItems].
  - intros [= <- <-]. reflexivity.
  - destruct s as [|c s]; [discriminate|].
    destruct (itemMatches it c); [|discriminate].
    destruct (matchItems its s) as [[m' r']|] eqn:E; [|discriminate].
    intros [= <- <-]. cbn [app]. f_equal. apply IH, E.
Qed.

(** The global replacement does not depend on the fuel once there is one
    unit more than there are code units. *)
Lemma replaceLoop_fuel (its : list patItem) (repl : jsstring) (f1 f2 : nat)
    (before s : jsstring) :
  length s < f1 -> length s < f2 ->
  replaceLoop its repl f1 before s = replaceLoop its repl f2 before s.
Proof.
  revert f2 before s. induction f1 as [|f1 IH]; intros f2 before s H1 H2; [lia|].
  destruct f2 as [|f2]; [lia|]. cbn [replaceLoop].
  destruct (matchItems its s) as [[m r]|] eqn:E.
  - f_equal. apply matchItems_split in E. destruct m as [|a m].
    + destruct s as [|c s]; [reflexivity|]. f_equal. cbn [length] in *. apply IH; lia.
    + subst s. rewrite length_app in H1, H2. cbn [length] in *. apply IH; lia.
  - destruct s as [|c s]; [reflexivity|]. f_equal. cbn [length] in *. apply IH; lia.
Qed.

Lemma replaceLoop_literal (k v : jsstring) (fuel : nat) (before s : jsstring) :
  k <> [] -> dollarFree v = true ->
  replaceLoop (map PChar k) v fuel before s = literalReplaceLoop k v fuel s.
Proof.
  intros Hk Hv. revert before s.
  induction fuel as [|fuel IH]; intros before s; [reflexivity|].
  cbn [replaceLoop literalReplaceLoop]. rewrite matchItems_PChar. destruct (stripPrefix k s) as [r|] eqn:E.
  - rewrite getSubstitution_dollarFree by assumption. f_equal.
    destruct k; [congruence|]. apply IH.
  - destruct s; [reflexivity|]. f_equal. apply IH.
Qed.

Lemma isSyntaxChar_backslash (c : ascii) :
  isSyntaxChar c = false -> Ascii.eqb c "\" = false /\ Ascii.eqb c "." = false.
Proof.
  intros H. split.
  - destruct (Ascii.eqb_spec c "\"); [subst; discriminate | reflexivity].
  - destruct (Ascii.eqb_spec c "."); [subst; discriminate | reflexivity].
Qed.

Lemma isBrace_syntax (c : ascii) : isBrace c = true -> isSyntaxChar c = true.
Proof.
  unfold isBrace. rewrite orb_true_iff.
  intros [H|H]; apply Ascii.eqb_eq in H; subst; reflexivity.
Qed.

Lemma parsePattern_escapeBraces (k : jsstring) :
  forallb plainKeyChar k = true ->
  parsePattern (escapeBraces k) = Some (map PChar k).
Proof.
  induction k as [|c k IH]; [reflexivity|].
  cbn [forallb]. rewrite andb_true_iff. intros [Hc Hk].
  specialize (IH Hk). unfold escapeBraces in *. cbn [flat_map].
  destruct (isBrace c) eqn:Hb.
  - cbn [app parsePattern]. rewrite Ascii.eqb_refl.
    rewrite (isBrace_syntax c Hb). cbn [orb]. rewrite IH. reflexivity.
  - unfold plainKeyChar in Hc. rewrite Hb in Hc. cbn [orb] in Hc.
    apply negb_true_iff in Hc.
    destruct (isSyntaxChar_backslash c Hc) as [H1 H2].
    cbn [app parsePattern]. rewrite H1, H2, Hc, IH. reflexivity.
Qed.

Lemma plainKey_nonempty (k : jsstring) : plainKey k = true -> k <> [].
Proof. destruct k; [discriminate | discriminate]. Qed.

Lemma replaceEntry_literal (s k v : jsstring) :
  plainKey k = true -> dollarFree v = true ->
  replaceEntry s (k, v) = Some (literalReplaceAll k v s).
Proof.
  intros Hk Hv. pose proof (plainKey_nonempty k Hk) as Hne.
  unfold plainKey in Hk. apply andb_true_iff in Hk as [_ Hk].
  unfold replaceEntry. rewrite (parsePattern_escapeBraces k Hk).
  unfold replaceGlobal, literalReplaceAll. f_equal.
  apply replaceLoop_literal; assumption.
Qed.

(** On plain keys the value is not even looked at when the key is absent. *)
Lemma replaceEntry_absent (s k v : jsstring) :
  plainKey k = true -> includes k s = false -> replaceEntry s (k, v) = Some s.
Proof.
  intros Hk Habs. pose proof (plainKey_nonempty k Hk) as Hne.
  unfold plainKey in Hk. apply andb_true_iff in Hk as [_ Hk].
  unfold replaceEntry. rewrite (parsePattern_escapeBraces k Hk). f_equal.
  unfold replaceGlobal. generalize (@nil ascii) as before.
  generalize (S (length s)) as fuel. intros fuel; revert s Habs.
  induction fuel as [|fuel IH]; intros s Habs before; [reflexivity|].
  cbn [replaceLoop]. rewrite matchItems_PChar.
  destruct s as [|c s].
  - simpl in Habs. destruct (stripPrefix k []); [discriminate | reflexivity].
  - simpl in Habs. destruct (stripPrefix k (c :: s)); [discriminate|].
    f_equal. apply IH, Habs.
Qed.

(** With plain keys every pattern is within the modelled fragment. *)
Lemma applyTemplateReplacements_defined (m : list (jsstring * jsstring)) (t : jsstring) :
  forallb plainKey (map fst m) = true ->
  exists text, applyTemplateReplacements t m = Some text.
Proof.
  revert t. induction m as [|[k v] m IH]; intros t Hp; [exists t; reflexivity|].
  cbn [map forallb fst] in Hp. apply andb_true_iff in Hp as [Hk Hm].
  cbn [applyTemplateReplacements]. unfold replaceEntry.
  unfold plainKey in Hk. apply andb_true_iff in Hk as [_ Hk].
  rewrite (parsePattern_escapeBraces k Hk). apply IH, Hm.
Qed.

End LiteralReplacement.

Section Pieces.

Lemma applyTemplateReplacements_literal (m : list (jsstring * jsstring)) (t : jsstring) :
  plainTokens m = true ->
  applyTemplateReplacements t m =
  Some (fold_left (fun s e => literalReplaceAll (fst e) (snd e) s) m t).
Proof.
  revert t. induction m as [|[k v] m IH]; intros t H; [reflexivity|].
  cbn [plainTokens forallb fst snd] in H.
  apply andb_true_iff in H as [Hkv Hm]. apply andb_true_iff in Hkv as [Hk Hv].
  cbn [applyTemplateReplacements fold_left fst snd].
  rewrite replaceEntry_literal by assumption. apply IH, Hm.
Qed.

Lemma applyTemplateReplacements_absent (m : list (jsstring * jsstring)) (t : jsstring) :
  forallb plainKey (map fst m) = true ->
  (forall k, In k (map fst m) -> includes k t = false) ->
  applyTemplateReplacements t m = Some t.
Proof.
  induction m as [|[k v] m IH]; intros Hp Habs; [reflexivity|].
  cbn [map forallb fst] in Hp. apply andb_true_iff in Hp as [Hk Hm].
  cbn [applyTemplateReplacements].
  rewrite replaceEntry_absent; [|assumption|apply Habs; left; reflexivity].
  apply IH; [assumption|]. intros k' Hin. apply Habs. right. exact Hin.
Qed.

Lemma nameChars_braceFree (n : jsstring) (c : ascii) :
  nameChars n = true -> In c n -> isBrace c = false.
Proof.
  unfold nameChars. rewrite forallb_forall. intros H Hin.
  specialize (H c Hin). apply negb_true_iff in H.
  destruct (isBrace c) eqn:Hb; [|reflexivity].
  apply isBrace_syntax in Hb. congruence.
Qed.

Lemma plainKey_tokenKey (n : jsstring) : nameChars n = true -> plainKey (tokenKey n) = true.
Proof.
  intros H. unfold plainKey, tokenKey. cbn [truthy andb forallb].
  change (plainKeyChar "{") with true. cbn [andb].
  rewrite forallb_app. cbn [forallb]. change (plainKeyChar "}") with true.
  rewrite !andb_true_r. unfold nameChars in H. rewrite forallb_forall in *.
  intros c Hc. unfold plainKeyChar. rewrite (H c Hc). apply orb_true_r.
Qed.

(** Scanning over text without an opening brace never starts a token. *)
Lemma literalReplaceAll_openFree (n v p s : jsstring) :
  openFree p = true ->
  literalReplaceAll (tokenKey n) v (p ++ s) = p ++ literalReplaceAll (tokenKey n) v s.
Proof.
  unfold openFree. induction p as [|c p IH]; [reflexivity|].
  cbn [existsb]. rewrite negb_true_iff, orb_false_iff. intros [Hc Hp].
  cbn [app]. rewrite literalReplaceAll_skip.
  - f_equal. apply IH. rewrite Hp. reflexivity.
  - unfold tokenKey. cbn [stripPrefix]. rewrite Hc. reflexivity.
Qed.

(** Two tokens with brace-free names agree at a position only when their
    names are the same. *)
Lemma stripPrefix_name (n n' s r : jsstring) :
  (forall c, In c n -> isBrace c = false) ->
  (forall c, In c n' -> isBrace c = false) ->
  stripPrefix (n ++ ["}"]) (n' ++ "}" :: s) = Some r -> n = n'.
Proof.
  revert n'. induction n as [|a n IH]; intros n' Hn Hn' H.
  - destruct n' as [|b n']; [reflexivity|]. cbn [app stripPrefix] in H.
    destruct (Ascii.eqb_spec "}" b) as [<-|]; [|discriminate].
    specialize (Hn' "}" (or_introl eq_refl)). discriminate.
  - destruct n' as [|b n'].
    + cbn [app stripPrefix] in H.
      destruct (Ascii.eqb_spec a "}") as [->|]; [|discriminate].
      specialize (Hn "}" (or_introl eq_refl)). discriminate.
    + cbn [app stripPrefix] in H.
      destruct (Ascii.eqb_spec a b) as [->|]; [|discriminate].
      f_equal. apply (IH n'); [| |exact H].
      * intros c Hc. apply Hn. right. exact Hc.
      * intros c Hc. apply Hn'. right. exact Hc.
Qed.

Lemma openFree_name (n : jsstring) : nameChars n = true -> openFree (n ++ ["}"]) = true.
Proof.
  intros H. unfold openFree. rewrite existsb_app. cbn [existsb].
  change (Ascii.eqb "{" "}") with false. cbn [orb]. rewrite orb_false_r.
  apply negb_true_iff. apply not_true_iff_false. intros Hex.
  apply existsb_exists in Hex as (c & Hin & Hc). apply Ascii.eqb_eq in Hc. subst c.
  pose proof (nameChars_braceFree n "{" H Hin). discriminate.
Qed.

Lemma literalReplaceAll_render (n v : jsstring) (ps : list piece) :
  nameChars n = true -> forallb wfPiece ps = true ->
  literalReplaceAll (tokenKey n) v (render ps) = render (map (replaceToken n v) ps).
Proof.
  intros Hn. induction ps as [|p ps IH]; intros Hps.
  - apply literalReplaceAll_nil. discriminate.
  - cbn [forallb] in Hps. apply andb_true_iff in Hps as [Hp Hps].
    specialize (IH Hps). unfold render in *. cbn [map concat].
    destruct p as [t|n']; cbn [wfPiece renderPiece replaceToken] in *.
    + rewrite literalReplaceAll_openFree by assumption. f_equal. exact IH.
    + destruct (decide (n = n')) as [<-|Hne]; cbn [renderPiece].
      * rewrite literalReplaceAll_match by discriminate. f_equal. exact IH.
      * unfold tokenKey at 2 3. cbn [app].
        rewrite literalReplaceAll_skip.
        -- f_equal.
           rewrite literalReplaceAll_openFree by (apply openFree_name; assumption).
           f_equal. exact IH.
        -- unfold tokenKey. cbn [stripPrefix]. rewrite Ascii.eqb_refl.
           rewrite <- app_assoc. cbn [app].
           destruct (stripPrefix (n ++ ["}"]) (n' ++ "}" :: _)) eqn:E; [|reflexivity].
           exfalso. apply Hne. eapply stripPrefix_name; [..|exact E].
           ++ intros c. apply nameChars_braceFree. assumption.
           ++ intros c. apply nameChars_braceFree. assumption.
Qed.

Lemma wfPiece_replaceToken (n v : jsstring) (ps : list piece) :
  openFree v = true -> forallb wfPiece ps = true ->
  forallb wfPiece (map (replaceToken n v) ps) = true.
Proof.
  intros Hv. induction ps as [|p ps IH]; [reflexivity|].
  cbn [forallb map]. rewrite !andb_true_iff. intros [Hp Hps]. split; [|auto].
  destruct p as [t|n']; [exact Hp|]. cbn [replaceToken].
  destruct (decide (n = n')); [exact Hv | exact Hp].
Qed.

Lemma substitutePiece_cons (n v : jsstring) (l : list (jsstring * jsstring)) (p : piece) :
  substitutePiece l (replaceToken n v p) = substitutePiece ((n, v) :: l) p.
Proof.
  destruct p as [t|n']; [reflexivity|]. cbn [replaceToken substitutePiece lookupName].
  destruct (decide (n = n')); reflexivity.
Qed.

(** The engine on a template of pieces: each token with an entry is replaced
    by its value, every other piece is kept. *)
Lemma applyTemplateReplacements_pieces (l : list (jsstring * jsstring)) (ps : list piece) :
  forallb wfEntry l = true -> forallb wfPiece ps = true ->
  applyTemplateReplacements (render ps) (tokenEntries l) = Some (substitute l ps).
Proof.
  revert ps. induction l as [|[n v] l IH]; intros ps Hl Hps.
  - cbn [tokenEntries map applyTemplateReplacements]. unfold substitute.
    f_equal. f_equal. induction ps as [|[t|n'] ps IHps]; [reflexivity|..].
    + cbn [forallb map substitutePiece] in *. apply andb_true_iff in Hps as [_ Hps].
      f_equal. apply IHps, Hps.
    + cbn [forallb map substitutePiece lookupName] in *.
      apply andb_true_iff in Hps as [_ Hps]. f_equal. apply IHps, Hps.
  - cbn [forallb] in Hl. apply andb_true_iff in Hl as [He Hl].
    unfold wfEntry in He. cbn [fst snd] in He.
    apply andb_true_iff in He as [He Hd]. apply andb_true_iff in He as [Hn Ho].
    cbn [tokenEntries map fst snd applyTemplateReplacements].
    rewrite replaceEntry_literal; [|apply plainKey_tokenKey; assumption|assumption].
    rewrite literalReplaceAll_render by assumption.
    fold (tokenEntries l). rewrite IH; [|assumption|apply wfPiece_replaceToken; assumption].
    unfold substitute. rewrite map_map. f_equal. f_equal.
    apply map_ext. intros p. apply substitutePiece_cons.
Qed.

Lemma wfPiece_substitute (l : list (jsstring * jsstring)) (ps : list piece) :
  forallb wfEntry l = true -> forallb wfPiece ps = true ->
  forallb wfPiece (map (substitutePiece l) ps) = true.
Proof.
  intros Hl. induction ps as [|p ps IH]; [reflexivity|].
  cbn [forallb map]. rewrite !andb_true_iff. intros [Hp Hps]. split; [|auto].
  destruct p as [t|n]; [exact Hp|]. cbn [substitutePiece].
  destruct (lookupName n l) as [v|] eqn:E; [|exact Hp]. cbn [wfPiece].
  clear -Hl E. induction l as [|[n' v'] l IH]; [discriminate|].
  cbn [forallb lookupName] in *. apply andb_true_iff in Hl as [He Hl].
  destruct (decide (n' = n)).
  - injection E as ->. unfold wfEntry in He. cbn [fst snd] in He.
    apply andb_true_iff in He as [He _]. apply andb_true_iff in He as [_ He]. exact He.
  - auto.
Qed.

Lemma substitutePiece_idem (l : list (jsstring * jsstring)) (p : piece) :
  substitutePiece l (substitutePiece l p) = substitutePiece l p.
Proof.
  destruct p as [t|n]; [reflexivity|]. cbn [substitutePiece].
  destruct (lookupName n l) eqn:E; [reflexivity|]. cbn [substitutePiece].
  rewrite E. reflexivity.
Qed.

End Pieces.

(* ===================================================================== *)
(** * Template replacement engine: the claims *)
(* ===================================================================== *)

Section TemplateClaims.

(** C1, as stated, fails.  (i) Keys are applied one after the other to the
    running text, so a value that brings in a later key is replaced again:
    [{B}] does not occur in the template ["{A}"], yet it takes effect.
    (ii) Only braces are escaped, so the dot of the key ["a.c"] matches any
    character: the key does not occur in ["abc"], yet the template is
    changed.  (iii) The value ["[$&]"] is not inserted verbatim. *)
Lemma applyTemplateReplacements_counterexample :
  (includes (str "{B}") (str "{A}") = false /\
   applyTemplateReplacements (str "{A}")
     [(str "{A}", str "{B}"); (str "{B}", str "x")] = Some (str "x")) /\
  (includes (str "a.c") (str "abc") = false /\
   applyTemplateReplacements (str "abc") [(str "a.c", str "X")] = Some (str "X")) /\
  applyTemplateReplacements (str "<{A}>") [(str "{A}", str "[$&]")]
    = Some (str "<[{A}]>").
Proof. repeat split; vm_compute; reflexivity. Qed.

(** C1 (amended).  For every template and every token map whose keys are
    non-empty and made of braces and of characters without pattern meaning,
    and whose values contain no dollar sign: the engine returns the template
    in which, key after key in the order of the map, every occurrence of the
    key as literal text in the running text has been replaced by its value
    verbatim; a key that does not occur in the running text has no effect;
    a template in which no key occurs is returned unchanged; and when the
    template is made of tokens [{NAME}] and of text without opening brace,
    and no value contains an opening brace, every token having an entry is
    replaced by its value and every other piece is kept. *)
Theorem applyTemplateReplacements_literal_tokens
    (t : jsstring) (m : list (jsstring * jsstring)) :
  plainTokens m = true ->
  applyTemplateReplacements t m =
    Some (fold_left (fun s e => literalReplaceAll (fst e) (snd e) s) m t)
  /\ (forall k v s, In (k, v) m -> includes k s = false -> literalReplaceAll k v s = s)
  /\ ((forall k, In k (map fst m) -> includes k t = false) ->
      applyTemplateReplacements t m = Some t)
  /\ (forall l ps, m = tokenEntries l -> t = render ps ->
      forallb wfEntry l = true -> forallb wfPiece ps = true ->
      applyTemplateReplacements t m = Some (substitute l ps)).
Proof.
  intros Hm. split; [apply applyTemplateReplacements_literal, Hm|].
  assert (Hkeys : forallb plainKey (map fst m) = true).
  { clear t. induction m as [|e m IH]; [reflexivity|]. cbn [plainTokens forallb map] in *.
    apply andb_true_iff in Hm as [He Hm]. apply andb_true_iff in He as [He _].
    rewrite He. cbn [andb]. apply IH, Hm. }
  split; [|split].
  - intros k v s Hin Habs. apply literalReplaceAll_absent; [|exact Habs].
    apply plainKey_nonempty. rewrite forallb_forall in Hkeys. apply Hkeys.
    change k with (fst (k, v)). apply in_map, Hin.
  - apply applyTemplateReplacements_absent, Hkeys.
  - intros l ps -> -> Hl Hps. apply applyTemplateReplacements_pieces; assumption.
Qed.

Lemma applyTemplateReplacements_literal_tokens_witness :
  plainTokens [(str "{FRAMEWORK}", str "Next.js"); (str "{LANGUAGE}", str "TypeScript")] = true /\
  applyTemplateReplacements (str "a {FRAMEWORK} app in {LANGUAGE}, {FRAMEWORK}!")
    [(str "{FRAMEWORK}", str "Next.js"); (str "{LANGUAGE}", str "TypeScript")]
  = Some (str "a Next.js app in TypeScript, Next.js!").
Proof.
  split; [reflexivity|].
  refine (eq_trans (proj1 (applyTemplateReplacements_literal_tokens _ _ _)) _);
    reflexivity.
Defined.

(** C8, as stated, fails: no value of the map below contains a key of the
    map, yet the first pass joins the value ["{"] with the text ["B}"] into
    the key [{B}], which only the second pass replaces.  And the template
    ["abc"], in which the key ["a.c"] does not occur, is not returned
    unchanged. *)
Lemma applyTemplateReplacements_twice_counterexample :
  let m := [(str "{B}", str "x"); (str "{A}", str "{")] in
  ((forall k v, In k (map fst m) -> In v (map snd m) -> includes k v = false) /\
   applyTemplateReplacements (str "{A}B}") m = Some (str "{B}") /\
   applyTemplateReplacements (str "{B}") m = Some (str "x")) /\
  (includes (str "a.c") (str "abc") = false /\
   applyTemplateReplacements (str "abc") [(str "a.c", str "X")] = Some (str "X")).
Proof.
  cbv zeta. split; [split; [|split; vm_compute; reflexivity]|split; vm_compute; reflexivity].
  intros k v [<-|[<-|[]]] [<-|[<-|[]]]; vm_compute; reflexivity.
Qed.

(** C8 (amended).  For keys that are non-empty and made of braces and of
    characters without pattern meaning: a template in which no key occurs is
    returned unchanged; applying the map a second time to the result of a
    first application gives that result again provided no key occurs in it
    (that no value contains a key is not enough), which is the case for a
    template of tokens and brace-opening-free text with values free of
    opening braces and dollars; and with a value that contains a key, two
    applications can differ from one. *)
Theorem applyTemplateReplacements_twice
    (t : jsstring) (m : list (jsstring * jsstring)) :
  forallb plainKey (map fst m) = true ->
  ((forall k, In k (map fst m) -> includes k t = false) ->
   applyTemplateReplacements t m = Some t)
  /\ (forall r, applyTemplateReplacements t m = Some r ->
      (forall k, In k (map fst m) -> includes k r = false) ->
      applyTemplateReplacements r m = Some r)
  /\ (forall l ps, m = tokenEntries l -> t = render ps ->
      forallb wfEntry l = true -> forallb wfPiece ps = true ->
      exists r, applyTemplateReplacements t m = Some r /\
                applyTemplateReplacements r m = Some r)
  /\ (exists t' m' r r2,
      forallb plainKey (map fst m') = true /\
      (exists k v, In k (map fst m') /\ In v (map snd m') /\ includes k v = true) /\
      applyTemplateReplacements t' m' = Some r /\
      applyTemplateReplacements r m' = Some r2 /\ r <> r2).
Proof.
  intros Hkeys. split; [|split; [|split]].
  - apply applyTemplateReplacements_absent, Hkeys.
  - intros r _ Habs. apply applyTemplateReplacements_absent; assumption.
  - intros l ps -> -> Hl Hps. exists (substitute l ps). split.
    + apply applyTemplateReplacements_pieces; assumption.
    + unfold substitute at 1.
      rewrite applyTemplateReplacements_pieces;
        [|assumption|apply wfPiece_substitute; assumption].
      unfold substitute. rewrite map_map. f_equal. f_equal. apply map_ext.
      intros p. apply substitutePiece_idem.
  - exists (str "{A}"), [(str "{A}", str "x{A}")], (str "x{A}"), (str "xx{A}").
    split; [reflexivity|]. split.
    + exists (str "{A}"), (str "x{A}"). repeat split; (left; reflexivity) || reflexivity.
    + repeat split; [vm_compute; reflexivity..|discriminate].
Qed.

Lemma applyTemplateReplacements_twice_witness :
  forallb plainKey (map fst [(str "{A}", str "{B}"); (str "{B}", str "x")]) = true /\
  applyTemplateReplacements (str "x")
    [(str "{A}", str "{B}"); (str "{B}", str "x")] = Some (str "x").
Proof.
  split; [reflexivity|].
  refine (proj1 (proj2 (applyTemplateReplacements_twice (str "{A}") _ _)) _ _ _).
  - reflexivity.
  - vm_compute; reflexivity.
  - intros k [<-|[<-|[]]]; vm_compute; reflexivity.
Defined.

End TemplateClaims.

(* ===================================================================== *)
(** * Fact extractor: lemmas *)
(* ===================================================================== *)

Section IndexOf.

Lemma indexOf_ge (k s : jsstring) : (-1 <= indexOf k s)%Z.
Proof.
  induction s as [|c s IH]; cbn [indexOf].
  - destruct (stripPrefix k []); lia.
  - destruct (stripPrefix k (c :: s)); [lia|].
    cbv zeta. destruct (Z.eqb_spec (indexOf k s) (-1)); lia.
Qed.

Lemma indexOf_absent (k s : jsstring) : indexOf k s = (-1)%Z <-> includes k s = false.
Proof.
  induction s as [|c s IH]; cbn [indexOf includes].
  - destruct (stripPrefix k []); split; (discriminate || reflexivity).
  - destruct (stripPrefix k (c :: s)); [split; discriminate|].
    cbv zeta. rewrite <- IH. pose proof (indexOf_ge k s).
    destruct (Z.eqb_spec (indexOf k s) (-1)); split; intros; (lia || reflexivity).
Qed.

(** [indexOf] is the position of the first occurrence. *)
Lemma indexOf_first (k s : jsstring) (i : nat) :
  indexOf k s = Z.of_nat i <->
  (exists post, drop i s = k ++ post) /\
  (forall j post, j < i -> drop j s <> k ++ post).
Proof.
  revert i. induction s as [|c s IH]; intros i; cbn [indexOf].
  - destruct (stripPrefix k []) as [r|] eqn:E.
    + apply stripPrefix_Some in E. split.
      * intros H. assert (i = 0) by lia. subst i. split; [exists r; exact E|].
        intros j post Hj. lia.
      * intros [[post Hp] Hmin]. destruct i; [reflexivity|].
        exfalso. apply (Hmin 0 r); [lia | exact E].
    + split; [lia|]. intros [[post Hp] _]. rewrite drop_nil in Hp.
      apply stripPrefix_Some in Hp. congruence.
  - destruct (stripPrefix k (c :: s)) as [r|] eqn:E.
    + apply stripPrefix_Some in E. split.
      * intros H. assert (i = 0) by lia. subst i. split; [exists r; exact E|].
        intros j post Hj. lia.
      * intros [[post Hp] Hmin]. destruct i; [reflexivity|].
        exfalso. apply (Hmin 0 r); [lia | exact E].
    + cbv zeta. pose proof (indexOf_ge k s) as Hge.
      destruct (Z.eqb_spec (indexOf k s) (-1)) as [Habs|Hpres].
      * split; [lia|]. intros [[post Hp] Hmin]. exfalso.
        destruct i as [|i].
        -- cbn [drop] in Hp. apply stripPrefix_Some in Hp. congruence.
        -- cbn [drop] in Hp. apply indexOf_absent, includes_false in Habs.
           apply Habs. exists (take i s), post.
           rewrite <- Hp. symmetry. apply take_drop.
      * destruct i as [|i].
        -- split; [lia|]. intros [[post Hp] _]. cbn [drop] in Hp.
           apply stripPrefix_Some in Hp. congruence.
        -- specialize (IH i). split.
           ++ intros H. assert (Hi : indexOf k s = Z.of_nat i) by lia.
              apply IH in Hi as [Hocc Hmin]. split; [exact Hocc|].
              intros [|j] post Hj.
              ** cbn [drop]. intros Hp. apply stripPrefix_Some in Hp. congruence.
              ** cbn [drop]. apply Hmin. lia.
           ++ intros [Hocc Hmin]. cbn [drop] in Hocc.
              assert (Hi : indexOf k s = Z.of_nat i).
              { apply IH. split; [exact Hocc|]. intros j post Hj.
                apply (Hmin (S j) post). lia. }
              lia.
Qed.

End IndexOf.

Section Capture.

Lemma leaveRepeat_capturing atLeastOne captured k taken s m :
  captured = true \/ capturing k ->
  leaveRepeat atLeastOne captured k taken s = Some m -> is_Some (group1 m).
Proof.
  intros Hc. unfold leaveRepeat.
  destruct (atLeastOne && negb (truthy taken)); [discriminate|].
  destruct (k s) as [m'|] eqn:E; [|discriminate]. intros [= <-]. cbn [group1].
  destruct Hc as [-> | Hk]; [eauto|].
  destruct captured; [eauto | exact (Hk s m' E)].
Qed.

Lemma greedyRepeat_capturing cls atLeastOne captured k :
  captured = true \/ capturing k ->
  forall s taken m,
    greedyRepeat cls atLeastOne captured k taken s = Some m -> is_Some (group1 m).
Proof.
  intros Hc s. induction s as [|c s IH]; intros taken m; cbn [greedyRepeat].
  - apply leaveRepeat_capturing, Hc.
  - destruct (inClass cls c); [|apply leaveRepeat_capturing, Hc].
    destruct (greedyRepeat cls atLeastOne captured k (taken ++ [c]) s) as [m'|] eqn:E.
    + intros [= <-]. exact (IH _ _ E).
    + apply leaveRepeat_capturing, Hc.
Qed.

Lemma lazyRepeat_capturing cls atLeastOne captured k :
  captured = true \/ capturing k ->
  forall s taken m,
    lazyRepeat cls atLeastOne captured k taken s = Some m -> is_Some (group1 m).
Proof.
  intros Hc s. induction s as [|c s IH]; intros taken m; cbn [lazyRepeat].
  - destruct (leaveRepeat atLeastOne captured k taken []) as [m'|] eqn:E; [|discriminate].
    intros [= <-]. exact (leaveRepeat_capturing _ _ _ _ _ _ Hc E).
  - destruct (leaveRepeat atLeastOne captured k taken (c :: s)) as [m'|] eqn:E.
    + intros [= <-]. exact (leaveRepeat_capturing _ _ _ _ _ _ Hc E).
    + destruct (inClass cls c); [apply IH | discriminate].
Qed.

(** A pattern that ends with the group records it in every match. *)
Lemma matchNodes_capturing (ns : list node) : capturing (matchNodes (ns ++ [captureLine])).
Proof.
  induction ns as [|n ns IH]; intros s m.
  - cbn [app matchNodes captureLine]. apply greedyRepeat_capturing. left. reflexivity.
  - cbn [app matchNodes]. destruct n as [c|cls atLeastOne greedy captured].
    + destruct s as [|d s]; [discriminate|].
      destruct (eqbCI c d); [|discriminate]. unfold consumed.
      destruct (matchNodes (ns ++ [captureLine]) s) as [m'|] eqn:E; [|discriminate].
      intros [= <-]. cbn [group1]. exact (IH s m' E).
    + destruct greedy.
      * apply greedyRepeat_capturing. right. exact IH.
      * apply lazyRepeat_capturing. right. exact IH.
Qed.

Lemma execFrom_capturing (ns : list node) (s before b : jsstring) (m : matchResult) :
  execFrom (ns ++ [captureLine]) before s = Some (b, m) -> is_Some (group1 m).
Proof.
  revert before. induction s as [|c s IH]; intros before; cbn [execFrom].
  - destruct (matchNodes (ns ++ [captureLine]) []) as [m'|] eqn:E; [|discriminate].
    intros [= _ <-]. exact (matchNodes_capturing ns _ _ E).
  - destruct (matchNodes (ns ++ [captureLine]) (c :: s)) as [m'|] eqn:E.
    + intros [= _ <-]. exact (matchNodes_capturing ns _ _ E).
    + apply IH.
Qed.

Lemma answerTo_ends (question : list node) :
  exists ns, answerTo question = ns ++ [captureLine].
Proof.
  exists (question ++ [restOfLine; NChar "010"] ++ lit "- ").
  unfold answerTo. rewrite <- !app_assoc. reflexivity.
Qed.

Lemma answerUnder_ends (heading question : list node) :
  exists ns, answerUnder heading question = ns ++ [captureLine].
Proof.
  destruct (answerTo_ends question) as [ns Hns].
  exists (heading ++ [lazyAny] ++ ns).
  unfold answerUnder. rewrite Hns, <- !app_assoc. reflexivity.
Qed.

(** For the patterns of the extractor, [m[1]] is there whenever [m] is: the
    test [if (m)] of the source is the test on [answer]. *)
Lemma answer_None (re : list node) (doc : jsstring) :
  (exists ns, re = ns ++ [captureLine]) ->
  (answer re doc = None <-> exec re doc = None).
Proof.
  intros [ns ->]. unfold answer, exec.
  destruct (execFrom (ns ++ [captureLine]) [] doc) as [[b m]|] eqn:E; [|tauto].
  destruct (execFrom_capturing ns doc [] b m E) as [g Hg]. rewrite Hg.
  split; discriminate.
Qed.

End Capture.

Section ExtractorFacts.

Ltac block f :=
  intros info; unfold f, answer; repeat case_match; try reflexivity; try assumption.

Lemma extractFramework_cm doc : keepsCustomerModel (extractFramework doc).
Proof. block extractFramework. Qed.
Lemma extractLanguage_cm doc : keepsCustomerModel (extractLanguage doc).
Proof. block extractLanguage. Qed.
Lemma extractAuth_cm doc : keepsCustomerModel (extractAuth doc).
Proof. block extractAuth. Qed.
Lemma extractCustomerId_cm doc : keepsCustomerModel (extractCustomerId doc).
Proof. block extractCustomerId. Qed.
Lemma extractStack_cm doc : keepsCustomerModel (extractStack doc).
Proof. block extractStack. Qed.
Lemma extractAdditional_cm doc : keepsCustomerModel (extractAdditional doc).
Proof. block extractAdditional. Qed.
Lemma extractPath_cm role q doc : keepsCustomerModel (extractPath role q doc).
Proof. block extractPath. Qed.
Lemma extractLib_cm doc : keepsCustomerModel (extractLib doc).
Proof. block extractLib. Qed.

Lemma extractCustomerModel_al doc : keepsAuthLibrary (extractCustomerModel doc).
Proof. block extractCustomerModel. Qed.
Lemma extractCustomerId_al doc : keepsAuthLibrary (extractCustomerId doc).
Proof. block extractCustomerId. Qed.
Lemma extractStack_al doc : keepsAuthLibrary (extractStack doc).
Proof. block extractStack. Qed.
Lemma extractAdditional_al doc : keepsAuthLibrary (extractAdditional doc).
Proof. block extractAdditional. Qed.
Lemma extractPath_al role q doc : keepsAuthLibrary (extractPath role q doc).
Proof. block extractPath. Qed.
Lemma extractLib_al doc : keepsAuthLibrary (extractLib doc).
Proof. block extractLib. Qed.

Ltac blockRoles f :=
  intros info H; unfold f, answer; repeat case_match; exact H.

Lemma setPath_roles role v : keepsRoles (setPath role v).
Proof.
  intros info H r Hr. cbn [setPath filePaths].
  destruct (decide (role = r)) as [->|Hne].
  - rewrite lookup_insert_eq. eauto.
  - rewrite lookup_insert_ne by assumption. apply H, Hr.
Qed.

Lemma extractFramework_roles doc : keepsRoles (extractFramework doc).
Proof. blockRoles extractFramework. Qed.
Lemma extractLanguage_roles doc : keepsRoles (extractLanguage doc).
Proof. blockRoles extractLanguage. Qed.
Lemma extractAuth_roles doc : keepsRoles (extractAuth doc).
Proof. blockRoles extractAuth. Qed.
Lemma extractCustomerModel_roles doc : keepsRoles (extractCustomerModel doc).
Proof. blockRoles extractCustomerModel. Qed.
Lemma extractCustomerId_roles doc : keepsRoles (extractCustomerId doc).
Proof. blockRoles extractCustomerId. Qed.
Lemma extractStack_roles doc : keepsRoles (extractStack doc).
Proof. blockRoles extractStack. Qed.
Lemma extractAdditional_roles doc : keepsRoles (extractAdditional doc).
Proof. blockRoles extractAdditional. Qed.
Lemma extractPath_roles role q doc : keepsRoles (extractPath role q doc).
Proof.
  intros info H. unfold extractPath. case_match; [|assumption].
  apply setPath_roles, H.
Qed.
Lemma extractLib_roles doc : keepsRoles (extractLib doc).
Proof.
  intros info H. unfold extractLib. case_match; [|assumption].
  cbv zeta. apply setPath_roles, setPath_roles, H.
Qed.

Lemma builtinPaths_roles role : In role pathRoles -> is_Some (builtinPaths !! role).
Proof.
  intros H. unfold pathRoles in H. cbn [In] in H.
  repeat (destruct H as [<-|H]; [vm_compute; eauto|]). destruct H.
Qed.

Lemma defaults_roles ov : allRoles (defaults ov).
Proof.
  intros role H. cbn [defaults filePaths].
  destruct (builtinPaths_roles role H) as [v Hv].
  destruct (ov !! role) as [w|] eqn:E.
  - exists w. apply lookup_union_Some_l, E.
  - exists v. rewrite lookup_union_r; assumption.
Qed.

Lemma extractCodebaseInfo_customerModel doc ov :
  truthy doc = true ->
  customerModel (extractCodebaseInfo (Some doc) ov) =
  customerModel (extractCustomerModel doc (defaults ov)).
Proof.
  intros Hd. unfold extractCodebaseInfo. rewrite Hd. cbn [negb]. cbv zeta.
  rewrite !extractPath_cm, extractLib_cm, extractPath_cm, extractAdditional_cm,
    extractStack_cm, extractCustomerId_cm.
  unfold extractCustomerModel. case_match; cbn [customerModel]; [reflexivity|].
  rewrite extractAuth_cm, extractLanguage_cm, extractFramework_cm. reflexivity.
Qed.

Lemma extractCodebaseInfo_authLibrary doc ov :
  truthy doc = true ->
  authLibrary (extractCodebaseInfo (Some doc) ov) =
  authLibrary (extractAuth doc (extractLanguage doc (extractFramework doc (defaults ov)))).
Proof.
  intros Hd. unfold extractCodebaseInfo. rewrite Hd. cbn [negb]. cbv zeta.
  rewrite !extractPath_al, extractLib_al, extractPath_al, extractAdditional_al,
    extractStack_al, extractCustomerId_al, extractCustomerModel_al. reflexivity.
Qed.

Lemma extractCodebaseInfo_roles doc ov : allRoles (extractCodebaseInfo doc ov).
Proof.
  unfold extractCodebaseInfo. destruct doc as [doc|]; [|apply defaults_roles].
  destruct (negb (truthy doc)); [apply defaults_roles|]. cbv zeta.
  repeat apply extractPath_roles. apply extractLib_roles, extractPath_roles,
    extractAdditional_roles, extractStack_roles, extractCustomerId_roles,
    extractCustomerModel_roles, extractAuth_roles, extractLanguage_roles,
    extractFramework_roles, defaults_roles.
Qed.

End ExtractorFacts.

(* ===================================================================== *)
(** * Fact extractor: the claims *)
(* ===================================================================== *)

Section ExtractorClaims.

(** C2, as stated, fails: three fields of the returned record are
    [undefined] by default, and stay so when the document has nothing for
    them. *)
Lemma extractCodebaseInfo_undefined_fields :
  projectStructure (extractCodebaseInfo None ∅) = None /\
  stackDetails (extractCodebaseInfo None ∅) = None /\
  additionalDetails (extractCodebaseInfo None ∅) = None /\
  projectStructure (extractCodebaseInfo (Some (str "no section here")) ∅) = None /\
  stackDetails (extractCodebaseInfo (Some (str "no section here")) ∅) = None /\
  additionalDetails (extractCodebaseInfo (Some (str "no section here")) ∅) = None.
Proof. repeat split; vm_compute; reflexivity. Qed.

(** C2 (amended).  For every override record, [extractCodebaseInfo] called
    with an absent document returns exactly the built-in default record with
    the [filePaths] overrides merged in (an override wins over the built-in
    path, every other role keeps it), so two calls on the same absent input
    agree; and for every input, the returned [filePaths] has an entry for
    every path role.  The fields [framework], [language], [authLibrary],
    [customerModel] and [customerIdSource] always hold a value (in the
    embedding, by their type); [projectStructure], [stackDetails] and
    [additionalDetails] are [undefined] by default. *)
Theorem extractCodebaseInfo_defaults_and_roles
    (doc : option jsstring) (ov : gmap string jsstring) :
  extractCodebaseInfo None ov =
    {| framework := str "Next.js"; language := str "TypeScript";
       authLibrary := str "unknown"; customerModel := B2C;
       customerIdSource := str "user.id"; projectStructure := None;
       stackDetails := None; additionalDetails := None;
       filePaths := ov ∪ builtinPaths |}
  /\ (forall role, filePaths (extractCodebaseInfo None ov) !! role =
        match ov !! role with Some v => Some v | None => builtinPaths !! role end)
  /\ (forall role, In role pathRoles ->
        is_Some (filePaths (extractCodebaseInfo doc ov) !! role)).
Proof.
  split; [reflexivity|]. split.
  - intros role. cbn [extractCodebaseInfo defaults filePaths].
    destruct (ov !! role) as [v|] eqn:E.
    + apply lookup_union_Some_l, E.
    + apply lookup_union_r, E.
  - apply extractCodebaseInfo_roles.
Qed.

Lemma extractCodebaseInfo_defaults_and_roles_witness :
  In "serverFile"%string pathRoles /\
  is_Some (filePaths (extractCodebaseInfo (Some (str "no section here"))
                        {["libPath"%string := str "lib"]}) !! "serverFile"%string).
Proof.
  assert (H : In "serverFile"%string pathRoles) by (vm_compute; tauto).
  split; [exact H|].
  exact (proj2 (proj2 (extractCodebaseInfo_defaults_and_roles _ _)) _ H).
Defined.

(** C3.  For every analysis document: when the business marker occurs and
    either the individual marker does not occur or the (first) business
    marker stands strictly before the (first) individual marker, the customer
    model is B2B; when the business marker does not occur (the document has
    only the individual marker, or neither), it is B2C. *)
Theorem customerModel_by_marker_position (doc : jsstring) (ov : gmap string jsstring) :
  let info := extractCodebaseInfo (Some doc) ov in
  (occursIn b2bMarker doc ->
   ~ occursIn b2cMarker doc \/ (indexOf b2bMarker doc < indexOf b2cMarker doc)%Z ->
   customerModel info = B2B)
  /\ (~ occursIn b2bMarker doc -> customerModel info = B2C).
Proof.
  cbv zeta. destruct (truthy doc) eqn:Hd.
  - rewrite extractCodebaseInfo_customerModel by assumption.
    unfold extractCustomerModel. cbv zeta. split.
    + intros Hb Hc. apply includes_occursIn in Hb.
      destruct (Z.eqb_spec (indexOf b2bMarker doc) (-1)) as [Habs|_].
      { apply indexOf_absent in Habs. congruence. }
      cbn [negb andb].
      destruct Hc as [Hc|Hlt].
      * apply includes_false, indexOf_absent in Hc. rewrite Hc. reflexivity.
      * apply Z.ltb_lt in Hlt. rewrite Hlt, orb_true_r. reflexivity.
    + intros Hb. apply includes_false, indexOf_absent in Hb. rewrite Hb.
      reflexivity.
  - destruct doc; [|discriminate]. split.
    + intros Hb. apply includes_occursIn in Hb. discriminate.
    + intros _. reflexivity.
Qed.

Lemma customerModel_by_marker_position_witness :
  let doc := str "- **B2B**: Businesses pay. - **B2C**: Individual users do not." in
  occursIn b2bMarker doc /\
  (indexOf b2bMarker doc < indexOf b2cMarker doc)%Z /\
  customerModel (extractCodebaseInfo (Some doc) ∅) = B2B.
Proof.
  cbv zeta.
  assert (Hb : occursIn b2bMarker
                 (str "- **B2B**: Businesses pay. - **B2C**: Individual users do not."))
    by (apply includes_occursIn; vm_compute; reflexivity).
  assert (Hlt : (indexOf b2bMarker
                   (str "- **B2B**: Businesses pay. - **B2C**: Individual users do not.")
                 < indexOf b2cMarker
                   (str "- **B2B**: Businesses pay. - **B2C**: Individual users do not."))%Z)
    by (vm_compute; reflexivity).
  split; [exact Hb|]. split; [exact Hlt|].
  exact (proj1 (customerModel_by_marker_position _ ∅) Hb (or_intror Hlt)).
Defined.

(** C9, as stated, fails: without a keyword the matched text itself becomes
    the value, so no single fallback serves two documents with different
    answers. *)
Lemma authLibrary_no_fixed_fallback :
  ~ exists fallback : jsstring,
      forall doc g, answer authRe doc = Some g -> noAuthKeyword g = true ->
        authLibrary (extractCodebaseInfo (Some doc) ∅) = fallback.
Proof.
  intros [fallback H].
  pose proof (H (authSection "Auth0") (str "Auth0") eq_refl eq_refl) as H1.
  pose proof (H (authSection "Firebase") (str "Firebase") eq_refl eq_refl) as H2.
  vm_compute in H1, H2. congruence.
Qed.

(** C9 (amended).  For every analysis document in which the auth-library
    pattern matches but the matched text contains none of the keywords,
    [authLibrary] is the matched text itself, trimmed. *)
Theorem authLibrary_without_keyword
    (doc g : jsstring) (ov : gmap string jsstring) :
  answer authRe doc = Some g -> noAuthKeyword g = true ->
  authLibrary (extractCodebaseInfo (Some doc) ov) = trim g.
Proof.
  intros Hm Hk. assert (Hd : truthy doc = true).
  { destruct doc; [discriminate Hm | reflexivity]. }
  rewrite extractCodebaseInfo_authLibrary by assumption.
  unfold extractAuth. rewrite Hm. cbv zeta.
  unfold noAuthKeyword in Hk. cbv zeta in Hk.
  apply andb_true_iff in Hk as [Hk H3]. apply andb_true_iff in Hk as [H1 H2].
  apply negb_true_iff in H1, H2, H3. rewrite H1, H2, H3. reflexivity.
Qed.

Lemma authLibrary_without_keyword_witness :
  answer authRe (authSection "  Auth0 (custom) ") = Some (str "  Auth0 (custom) ") /\
  noAuthKeyword (str "  Auth0 (custom) ") = true /\
  authLibrary (extractCodebaseInfo (Some (authSection "  Auth0 (custom) ")) ∅)
    = str "Auth0 (custom)".
Proof.
  split; [reflexivity|]. split; [reflexivity|].
  exact (authLibrary_without_keyword (authSection "  Auth0 (custom) ")
           (str "  Auth0 (custom) ") ∅ eq_refl eq_refl).
Defined.

End ExtractorClaims.

(* ===================================================================== *)
(** * Pricing model analyzer: the claim *)
(* ===================================================================== *)

Section PricingClaims.

Lemma trial_test (price : Price) :
  negb (isUndefined (trialPeriodDays price)) && negb (isNull (trialPeriodDays price)) = true
  <-> trialPeriodDays price <> Undefined /\ trialPeriodDays price <> Null.
Proof.
  destruct (trialPeriodDays price); cbn; split; try discriminate; try tauto.
  intros _. split; discriminate.
Qed.

(** C4.  For every pricing configuration: [hasTrials] holds exactly when some
    price of some product has a trial period that is neither [null] nor
    [undefined], so a trial of zero days counts; [hasUsageMeters] holds
    exactly when there is a usage meter, so it is false without meters and
    true once a meter is added, whatever the other fields; and
    [hasToggleFeatures] holds exactly when some feature has type toggle. *)
Theorem analyzePricingModel_flags (config : SetupPricingModelInput) :
  (hasTrials (analyzePricingModel config) = true <->
     exists product price, In product (products config) /\ In price (prices product) /\
       trialPeriodDays price <> Undefined /\ trialPeriodDays price <> Null)
  /\ (forall product price, In product (products config) -> In price (prices product) ->
        trialPeriodDays price = Value 0%Z -> hasTrials (analyzePricingModel config) = true)
  /\ (hasUsageMeters (analyzePricingModel config) = true <-> usageMeters config <> [])
  /\ (usageMeters config = [] -> hasUsageMeters (analyzePricingModel config) = false)
  /\ (forall meter before after ps fs,
        hasUsageMeters (analyzePricingModel
          {| products := ps; features := fs;
             usageMeters := before ++ meter :: after |}) = true)
  /\ (hasToggleFeatures (analyzePricingModel config) = true <->
        exists feature, In feature (features config) /\ featureType feature = Toggle).
Proof.
  assert (Htrials : hasTrials (analyzePricingModel config) = true <->
     exists product price, In product (products config) /\ In price (prices product) /\
       trialPeriodDays price <> Undefined /\ trialPeriodDays price <> Null).
  { cbn [analyzePricingModel hasTrials]. rewrite existsb_exists. split.
    - intros (product & Hp & Hex). apply existsb_exists in Hex as (price & Hpr & Ht).
      exists product, price. apply trial_test in Ht. tauto.
    - intros (product & price & Hp & Hpr & Ht). exists product. split; [exact Hp|].
      apply existsb_exists. exists price. split; [exact Hpr|]. apply trial_test, Ht. }
  split; [exact Htrials|]. split.
  { intros product price Hp Hpr Hz. apply Htrials. exists product, price.
    rewrite Hz. repeat split; assumption || discriminate. }
  split.
  { cbn [analyzePricingModel hasUsageMeters].
    destruct (usageMeters config); cbn; split; congruence. }
  split.
  { intros H. cbn [analyzePricingModel hasUsageMeters]. rewrite H. reflexivity. }
  split.
  { intros meter before after ps fs. cbn [analyzePricingModel hasUsageMeters usageMeters].
    rewrite length_app. cbn [length]. apply Nat.ltb_lt. lia. }
  cbn [analyzePricingModel hasToggleFeatures]. rewrite existsb_exists.
  split; intros (feature & Hin & Ht); exists feature; split; try assumption.
  - apply bool_decide_eq_true in Ht. exact Ht.
  - apply bool_decide_eq_true. exact Ht.
Qed.

Lemma analyzePricingModel_flags_witness :
  let price := {| trialPeriodDays := Value 0%Z |} in
  let product :=
    {| product := {| productName := str "Pro"; productSlug := str "pro" |};
       prices := [price] |} in
  let config := {| products := [product]; features := []; usageMeters := [] |} in
  In product (products config) /\ In price (prices product) /\
  hasTrials (analyzePricingModel config) = true.
Proof.
  intros price product config.
  assert (Hp : In product (products config)) by (left; reflexivity).
  assert (Hpr : In price (prices product)) by (left; reflexivity).
  split; [exact Hp|]. split; [exact Hpr|].
  exact (proj1 (proj2 (analyzePricingModel_flags config)) product price Hp Hpr eq_refl).
Defined.

End PricingClaims.

(* ===================================================================== *)
(** * Snippet resolver: lemmas *)
(* ===================================================================== *)

Section Residuals.

(** An occurrence of [M] cannot touch an inserted text that shares no
    character with it. *)
Lemma occursIn_around (M x v y : jsstring) :
  v <> [] -> (forall c, In c v -> ~ In c M) ->
  occursIn M (x ++ v ++ y) -> occursIn M x \/ occursIn M y.
Proof.
  intros Hv Hdis (pre & post & H).
  apply app_eq_inv in H as [(k & Hx & Hk)|(k & Hpre & Hk)].
  - apply app_eq_inv in Hk as [(k' & HM & Hk')|(k' & Hk' & Hpost)].
    + destruct k' as [|c k'].
      * left. exists pre, []. rewrite app_nil_r in HM. subst. rewrite app_nil_r. reflexivity.
      * destruct v as [|c' v]; [congruence|]. injection Hk' as -> _.
        exfalso. apply (Hdis c); [left; reflexivity|].
        subst M. apply in_or_app. right. left. reflexivity.
    + left. exists pre, k'. subst. reflexivity.
  - apply app_eq_inv in Hk as [(k' & Hv' & Hk')|(k' & Hk' & Hy)].
    + destruct k' as [|c k'].
      * right. exists [], post. cbn in Hk'. subst y. reflexivity.
      * destruct M as [|c' M]; [right; exists [], y; reflexivity|].
        injection Hk' as -> _. exfalso. apply (Hdis c).
        -- subst v. apply in_or_app. right. left. reflexivity.
        -- left. reflexivity.
    + right. exists k', post. exact Hy.
Qed.

Lemma literalReplaceAll_unfold (k v s : jsstring) :
  k <> [] ->
  literalReplaceAll k v s =
  match stripPrefix k s with
  | Some r => v ++ literalReplaceAll k v r
  | None => match s with [] => [] | c :: s' => c :: literalReplaceAll k v s' end
  end.
Proof.
  intros Hk. destruct (stripPrefix k s) as [r|] eqn:E.
  - apply stripPrefix_Some in E. subst s. apply literalReplaceAll_match, Hk.
  - destruct s as [|c s].
    + apply literalReplaceAll_nil, Hk.
    + apply literalReplaceAll_skip, E.
Qed.

(** After the replacement the key itself is gone. *)
Lemma literalReplaceAll_removes (k v : jsstring) :
  k <> [] -> v <> [] -> (forall c, In c v -> ~ In c k) ->
  forall s g,
    (forall pre post, g ++ s = pre ++ k ++ post -> length g <= length pre) ->
    ~ occursIn k (g ++ literalReplaceAll k v s).
Proof.
  intros Hk Hv Hdis s.
  remember (length s) as n eqn:Hn. revert s Hn.
  induction n as [n IH] using lt_wf_ind. intros s Hn g Hinv Hocc. subst n.
  rewrite literalReplaceAll_unfold in Hocc by assumption.
  destruct (stripPrefix k s) as [r|] eqn:E.
  - apply stripPrefix_Some in E. subst s.
    apply occursIn_around in Hocc as [(pre & post & Hg)|Hocc]; [| |assumption..].
    + specialize (Hinv pre (post ++ k ++ r)).
      rewrite Hg in Hinv. rewrite <- !app_assoc in Hinv.
      specialize (Hinv eq_refl). rewrite !length_app in Hinv.
      destruct k; [congruence|]. cbn [length] in Hinv. lia.
    + refine (IH (length r) _ r eq_refl [] _ Hocc).
      * rewrite length_app. destruct k; [congruence|]. cbn [length]. lia.
      * intros pre post _. cbn. lia.
  - destruct s as [|c s].
    + destruct Hocc as (pre & post & Hg). specialize (Hinv pre post Hg).
      apply (f_equal length) in Hg. rewrite !length_app in Hg.
      destruct k; [congruence|]. cbn [length] in Hg. lia.
    + refine (IH (length s) _ s eq_refl (g ++ [c]) _ _).
      * cbn [length]. lia.
      * intros pre post Heq. rewrite <- app_assoc in Heq. cbn [app] in Heq.
        pose proof (Hinv pre post Heq) as Hle. rewrite length_app. cbn [length].
        destruct (decide (length g = length pre)) as [Heql|]; [|lia].
        exfalso. apply app_inj_1 in Heq as [_ Heq]; [|exact Heql].
        apply stripPrefix_Some in Heq. congruence.
      * rewrite <- app_assoc. exact Hocc.
Qed.

(** The replacement brings in no occurrence of a text that was absent. *)
Lemma literalReplaceAll_keeps_absent (M k v : jsstring) :
  k <> [] -> v <> [] -> (forall c, In c v -> ~ In c M) ->
  forall s g, occursIn M (g ++ literalReplaceAll k v s) -> occursIn M (g ++ s).
Proof.
  intros Hk Hv Hdis s.
  remember (length s) as n eqn:Hn. revert s Hn.
  induction n as [n IH] using lt_wf_ind. intros s Hn g Hocc. subst n.
  rewrite literalReplaceAll_unfold in Hocc by assumption.
  destruct (stripPrefix k s) as [r|] eqn:E.
  - apply stripPrefix_Some in E. subst s.
    apply occursIn_around in Hocc as [(pre & post & Hg)|Hocc]; [| |assumption..].
    + exists pre, (post ++ k ++ r). subst g. rewrite <- !app_assoc. reflexivity.
    + assert (Hr : occursIn M ([] ++ r)).
      { refine (IH (length r) _ r eq_refl [] Hocc).
        rewrite length_app. destruct k; [congruence|]. cbn [length]. lia. }
      destruct Hr as (pre & post & Hr). cbn [app] in Hr.
      exists (g ++ k ++ pre), post. subst r. rewrite <- !app_assoc. reflexivity.
  - destruct s as [|c s]; [exact Hocc|].
    assert (Hr : occursIn M ((g ++ [c]) ++ s)).
    { refine (IH (length s) _ s eq_refl (g ++ [c]) _).
      - cbn [length]. lia.
      - rewrite <- app_assoc. exact Hocc. }
    rewrite <- app_assoc in Hr. exact Hr.
Qed.

Lemma replaceGlobal_marker (M v s : jsstring) :
  M <> [] -> dollarFree v = true ->
  replaceGlobal (markerRe M) v s = literalReplaceAll M v s.
Proof. intros HM Hv. apply replaceLoop_literal; assumption. Qed.

Lemma packageName_facts (v : jsstring) :
  packageName v = true ->
  v <> [] /\ dollarFree v = true /\ (forall c, In c v -> ~ In c markerAlphabet).
Proof.
  unfold packageName. rewrite !andb_true_iff. intros [[Ht Hd] Hc].
  split; [destruct v; [discriminate|congruence]|]. split; [exact Hd|].
  intros c Hin Hm. rewrite forallb_forall in Hc. specialize (Hc c Hin).
  apply negb_true_iff in Hc. apply not_true_iff_false in Hc. apply Hc.
  apply existsb_exists. exists c. split; [exact Hm|apply Ascii.eqb_refl].
Qed.

Lemma marker_alphabet (M : jsstring) (c : ascii) :
  isMarker M -> In c M -> In c markerAlphabet.
Proof.
  unfold markerAlphabet. intros [-> | [-> | ->]] H; rewrite !in_app_iff; tauto.
Qed.

Lemma marker_nonempty (M : jsstring) : isMarker M -> M <> [].
Proof. intros [-> | [-> | ->]]; discriminate. Qed.

(** One replacement step keeps the text free of the markers it was free of,
    and frees it of its own marker. *)
Lemma marker_step (K M v s : jsstring) :
  isMarker K -> isMarker M -> packageName v = true ->
  (M = K \/ includes M s = false) ->
  includes M (replaceGlobal (markerRe K) v s) = false.
Proof.
  intros HK HM Hv Hcase.
  destruct (packageName_facts v Hv) as (Hne & Hd & Hdis).
  rewrite replaceGlobal_marker by (try apply marker_nonempty; assumption).
  apply includes_false. intros Hocc.
  destruct Hcase as [->|Habs].
  - revert Hocc. change (literalReplaceAll K v s) with ([] ++ literalReplaceAll K v s).
    apply literalReplaceAll_removes; [apply marker_nonempty, HK|exact Hne| |].
    + intros c Hc Hk. apply (Hdis c Hc). eapply marker_alphabet; eassumption.
    + intros pre post _. cbn. lia.
  - apply includes_false in Habs. apply Habs.
    change s with ([] ++ s).
    apply (literalReplaceAll_keeps_absent M K v); [apply marker_nonempty, HK|exact Hne| |exact Hocc].
    intros c Hc Hk. apply (Hdis c Hc). eapply marker_alphabet; eassumption.
Qed.

(** A value resolved against a well-formed framework entry holds none of the
    three markers. *)
Lemma resolveValue_no_residual (framework : FrameworkEntry) (value M : jsstring) :
  wellFormedFramework framework = true -> isMarker M ->
  includes M (resolveValue framework value) = false.
Proof.
  unfold wellFormedFramework. rewrite !andb_true_iff. intros [[Hs Hp] Hb] HM.
  unfold resolveValue.
  assert (Ks : isMarker serverMarker) by (left; reflexivity).
  assert (Kp : isMarker providerMarker) by (right; left; reflexivity).
  assert (Kb : isMarker billingHookMarker) by (right; right; reflexivity).
  destruct HM as [-> | [-> | ->]].
  - apply marker_step; try assumption. right.
    apply marker_step; try assumption. right.
    apply marker_step; try assumption. left. reflexivity.
  - apply marker_step; try assumption. right.
    apply marker_step; try assumption. left. reflexivity.
  - apply marker_step; try assumption. left. reflexivity.
Qed.

End Residuals.

Section ResolveFacts.

(** A loop that writes one property per entry. *)
Lemma fold_insert_other {K V E : Type} `{Countable K}
    (f : gmap K V -> E -> gmap K V) (kf : E -> K) (vf : E -> V) :
  (forall a x, f a x = <[kf x := vf x]> a) ->
  forall (l : list E) (acc : gmap K V) (k : K),
    ~ In k (map kf l) -> fold_left f l acc !! k = acc !! k.
Proof.
  intros Hf l. induction l as [|x l IH]; intros acc k Hk; [reflexivity|].
  cbn [fold_left]. cbn [map In] in Hk. rewrite IH by tauto.
  rewrite Hf, lookup_insert_ne; [reflexivity|]. intros Heq. apply Hk. left. exact Heq.
Qed.

Lemma fold_insert_lookup {K V E : Type} `{Countable K}
    (f : gmap K V -> E -> gmap K V) (kf : E -> K) (vf : E -> V) :
  (forall a x, f a x = <[kf x := vf x]> a) ->
  forall (l : list E) (acc : gmap K V) (e : E),
    List.NoDup (map kf l) -> In e l -> fold_left f l acc !! kf e = Some (vf e).
Proof.
  intros Hf l. induction l as [|x l IH]; intros acc e Hnd Hin; [destruct Hin|].
  cbn [map] in Hnd. inversion Hnd as [|? ? Hx Hnd']; subst.
  cbn [fold_left]. destruct Hin as [->|Hin].
  - rewrite (fold_insert_other f kf vf Hf) by exact Hx.
    rewrite Hf. apply lookup_insert_eq.
  - apply IH; assumption.
Qed.

(** A loop that writes one property per entry, except under one name. *)
Lemma fold_assign_filter {K V E : Type} `{Countable K}
    (f : gmap K V -> E -> gmap K V) (kf : E -> K) (vf : E -> V) (pk : K) :
  (forall a x, f a x = if bool_decide (kf x = pk) then a else <[kf x := vf x]> a) ->
  forall (l : list E) (acc : gmap K V),
    fold_left f l acc =
    fold_left (fun a x => <[kf x := vf x]> a)
      (List.filter (fun x => negb (bool_decide (kf x = pk))) l) acc.
Proof.
  intros Hf l. induction l as [|x l IH]; intros acc; [reflexivity|].
  cbn [fold_left List.filter]. rewrite IH, Hf.
  destruct (bool_decide (kf x = pk)); reflexivity.
Qed.

Lemma NoDup_map_filter {A B : Type} (g : A -> B) (p : A -> bool) (l : list A) :
  List.NoDup (map g l) -> List.NoDup (map g (List.filter p l)).
Proof.
  induction l as [|x l IH]; intros Hnd; [constructor|].
  cbn [map] in Hnd. inversion Hnd as [|? ? Hx Hnd']; subst.
  cbn [List.filter]. destruct (p x); [|apply IH, Hnd'].
  cbn [map]. constructor; [|apply IH, Hnd'].
  intros Hin. apply Hx. apply in_map_iff in Hin as (y & Hy & Hin).
  apply filter_In in Hin as [Hin _]. rewrite <- Hy. apply in_map, Hin.
Qed.

Lemma fold_assign_lookup {K V E : Type} `{Countable K}
    (f : gmap K V -> E -> gmap K V) (kf : E -> K) (vf : E -> V) (pk : K) :
  (forall a x, f a x = if bool_decide (kf x = pk) then a else <[kf x := vf x]> a) ->
  forall (l : list E) (acc : gmap K V) (e : E),
    List.NoDup (map kf l) -> In e l -> kf e <> pk ->
    fold_left f l acc !! kf e = Some (vf e).
Proof.
  intros Hf l acc e Hnd Hin Hne.
  rewrite (fold_assign_filter f kf vf pk Hf).
  apply (fold_insert_lookup (fun a x => <[kf x := vf x]> a) kf vf).
  - reflexivity.
  - apply NoDup_map_filter, Hnd.
  - apply filter_In. split; [exact Hin|].
    apply negb_true_iff, bool_decide_eq_false, Hne.
Qed.

Lemma fold_assign_skipped {K V E : Type} `{Countable K}
    (f : gmap K V -> E -> gmap K V) (kf : E -> K) (vf : E -> V) (pk : K) :
  (forall a x, f a x = if bool_decide (kf x = pk) then a else <[kf x := vf x]> a) ->
  forall (l : list E) (acc : gmap K V), fold_left f l acc !! pk = acc !! pk.
Proof.
  intros Hf l acc. rewrite (fold_assign_filter f kf vf pk Hf).
  apply (fold_insert_other (fun a x => <[kf x := vf x]> a) kf vf); [reflexivity|].
  intros Hin. apply in_map_iff in Hin as (x & Hx & Hin).
  apply filter_In in Hin as [_ Hp].
  apply negb_true_iff, bool_decide_eq_false in Hp. contradiction.
Qed.

Lemma NoDup_fst_unique {A B : Type} (l : list (A * B)) (a : A) (x y : B) :
  List.NoDup (map fst l) -> In (a, x) l -> In (a, y) l -> x = y.
Proof.
  induction l as [|[a' z] l IH]; intros Hnd Hx Hy; [destruct Hx|].
  cbn [map fst] in Hnd. inversion Hnd as [|? ? Hnot Hnd']; subst.
  destruct Hx as [Hx|Hx], Hy as [Hy|Hy].
  - congruence.
  - exfalso. apply Hnot. injection Hx as -> _.
    change a with (fst (a, y)). apply in_map, Hy.
  - exfalso. apply Hnot. injection Hy as -> _.
    change a with (fst (a, x)). apply in_map, Hx.
  - apply IH; assumption.
Qed.

Lemma resolveEntry_assign (framework : FrameworkEntry)
    (acc : gmap jsstring jsstring) (entry : jsstring * jsstring) :
  resolveEntry framework acc entry =
  if bool_decide (resolvedName (fst entry) = protoKey) then acc
  else <[resolvedName (fst entry) := resolvedText framework entry]> acc.
Proof.
  destruct entry as [key value].
  unfold resolveEntry, resolvedName, resolvedText, assignText.
  cbn [fst snd]. destruct (endsWith (str "Template") key); reflexivity.
Qed.

(** The own properties of [resolved] after the outer loop. *)
Lemma resolveAuth_own (framework : FrameworkEntry)
    (b : list (jsstring * list (jsstring * jsstring))) (resolved : ResolvedSnippets) :
  ownProviders (fold_left (resolveAuth framework) b resolved) =
  fold_left
    (fun a e => if bool_decide (fst e = protoKey) then a
                else <[fst e := fold_left (resolveEntry framework) (snd e) ∅]> a)
    b (ownProviders resolved).
Proof.
  revert resolved. induction b as [|[authKey authSnippets] b IH]; intros resolved;
    [reflexivity|].
  cbn [fold_left]. rewrite IH. f_equal. unfold resolveAuth. cbn [fst snd].
  destruct (bool_decide (authKey = protoKey)); reflexivity.
Qed.

(** The prototype of [resolved] after the outer loop: the object filled for
    the entry named [__proto__], if there is one. *)
Lemma resolveAuth_prototype (framework : FrameworkEntry)
    (b : list (jsstring * list (jsstring * jsstring))) :
  forall (resolved : ResolvedSnippets) (m : gmap jsstring jsstring),
    prototype (fold_left (resolveAuth framework) b resolved) = Some m ->
    (exists authSnippets,
       In (protoKey, authSnippets) b /\
       m = fold_left (resolveEntry framework) authSnippets ∅) \/
    prototype resolved = Some m.
Proof.
  induction b as [|[authKey authSnippets] b IH]; intros resolved m; cbn [fold_left].
  - auto.
  - intros Hm. destruct (IH _ _ Hm) as [(snips & Hin & ->)|Hp].
    + left. exists snips. split; [right; exact Hin | reflexivity].
    + unfold resolveAuth in Hp.
      destruct (bool_decide_reflect (authKey = protoKey)) as [->|Hne]; cbn [prototype] in Hp.
      * injection Hp as <-. left. exists authSnippets. split; [left|]; reflexivity.
      * right. exact Hp.
Qed.

Lemma resolveAuth_prototype_set (framework : FrameworkEntry)
    (b : list (jsstring * list (jsstring * jsstring))) :
  forall (resolved : ResolvedSnippets),
    is_Some (prototype (fold_left (resolveAuth framework) b resolved)) <->
    In protoKey (map fst b) \/ is_Some (prototype resolved).
Proof.
  induction b as [|[authKey authSnippets] b IH]; intros resolved; cbn [fold_left map fst In].
  - tauto.
  - rewrite IH. unfold resolveAuth.
    destruct (bool_decide_reflect (authKey = protoKey)) as [->|Hne]; cbn [prototype].
    + split; [auto|]. intros _. right. eauto.
    + tauto.
Qed.

Lemma endsWith_app (k stem : jsstring) : endsWith k (stem ++ k) = true.
Proof. unfold endsWith. rewrite rev_app_distr, stripPrefix_app. reflexivity. Qed.

(** A text whose first character does not come back cannot overlap itself. *)
Lemma stripPrefix_self_overlap (a : ascii) (tail p r : jsstring) :
  ~ In a tail -> p <> [] -> p ++ a :: tail = (a :: tail) ++ r -> occursIn (a :: tail) p.
Proof.
  intros Ha Hp H. apply app_eq_inv in H as [(k & Hk & Hr)|(k & Hk & Hr)].
  - exists [], k. exact Hk.
  - destruct k as [|b k].
    + exists [], []. rewrite app_nil_r in Hk. cbn. rewrite app_nil_r. symmetry. exact Hk.
    + exfalso. destruct p as [|c p]; [congruence|].
      injection Hk as -> Htail. injection Hr as <- _.
      apply Ha. rewrite Htail. apply in_or_app. right. left. reflexivity.
Qed.

Lemma removeFirstText_suffix (stem : jsstring) :
  includes (str "Template") stem = false ->
  removeFirstText (str "Template") (stem ++ str "Template") = stem.
Proof.
  induction stem as [|c stem IH]; intros Habs; [reflexivity|].
  cbn [app removeFirstText].
  destruct (stripPrefix (str "Template") (c :: stem ++ str "Template")) as [r|] eqn:E.
  - exfalso. apply stripPrefix_Some in E.
    apply includes_false in Habs. apply Habs.
    apply (stripPrefix_self_overlap "T" (str "emplate") (c :: stem) r).
    + vm_compute. intuition discriminate.
    + discriminate.
    + exact E.
  - f_equal. apply IH. cbn [includes] in Habs.
    destruct (stripPrefix (str "Template") (c :: stem)); [discriminate|exact Habs].
Qed.

End ResolveFacts.

(* ===================================================================== *)
(** * Snippet resolver: the claim *)
(* ===================================================================== *)

Section ResolveClaims.



End ResolveClaims.

(* ===================================================================== *)
(** * The tools: lemmas *)
(* ===================================================================== *)

Section OrchestratorFacts.

Variable buildTemplateReplacements :
  TemplateReplacementContext -> completion (list (jsstring * jsstring)).
Variables trialsBlock usageBlock toggleBlock : jsstring.

Local Abbreviation generate' :=
  (generate buildTemplateReplacements trialsBlock usageBlock toggleBlock).
Local Abbreviation getSetupInstructions' :=
  (getSetupInstructions buildTemplateReplacements trialsBlock usageBlock toggleBlock).

Ltac runs :=
  cbv [generate fetchPricingModel assemble mbind run_bind mret run_ret step finish
       propagate trace result fst snd];
  repeat (case_match; subst;
          cbv [mbind run_bind mret run_ret step finish propagate trace result fst snd] in *;
          simplify_eq).

Lemma generate_inOrder (w : World) (key : jsstring) (args : Args) :
  inOrder (trace (generate' w key args)) pipelineOrder = true.
Proof. runs; reflexivity. Qed.

Lemma generate_extracts (w : World) (key : jsstring) (args : Args) :
  exists t, trace (generate' w key args) = Extract :: t.
Proof. runs; eexists; reflexivity. Qed.

Lemma generate_no_delegate (w : World) (key : jsstring) (args : Args) :
  ~ In Delegate (trace (generate' w key args)).
Proof. runs; cbn; intuition discriminate. Qed.

Lemma analysisRequired_false (args : Args) :
  analysisRequired args = false <->
  fileContents args = None \/ fileContents args = Some [] \/
  falsy (codebaseAnalysis args) = false.
Proof.
  unfold analysisRequired. destruct (fileContents args) as [[|f files]|]; cbn.
  - split; auto.
  - destruct (falsy (codebaseAnalysis args)); split; auto.
    intros [H|[H|H]]; discriminate.
  - split; auto.
Qed.

Lemma getSetupInstructions_delegates (apiKey key : jsstring) (w : World) (args : Args) :
  resolveApiKey apiKey w = Normal key -> analysisRequired args = true ->
  getSetupInstructions' apiKey w args =
  ([Delegate],
   Normal (redirectText (pricingComponents args)
             (analyzeCodebase w (default [] (fileContents args))))).
Proof.
  intros Hkey Hreq. unfold getSetupInstructions. rewrite Hkey, Hreq. reflexivity.
Qed.

Lemma getSetupInstructions_generates (apiKey key : jsstring) (w : World) (args : Args) :
  resolveApiKey apiKey w = Normal key -> analysisRequired args = false ->
  getSetupInstructions' apiKey w args = generate' w key args.
Proof.
  intros Hkey Hreq. unfold getSetupInstructions. rewrite Hkey, Hreq.
  cbv [mbind run_bind finish]. destruct (generate' w key args). reflexivity.
Qed.

Lemma getSetupInstructions_no_key (apiKey message : jsstring) (w : World) (args : Args) :
  resolveApiKey apiKey w = Throw message ->
  getSetupInstructions' apiKey w args = ([], Throw message).
Proof. intros Hkey. unfold getSetupInstructions. rewrite Hkey. reflexivity. Qed.

Lemma resolveApiKey_cases (apiKey : jsstring) (w : World) :
  (exists key, resolveApiKey apiKey w = Normal key) \/
  resolveApiKey apiKey w = Throw noApiKeyMessage.
Proof.
  unfold resolveApiKey. cbv zeta.
  repeat case_match; eauto.
Qed.

Lemma occursIn_app_l (k s t : jsstring) : occursIn k s -> occursIn k (s ++ t).
Proof.
  intros (pre & post & ->). exists pre, (post ++ t). rewrite <- !app_assoc. reflexivity.
Qed.

Lemma redirectText_phrase (cs : list PricingComponent) (analyzeText : jsstring) :
  occursIn redirectPhrase (redirectText cs analyzeText).
Proof.
  unfold redirectText. apply occursIn_app_l.
  apply includes_occursIn. vm_compute. reflexivity.
Qed.

(** When the lookup of the pricing model raises or finds nothing, a run whose
    resources load ends with the status that no model was found. *)
Lemma generate_without_model (w : World) (key : jsstring) (args : Args)
    (template : jsstring) (snippets : SnippetLibrary) :
  generationTemplate w = Gives template -> codeSnippets w = Gives snippets ->
  (forall ctx, exists tokens text,
      buildTemplateReplacements ctx = Normal tokens /\
      applyTemplateReplacements template tokens = Some text) ->
  (exists e, defaultPricingModel w key = Raises e) \/ defaultPricingModel w key = Gives None ->
  exists text,
    result (generate' w key args) =
    Normal (withAnalysis (codebaseAnalysis args) text ++ statusTail noModelStatus).
Proof.
  intros Ht Hs Hb Hfetch.
  cbv [generate fetchPricingModel mbind run_bind mret run_ret step finish propagate result snd].
  destruct Hfetch as [[e ->] | ->]; rewrite Ht, Hs;
    cbv [mbind run_bind mret run_ret step finish propagate result snd].
  - match goal with |- context [buildTemplateReplacements ?c] =>
      destruct (Hb c) as (tokens & text & -> & ->) end.
    exists text. reflexivity.
  - match goal with |- context [buildTemplateReplacements ?c] =>
      destruct (Hb c) as (tokens & text & -> & ->) end.
    exists text. reflexivity.
Qed.

(** When the model is found and its serialization raises, such a run ends with
    the status that the YAML could not be generated. *)
Lemma generate_without_yaml (w : World) (key : jsstring) (args : Args)
    (template : jsstring) (snippets : SnippetLibrary)
    (data : SetupPricingModelInput) (e : jsstring) :
  generationTemplate w = Gives template -> codeSnippets w = Gives snippets ->
  (forall ctx, exists tokens text,
      buildTemplateReplacements ctx = Normal tokens /\
      applyTemplateReplacements template tokens = Some text) ->
  defaultPricingModel w key = Gives (Some data) -> yamlStringify w data = Raises e ->
  exists text,
    result (generate' w key args) =
    Normal (withAnalysis (codebaseAnalysis args) text ++ statusTail yamlFailedStatus).
Proof.
  intros Ht Hs Hb Hfetch Hyaml.
  cbv [generate fetchPricingModel mbind run_bind mret run_ret step finish propagate result snd].
  rewrite Hfetch.
  cbv [mbind run_bind mret run_ret step finish propagate result snd].
  rewrite Hyaml, Ht, Hs.
  cbv [mbind run_bind mret run_ret step finish propagate result snd].
  match goal with |- context [buildTemplateReplacements ?c] =>
    destruct (Hb c) as (tokens & text & -> & ->) end.
  exists text. reflexivity.
Qed.

(** Every generation run extracts, then looks the pricing model up, and
    goes on to load the template whatever the lookup gave. *)
Lemma generate_begins (w : World) (key : jsstring) (args : Args) :
  exists rest,
    trace (generate' w key args) =
    Extract :: Fetch :: fetchSteps w key ++ LoadTemplate :: rest.
Proof. unfold fetchSteps. runs; eexists; reflexivity. Qed.

(** A generation run that returns a document has gone through every step:
    the document is the template of the world, substituted with the token
    map built from the extracted record, with what the assembly adds. *)
Lemma generate_returns (w : World) (key : jsstring) (args : Args) (out : jsstring) :
  result (generate' w key args) = Normal out ->
  exists template snippets ctx tokens text tail,
    generationTemplate w = Gives template /\ codeSnippets w = Gives snippets /\
    ctxCodebaseInfo ctx = extractCodebaseInfo (codebaseAnalysis args) ∅ /\
    ctxCodebaseAnalysis ctx = codebaseAnalysis args /\
    ctxSnippets ctx = snippets /\
    buildTemplateReplacements ctx = Normal tokens /\
    applyTemplateReplacements template tokens = Some text /\
    out = withAnalysis (codebaseAnalysis args) text ++ tail /\
    trace (generate' w key args) =
    Extract :: Fetch :: fetchSteps w key ++
    [LoadTemplate; LoadSnippets; BuildTokens; Substitute] ++
    composeSteps w key ++ [Assemble].
Proof.
  unfold fetchSteps, composeSteps.
  destruct (generationTemplate w) as [template|e] eqn:Ht.
  2:{ runs; discriminate. }
  destruct (codeSnippets w) as [snippets|e] eqn:Hs.
  2:{ runs; discriminate. }
  cbv [generate fetchPricingModel assemble mbind run_bind mret run_ret step finish
       propagate trace result fst snd].
  rewrite Ht, Hs.
  repeat (case_match; subst;
          cbv [mbind run_bind mret run_ret step finish propagate trace result fst snd] in *;
          simplify_eq);
    try discriminate; intros [= <-];
    match goal with
    | Hb : buildTemplateReplacements ?c = Normal ?l,
      Ha : applyTemplateReplacements _ ?l = Some ?x |- _ =>
        exists template, snippets, c, l, x; eexists;
        split; [reflexivity|]; split; [reflexivity|]; split; [reflexivity|];
        split; [reflexivity|]; split; [reflexivity|]; split; [exact Hb|];
        split; [exact Ha|]; split; reflexivity
    end.
Qed.

(** When the resources load and the token map is built and applied, the run
    returns a document. *)
Lemma generate_completes (w : World) (key : jsstring) (args : Args)
    (template : jsstring) (snippets : SnippetLibrary) :
  generationTemplate w = Gives template -> codeSnippets w = Gives snippets ->
  (forall ctx, exists tokens text,
      buildTemplateReplacements ctx = Normal tokens /\
      applyTemplateReplacements template tokens = Some text) ->
  exists out, result (generate' w key args) = Normal out.
Proof.
  intros Ht Hs Hb.
  cbv [generate fetchPricingModel assemble mbind run_bind mret run_ret step finish
       propagate trace result fst snd].
  rewrite Ht, Hs.
  destruct (defaultPricingModel w key) as [[data|]|e];
    cbv [mbind run_bind mret run_ret step finish propagate fst snd];
    [destruct (yamlStringify w data) as [yaml|e];
     cbv [mbind run_bind mret run_ret step finish propagate fst snd]| |];
    match goal with |- context [buildTemplateReplacements ?c] =>
      destruct (Hb c) as (tokens & text & -> & ->) end;
    cbv [mbind run_bind mret run_ret step finish propagate fst snd];
    try (destruct (truthy yaml));
    cbv [mbind run_bind mret run_ret step finish propagate fst snd];
    eexists; reflexivity.
Qed.

End OrchestratorFacts.

(* ===================================================================== *)
(** * The tools: the claims *)
(* ===================================================================== *)

Section OrchestratorClaims.

Variable buildTemplateReplacements :
  TemplateReplacementContext -> completion (list (jsstring * jsstring)).
Variables trialsBlock usageBlock toggleBlock : jsstring.

Local Abbreviation getSetupInstructions' :=
  (getSetupInstructions buildTemplateReplacements trialsBlock usageBlock toggleBlock).



(** C10 (amended).  An empty analysis document is handled as an absent
    one.  For every override record, [extractCodebaseInfo] returns for both
    the record of the built-in defaults with the overrides merged into
    [filePaths].  And [getSetupInstructions], given a non-empty
    [fileContents] array, does for the empty document exactly what it does
    for the absent one: the test for the redirect holds and no step of the
    generation is run; the redirect text is returned whenever the credential
    is resolved, and the error about the missing API key is raised, before
    any step, when it is not. *)
Theorem empty_analysis_as_absent
    (ov : gmap string jsstring) (apiKey : jsstring) (w : World) (args : Args)
    (files : list FileContent) :
  fileContents args = Some files -> files <> [] ->
  extractCodebaseInfo (Some []) ov =
    {| framework := str "Next.js"; language := str "TypeScript";
       authLibrary := str "unknown"; customerModel := B2C;
       customerIdSource := str "user.id"; projectStructure := None;
       stackDetails := None; additionalDetails := None;
       filePaths := ov ∪ builtinPaths |}
  /\ extractCodebaseInfo None ov =
    {| framework := str "Next.js"; language := str "TypeScript";
       authLibrary := str "unknown"; customerModel := B2C;
       customerIdSource := str "user.id"; projectStructure := None;
       stackDetails := None; additionalDetails := None;
       filePaths := ov ∪ builtinPaths |}
  /\ analysisRequired (withCodebaseAnalysis (Some []) args) = true
  /\ getSetupInstructions' apiKey w (withCodebaseAnalysis (Some []) args) =
     getSetupInstructions' apiKey w (withCodebaseAnalysis None args)
  /\ (forall s,
        In s (trace (getSetupInstructions' apiKey w (withCodebaseAnalysis (Some []) args))) ->
        s = Delegate)
  /\ (forall key, resolveApiKey apiKey w = Normal key ->
        getSetupInstructions' apiKey w (withCodebaseAnalysis (Some []) args) =
        ([Delegate],
         Normal (redirectText (pricingComponents args) (analyzeCodebase w files))))
  /\ (resolveApiKey apiKey w = Throw noApiKeyMessage ->
        getSetupInstructions' apiKey w (withCodebaseAnalysis (Some []) args) =
        ([], Throw noApiKeyMessage)).
Proof.
  intros Hf Hne.
  assert (Hreq : forall a, falsy a = true ->
            analysisRequired (withCodebaseAnalysis a args) = true).
  { intros a Ha. unfold analysisRequired. cbn [withCodebaseAnalysis fileContents codebaseAnalysis].
    rewrite Hf, Ha. destruct files; [congruence | reflexivity]. }
  assert (Hrun : forall a key, falsy a = true -> resolveApiKey apiKey w = Normal key ->
            getSetupInstructions' apiKey w (withCodebaseAnalysis a args) =
            ([Delegate],
             Normal (redirectText (pricingComponents args) (analyzeCodebase w files)))).
  { intros a key Ha Hkey.
    rewrite (getSetupInstructions_delegates _ _ _ _ _ key) by auto.
    cbn [withCodebaseAnalysis fileContents pricingComponents]. rewrite Hf. reflexivity. }
  split; [reflexivity|]. split; [reflexivity|]. split; [apply Hreq; reflexivity|].
  destruct (resolveApiKey_cases apiKey w) as [[key Hkey]|Hno].
  - split; [rewrite !(Hrun _ key) by (reflexivity || assumption); reflexivity|].
    split; [|split].
    + intros s. rewrite (Hrun _ key) by (reflexivity || assumption).
      intros [<-|[]]. reflexivity.
    + intros key' Hkey'. apply (Hrun _ key'); [reflexivity | assumption].
    + intros Hno. congruence.
  - split; [rewrite !(getSetupInstructions_no_key _ _ _ _ _ noApiKeyMessage) by assumption;
            reflexivity|].
    split; [|split].
    + intros s. rewrite (getSetupInstructions_no_key _ _ _ _ _ noApiKeyMessage) by assumption.
      intros [].
    + intros key Hkey. congruence.
    + intros _. apply getSetupInstructions_no_key, Hno.
Qed.

End OrchestratorClaims.

Section OrchestratorWitnesses.




Lemma sampleTokens_complete (template : jsstring) (ctx : TemplateReplacementContext) :
  exists tokens text,
    sampleTokens ctx = Normal tokens /\
    applyTemplateReplacements template tokens = Some text.
Proof.
  destruct (applyTemplateReplacements_defined
              [(str "{FRAMEWORK}", framework (ctxCodebaseInfo ctx));
               (str "{LANGUAGE}", language (ctxCodebaseInfo ctx))] template eq_refl)
    as [text Htext].
  eexists. exists text. split; [reflexivity | exact Htext].
Qed.


(** C10, as stated, fails: the credential is checked before the test for
    the redirect, so with an empty analysis document and a non-empty
    [fileContents] array a call without credential raises instead of taking
    the redirect path. *)
Lemma empty_analysis_as_absent_counterexample :
  fileContents (withCodebaseAnalysis (Some []) filesOnly) = Some sampleFiles /\
  sampleFiles <> [] /\
  codebaseAnalysis (withCodebaseAnalysis (Some []) filesOnly) = Some [] /\
  getSetupInstructions sampleTokens [] [] [] (str "") sampleWorld
    (withCodebaseAnalysis (Some []) filesOnly)
  = ([], Throw noApiKeyMessage).
Proof. repeat split; (discriminate || reflexivity). Qed.

Lemma empty_analysis_as_absent_witness :
  fileContents filesOnly = Some sampleFiles /\ sampleFiles <> [] /\
  getSetupInstructions sampleTokens [] [] [] (str "sk_test_1") sampleWorld
    (withCodebaseAnalysis (Some []) filesOnly)
  = ([Delegate],
     Normal (redirectText [Subscription; UsageBased]
               (analyzeCodebase sampleWorld sampleFiles))).
Proof.
  assert (Hne : sampleFiles <> []) by discriminate.
  split; [reflexivity|]. split; [exact Hne|].
  exact (proj1 (proj2 (proj2 (proj2 (proj2 (proj2
           (empty_analysis_as_absent sampleTokens [] [] [] ∅ (str "sk_test_1")
              sampleWorld filesOnly sampleFiles eq_refl Hne))))))
         (str "sk_test_1") eq_refl).
Defined.


End OrchestratorWitnesses.

(* ===================================================================== *)
(** * Further properties of the fact extractor *)
(* ===================================================================== *)

Section ExtractorFields.

Ltac keeps f :=
  intros; unfold f, answer, setPath; repeat case_match; reflexivity.

Lemma extractLanguage_keeps_framework doc info :
  framework (extractLanguage doc info) = framework info.
Proof. keeps extractLanguage. Qed.

Lemma extractAuth_keeps_framework doc info :
  framework (extractAuth doc info) = framework info.
Proof. keeps extractAuth. Qed.

Lemma extractCustomerModel_keeps_framework doc info :
  framework (extractCustomerModel doc info) = framework info.
Proof. keeps extractCustomerModel. Qed.

Lemma extractCustomerId_keeps_framework doc info :
  framework (extractCustomerId doc info) = framework info.
Proof. keeps extractCustomerId. Qed.

Lemma extractStack_keeps_framework doc info :
  framework (extractStack doc info) = framework info.
Proof. keeps extractStack. Qed.

Lemma extractAdditional_keeps_framework doc info :
  framework (extractAdditional doc info) = framework info.
Proof. keeps extractAdditional. Qed.

Lemma extractPath_keeps_framework role q doc info :
  framework (extractPath role q doc info) = framework info.
Proof. keeps extractPath. Qed.

Lemma extractLib_keeps_framework doc info :
  framework (extractLib doc info) = framework info.
Proof. keeps extractLib. Qed.

Lemma extractLanguage_keeps_projectStructure doc info :
  projectStructure (extractLanguage doc info) = projectStructure info.
Proof. keeps extractLanguage. Qed.

Lemma extractAuth_keeps_projectStructure doc info :
  projectStructure (extractAuth doc info) = projectStructure info.
Proof. keeps extractAuth. Qed.

Lemma extractCustomerModel_keeps_projectStructure doc info :
  projectStructure (extractCustomerModel doc info) = projectStructure info.
Proof. keeps extractCustomerModel. Qed.

Lemma extractCustomerId_keeps_projectStructure doc info :
  projectStructure (extractCustomerId doc info) = projectStructure info.
Proof. keeps extractCustomerId. Qed.

Lemma extractStack_keeps_projectStructure doc info :
  projectStructure (extractStack doc info) = projectStructure info.
Proof. keeps extractStack. Qed.

Lemma extractAdditional_keeps_projectStructure doc info :
  projectStructure (extractAdditional doc info) = projectStructure info.
Proof. keeps extractAdditional. Qed.

Lemma extractPath_keeps_projectStructure role q doc info :
  projectStructure (extractPath role q doc info) = projectStructure info.
Proof. keeps extractPath. Qed.

Lemma extractLib_keeps_projectStructure doc info :
  projectStructure (extractLib doc info) = projectStructure info.
Proof. keeps extractLib. Qed.

Lemma extractFramework_keeps_language doc info :
  language (extractFramework doc info) = language info.
Proof. keeps extractFramework. Qed.

Lemma extractAuth_keeps_language doc info :
  language (extractAuth doc info) = language info.
Proof. keeps extractAuth. Qed.

Lemma extractCustomerModel_keeps_language doc info :
  language (extractCustomerModel doc info) = language info.
Proof. keeps extractCustomerModel. Qed.

Lemma extractCustomerId_keeps_language doc info :
  language (extractCustomerId doc info) = language info.
Proof. keeps extractCustomerId. Qed.

Lemma extractStack_keeps_language doc info :
  language (extractStack doc info) = language info.
Proof. keeps extractStack. Qed.

Lemma extractAdditional_keeps_language doc info :
  language (extractAdditional doc info) = language info.
Proof. keeps extractAdditional. Qed.

Lemma extractPath_keeps_language role q doc info :
  language (extractPath role q doc info) = language info.
Proof. keeps extractPath. Qed.

Lemma extractLib_keeps_language doc info :
  language (extractLib doc info) = language info.
Proof. keeps extractLib. Qed.

Lemma extractFramework_keeps_additionalDetails doc info :
  additionalDetails (extractFramework doc info) = additionalDetails info.
Proof. keeps extractFramework. Qed.

Lemma extractLanguage_keeps_additionalDetails doc info :
  additionalDetails (extractLanguage doc info) = additionalDetails info.
Proof. keeps extractLanguage. Qed.

Lemma extractAuth_keeps_additionalDetails doc info :
  additionalDetails (extractAuth doc info) = additionalDetails info.
Proof. keeps extractAuth. Qed.

Lemma extractCustomerModel_keeps_additionalDetails doc info :
  additionalDetails (extractCustomerModel doc info) = additionalDetails info.
Proof. keeps extractCustomerModel. Qed.

Lemma extractCustomerId_keeps_additionalDetails doc info :
  additionalDetails (extractCustomerId doc info) = additionalDetails info.
Proof. keeps extractCustomerId. Qed.

Lemma extractStack_keeps_additionalDetails doc info :
  additionalDetails (extractStack doc info) = additionalDetails info.
Proof. keeps extractStack. Qed.

Lemma extractPath_keeps_additionalDetails role q doc info :
  additionalDetails (extractPath role q doc info) = additionalDetails info.
Proof. keeps extractPath. Qed.

Lemma extractLib_keeps_additionalDetails doc info :
  additionalDetails (extractLib doc info) = additionalDetails info.
Proof. keeps extractLib. Qed.

Lemma extractFramework_keeps_stackDetails doc info :
  stackDetails (extractFramework doc info) = stackDetails info.
Proof. keeps extractFramework. Qed.

Lemma extractLanguage_keeps_stackDetails doc info :
  stackDetails (extractLanguage doc info) = stackDetails info.
Proof. keeps extractLanguage. Qed.

Lemma extractAuth_keeps_stackDetails doc info :
  stackDetails (extractAuth doc info) = stackDetails info.
Proof. keeps extractAuth. Qed.

Lemma extractCustomerModel_keeps_stackDetails doc info :
  stackDetails (extractCustomerModel doc info) = stackDetails info.
Proof. keeps extractCustomerModel. Qed.

Lemma extractCustomerId_keeps_stackDetails doc info :
  stackDetails (extractCustomerId doc info) = stackDetails info.
Proof. keeps extractCustomerId. Qed.

Lemma extractAdditional_keeps_stackDetails doc info :
  stackDetails (extractAdditional doc info) = stackDetails info.
Proof. keeps extractAdditional. Qed.

Lemma extractPath_keeps_stackDetails role q doc info :
  stackDetails (extractPath role q doc info) = stackDetails info.
Proof. keeps extractPath. Qed.

Lemma extractLib_keeps_stackDetails doc info :
  stackDetails (extractLib doc info) = stackDetails info.
Proof. keeps extractLib. Qed.

Lemma extractFramework_keeps_authLibrary doc info :
  authLibrary (extractFramework doc info) = authLibrary info.
Proof. keeps extractFramework. Qed.

Lemma extractLanguage_keeps_authLibrary doc info :
  authLibrary (extractLanguage doc info) = authLibrary info.
Proof. keeps extractLanguage. Qed.

Lemma extractFramework_keeps_filePaths doc info :
  filePaths (extractFramework doc info) = filePaths info.
Proof. keeps extractFramework. Qed.

Lemma extractLanguage_keeps_filePaths doc info :
  filePaths (extractLanguage doc info) = filePaths info.
Proof. keeps extractLanguage. Qed.

Lemma extractAuth_keeps_filePaths doc info :
  filePaths (extractAuth doc info) = filePaths info.
Proof. keeps extractAuth. Qed.

Lemma extractCustomerModel_keeps_filePaths doc info :
  filePaths (extractCustomerModel doc info) = filePaths info.
Proof. keeps extractCustomerModel. Qed.

Lemma extractCustomerId_keeps_filePaths doc info :
  filePaths (extractCustomerId doc info) = filePaths info.
Proof. keeps extractCustomerId. Qed.

Lemma extractStack_keeps_filePaths doc info :
  filePaths (extractStack doc info) = filePaths info.
Proof. keeps extractStack. Qed.

Lemma extractAdditional_keeps_filePaths doc info :
  filePaths (extractAdditional doc info) = filePaths info.
Proof. keeps extractAdditional. Qed.

(** The blocks of [extractCodebaseInfo] on a non-empty document. *)
Lemma extractCodebaseInfo_steps (doc : jsstring) (ov : gmap string jsstring) :
  truthy doc = true ->
  extractCodebaseInfo (Some doc) ov =
  extractPath "packageFile" "What is the name and location of the dependency file?" doc
    (extractPath "envVarAccess" "How are environment variables accessed?" doc
    (extractPath "envFile" "What is the name of the environment file?" doc
    (extractPath "dashboardComponentPath"
       "Where is the main dashboard/home page component?" doc
    (extractPath "navbarComponentPath" "Where is the navbar/account menu component?" doc
    (extractPath "pricingComponentPath" "Where is the pricing page/component?" doc
    (extractPath "componentsPath" "Where are UI components located?" doc
    (extractLib doc
    (extractPath "apiRoutePath" "Where should API routes be mounted?" doc
    (extractAdditional doc (extractStack doc (extractCustomerId doc
    (extractCustomerModel doc (extractAuth doc (extractLanguage doc
    (extractFramework doc (defaults ov)))))))))))))))).
Proof. intros Hd. unfold extractCodebaseInfo. rewrite Hd. reflexivity. Qed.

Ltac through_paths field :=
  repeat first
    [ rewrite (extractPath_keeps_framework) | rewrite (extractLib_keeps_framework)
    | rewrite (extractPath_keeps_projectStructure) | rewrite (extractLib_keeps_projectStructure)
    | rewrite (extractPath_keeps_language) | rewrite (extractLib_keeps_language)
    | rewrite (extractPath_keeps_additionalDetails) | rewrite (extractLib_keeps_additionalDetails)
    | rewrite (extractPath_keeps_stackDetails) | rewrite (extractLib_keeps_stackDetails) ].

Lemma final_framework doc ov :
  truthy doc = true ->
  framework (extractCodebaseInfo (Some doc) ov) = framework (extractFramework doc (defaults ov))
  /\ projectStructure (extractCodebaseInfo (Some doc) ov) =
     projectStructure (extractFramework doc (defaults ov)).
Proof.
  intros Hd. rewrite extractCodebaseInfo_steps by assumption. through_paths framework.
  rewrite extractAdditional_keeps_framework, extractStack_keeps_framework,
    extractCustomerId_keeps_framework, extractCustomerModel_keeps_framework,
    extractAuth_keeps_framework, extractLanguage_keeps_framework.
  rewrite extractAdditional_keeps_projectStructure, extractStack_keeps_projectStructure,
    extractCustomerId_keeps_projectStructure, extractCustomerModel_keeps_projectStructure,
    extractAuth_keeps_projectStructure, extractLanguage_keeps_projectStructure.
  split; reflexivity.
Qed.

Lemma final_language doc ov :
  truthy doc = true ->
  language (extractCodebaseInfo (Some doc) ov) = language (extractLanguage doc (defaults ov)).
Proof.
  intros Hd. rewrite extractCodebaseInfo_steps by assumption. through_paths language.
  rewrite extractAdditional_keeps_language, extractStack_keeps_language,
    extractCustomerId_keeps_language, extractCustomerModel_keeps_language,
    extractAuth_keeps_language.
  unfold extractLanguage, answer.
  repeat case_match; try reflexivity; apply extractFramework_keeps_language.
Qed.

Lemma final_additionalDetails doc ov :
  truthy doc = true ->
  additionalDetails (extractCodebaseInfo (Some doc) ov) =
  additionalDetails (extractAdditional doc (defaults ov)).
Proof.
  intros Hd. rewrite extractCodebaseInfo_steps by assumption. through_paths additionalDetails.
  unfold extractAdditional. case_match; [case_match; reflexivity|].
  rewrite extractStack_keeps_additionalDetails, extractCustomerId_keeps_additionalDetails,
    extractCustomerModel_keeps_additionalDetails, extractAuth_keeps_additionalDetails,
    extractLanguage_keeps_additionalDetails, extractFramework_keeps_additionalDetails.
  reflexivity.
Qed.

Lemma final_stackDetails doc ov :
  truthy doc = true ->
  stackDetails (extractCodebaseInfo (Some doc) ov) =
  stackDetails (extractStack doc (defaults ov)).
Proof.
  intros Hd. rewrite extractCodebaseInfo_steps by assumption. through_paths stackDetails.
  rewrite extractAdditional_keeps_stackDetails.
  unfold extractStack. case_match; [case_match; reflexivity|].
  rewrite extractCustomerId_keeps_stackDetails,
    extractCustomerModel_keeps_stackDetails, extractAuth_keeps_stackDetails,
    extractLanguage_keeps_stackDetails, extractFramework_keeps_stackDetails.
  reflexivity.
Qed.

End ExtractorFields.

Section MoreStrings.

Lemma toLowerCase_app (a b : jsstring) :
  toLowerCase (a ++ b) = toLowerCase a ++ toLowerCase b.
Proof. apply map_app. Qed.

Lemma occursIn_mid (k s a b : jsstring) : occursIn k s -> occursIn k (a ++ s ++ b).
Proof.
  intros (pre & post & ->). exists (a ++ pre), (post ++ b).
  rewrite <- !app_assoc. reflexivity.
Qed.

Lemma includes_lower_mid (k s a b : jsstring) :
  includes k (toLowerCase s) = true -> includes k (toLowerCase (a ++ s ++ b)) = true.
Proof.
  intros H. rewrite !toLowerCase_app. apply includes_occursIn, occursIn_mid.
  apply includes_occursIn, H.
Qed.

Lemma includes_lower_part (k s a b : jsstring) :
  includes k (toLowerCase (a ++ s ++ b)) = false -> includes k (toLowerCase s) = false.
Proof.
  intros H. destruct (includes k (toLowerCase s)) eqn:E; [|reflexivity].
  rewrite (includes_lower_mid k s a b E) in H. discriminate.
Qed.

Lemma trimStart_suffix (s : jsstring) : exists a, s = a ++ trimStart s.
Proof.
  induction s as [|c s [a IH]]; [exists []; reflexivity|]. cbn [trimStart].
  destruct (isTrimChar c).
  - exists (c :: a). cbn [app]. f_equal. exact IH.
  - exists []. reflexivity.
Qed.

(** The trimmed text is a piece of the text. *)
Lemma trim_part (s : jsstring) : exists a b, s = a ++ trim s ++ b.
Proof.
  unfold trim. destruct (trimStart_suffix s) as [a Ha].
  destruct (trimStart_suffix (rev (trimStart s))) as [b Hb].
  exists a, (rev b). rewrite <- rev_app_distr, <- Hb, rev_involutive. exact Ha.
Qed.

End MoreStrings.

Section ExtractorLookups.

Lemma extractPath_lookup_eq role q doc info :
  filePaths (extractPath role q doc info) !! role =
  match answer (answerTo (lit q)) doc with
  | Some g => Some (trim g)
  | None => filePaths info !! role
  end.
Proof.
  unfold extractPath. case_match; [|reflexivity].
  cbn [setPath filePaths]. apply lookup_insert_eq.
Qed.

Lemma extractPath_lookup_ne role q doc info r :
  role <> r ->
  filePaths (extractPath role q doc info) !! r = filePaths info !! r.
Proof.
  intros Hne. unfold extractPath. case_match; [|reflexivity].
  cbn [setPath filePaths]. apply lookup_insert_ne, Hne.
Qed.

Lemma extractLib_lookup_ne doc info r :
  "libPath"%string <> r -> "serverFile"%string <> r ->
  filePaths (extractLib doc info) !! r = filePaths info !! r.
Proof.
  intros H1 H2. unfold extractLib. case_match; [|reflexivity].
  cbv zeta. cbn [setPath filePaths]. rewrite !lookup_insert_ne by assumption. reflexivity.
Qed.

Lemma extractLib_lookup_lib doc info :
  filePaths (extractLib doc info) !! "libPath"%string =
  match answer libQuestion doc with
  | Some g => Some (trim g)
  | None => filePaths info !! "libPath"%string
  end.
Proof.
  unfold extractLib, libQuestion. case_match; [|reflexivity].
  cbv zeta. cbn [setPath filePaths].
  rewrite lookup_insert_ne by discriminate. apply lookup_insert_eq.
Qed.

Lemma extractLib_lookup_server doc info :
  filePaths (extractLib doc info) !! "serverFile"%string =
  match answer libQuestion doc with
  | Some g =>
      Some (trim g ++ str "/flowglad." ++
            (if includes (str "TypeScript") (language info) then str "ts" else str "js"))
  | None => filePaths info !! "serverFile"%string
  end.
Proof.
  unfold extractLib, libQuestion. case_match; [|reflexivity].
  cbv zeta. cbn [setPath filePaths]. rewrite lookup_insert_eq.
  unfold getPath. cbn [setPath filePaths language]. rewrite lookup_insert_eq. reflexivity.
Qed.

Lemma defaults_lookup ov role :
  filePaths (defaults ov) !! role = (ov ∪ builtinPaths) !! role.
Proof. reflexivity. Qed.

End ExtractorLookups.

Ltac lookup_steps :=
  repeat first
    [ rewrite extractPath_lookup_eq
    | rewrite extractPath_lookup_ne by discriminate
    | rewrite extractLib_lookup_lib
    | rewrite extractLib_lookup_server
    | rewrite extractLib_lookup_ne by discriminate
    | rewrite extractAdditional_keeps_filePaths
    | rewrite extractStack_keeps_filePaths
    | rewrite extractCustomerId_keeps_filePaths
    | rewrite extractCustomerModel_keeps_filePaths
    | rewrite extractAuth_keeps_filePaths
    | rewrite extractLanguage_keeps_filePaths
    | rewrite extractFramework_keeps_filePaths
    | rewrite defaults_lookup ].

Section ExtractorProperties.

(** X1.  For every document and every override record, the framework name
    returned by [extractCodebaseInfo] is one of ["Next.js"] and ["React"] and
    agrees with [projectStructure]: ["React"] exactly when the structure is
    [react], ["Next.js"] when it is [nextjs] or undefined; and
    [getFrameworkKey] maps that name back to the structure, an undefined
    structure to [nextjs]. *)
Theorem framework_agrees_with_structure
    (doc : option jsstring) (ov : gmap string jsstring) :
  let info := extractCodebaseInfo doc ov in
  ((projectStructure info = Some Nextjs /\ framework info = str "Next.js") \/
   (projectStructure info = Some React /\ framework info = str "React") \/
   (projectStructure info = None /\ framework info = str "Next.js"))
  /\ getFrameworkKey (framework info) =
     match projectStructure info with Some React => KeyReact | _ => KeyNextjs end.
Proof.
  cbv zeta.
  assert (Hdef : forall info, info = defaults ov ->
    ((projectStructure info = Some Nextjs /\ framework info = str "Next.js") \/
     (projectStructure info = Some React /\ framework info = str "React") \/
     (projectStructure info = None /\ framework info = str "Next.js"))
    /\ getFrameworkKey (framework info) =
       match projectStructure info with Some React => KeyReact | _ => KeyNextjs end).
  { intros info ->. split; [right; right; split; reflexivity | reflexivity]. }
  destruct doc as [doc|]; [|apply Hdef; reflexivity].
  destruct (truthy doc) eqn:Hd.
  - destruct (final_framework doc ov Hd) as [-> ->].
    unfold extractFramework.
    destruct (answer frameworkRe doc) as [g|]; [|apply Hdef; reflexivity]. cbv zeta.
    destruct (includes (str "next.js") (toLowerCase g) ||
              includes (str "nextjs") (toLowerCase g)).
    { split; [left; split; reflexivity | reflexivity]. }
    destruct (includes (str "react") (toLowerCase g)); [|apply Hdef; reflexivity].
    split; [right; left; split; reflexivity | reflexivity].
  - destruct doc; [|discriminate]. apply Hdef. reflexivity.
Qed.

(** X2.  For every document, the customer model is B2B exactly when the
    business marker occurs and either the individual marker does not occur
    or the first business marker stands strictly before the first individual
    marker; in every other case, in particular when the individual marker
    comes first, it is B2C. *)
Theorem customerModel_B2B_iff (doc : jsstring) (ov : gmap string jsstring) :
  (customerModel (extractCodebaseInfo (Some doc) ov) = B2B <->
   occursIn b2bMarker doc /\
   (~ occursIn b2cMarker doc \/ (indexOf b2bMarker doc < indexOf b2cMarker doc)%Z))
  /\ (occursIn b2cMarker doc ->
      (indexOf b2cMarker doc < indexOf b2bMarker doc)%Z ->
      customerModel (extractCodebaseInfo (Some doc) ov) = B2C).
Proof.
  assert (Hiff : customerModel (extractCodebaseInfo (Some doc) ov) = B2B <->
    occursIn b2bMarker doc /\
    (~ occursIn b2cMarker doc \/ (indexOf b2bMarker doc < indexOf b2cMarker doc)%Z)).
  { assert (Hocc : forall k, occursIn k doc <-> indexOf k doc <> (-1)%Z).
    { intros k. rewrite <- includes_occursIn. pose proof (indexOf_absent k doc) as H.
      destruct (includes k doc); split.
      - intros _ He. apply H in He. discriminate.
      - reflexivity.
      - discriminate.
      - intros Hne. exfalso. apply Hne, H. reflexivity. }
    rewrite !Hocc.
    destruct (truthy doc) eqn:Hd.
    - rewrite extractCodebaseInfo_customerModel by assumption.
      unfold extractCustomerModel. cbv zeta.
      destruct (Z.eqb_spec (indexOf b2bMarker doc) (-1)) as [Eb|Eb];
        destruct (Z.eqb_spec (indexOf b2cMarker doc) (-1)) as [Ec|Ec];
        destruct (Z.ltb_spec (indexOf b2bMarker doc) (indexOf b2cMarker doc)) as [El|El];
        cbn [negb andb orb customerModel defaults];
        (split; [intros H; try discriminate H | intros H; try reflexivity]);
        intuition lia.
    - destruct doc; [|discriminate]. split; [discriminate|].
      intros [H _]. exfalso. apply H. reflexivity. }
  split; [exact Hiff|]. intros Hc Hlt.
  destruct (customerModel (extractCodebaseInfo (Some doc) ov)); [reflexivity|].
  destruct (proj1 Hiff eq_refl) as [_ [Habs|Hlt']]; [contradiction | lia].
Qed.

(** X3.  Whatever the document says, [routeHandler], [layoutFile],
    [billingPage] and [mockBillingPath] are never taken from it: they hold
    the override when there is one and the built-in path otherwise. *)
Theorem untouched_roles_keep_defaults
    (doc : option jsstring) (ov : gmap string jsstring) (role : string) :
  In role untouchedRoles ->
  filePaths (extractCodebaseInfo doc ov) !! role =
  match ov !! role with Some v => Some v | None => builtinPaths !! role end.
Proof.
  intros Hrole.
  assert (Hu : forall r, (ov ∪ builtinPaths) !! r =
                 match ov !! r with Some v => Some v | None => builtinPaths !! r end).
  { intros r. destruct (ov !! r) eqn:E;
      [apply lookup_union_Some_l, E | apply lookup_union_r, E]. }
  rewrite <- Hu.
  destruct doc as [doc|]; [|reflexivity].
  destruct (truthy doc) eqn:Hd; [|destruct doc; [reflexivity | discriminate]].
  rewrite extractCodebaseInfo_steps by assumption.
  unfold untouchedRoles in Hrole. cbn [In] in Hrole.
  destruct Hrole as [<-|[<-|[<-|[<-|[]]]]]; lookup_steps; reflexivity.
Qed.

Lemma untouched_roles_keep_defaults_witness :
  In "layoutFile"%string untouchedRoles /\
  filePaths (extractCodebaseInfo (Some (str "Where are UI components located?"))
               {["layoutFile"%string := str "app/root.tsx"]}) !! "layoutFile"%string
  = Some (str "app/root.tsx").
Proof.
  assert (H : In "layoutFile"%string untouchedRoles) by (vm_compute; tauto).
  split; [exact H|].
  exact (untouched_roles_keep_defaults _ {["layoutFile"%string := str "app/root.tsx"]} _ H).
Defined.

End ExtractorProperties.

Section ExtractorPathProperties.

Lemma union_lookup (ov : gmap string jsstring) (r : string) :
  (ov ∪ builtinPaths) !! r =
  match ov !! r with Some v => Some v | None => builtinPaths !! r end.
Proof.
  destruct (ov !! r) eqn:E; [apply lookup_union_Some_l, E | apply lookup_union_r, E].
Qed.

Lemma customerModel_B2B_iff_witness :
  let doc := str "- **B2C**: Individual users. - **B2B**: Businesses." in
  occursIn b2cMarker doc /\
  (indexOf b2cMarker doc < indexOf b2bMarker doc)%Z /\
  customerModel (extractCodebaseInfo (Some doc) ∅) = B2C.
Proof.
  intros doc.
  assert (Hc : occursIn b2cMarker doc) by (apply includes_occursIn; vm_compute; reflexivity).
  assert (Hlt : (indexOf b2cMarker doc < indexOf b2bMarker doc)%Z) by (vm_compute; reflexivity).
  split; [exact Hc|]. split; [exact Hlt|].
  exact (proj2 (customerModel_B2B_iff doc ∅) Hc Hlt).
Defined.

(** X4.  For each of the eight roles that [extractCodebaseInfo] reads from
    one question: when the document answers the question, the role holds the
    answer trimmed, even against an explicit override; when it does not, the
    role holds the override if there is one and the built-in path
    otherwise. *)
Theorem answered_role_wins_over_override
    (doc : jsstring) (ov : gmap string jsstring) (role question : string) :
  In (role, question) answeredRoles ->
  filePaths (extractCodebaseInfo (Some doc) ov) !! role =
  match answer (answerTo (lit question)) doc with
  | Some g => Some (trim g)
  | None => match ov !! role with Some v => Some v | None => builtinPaths !! role end
  end.
Proof.
  intros Hin. rewrite <- union_lookup.
  destruct (truthy doc) eqn:Hd.
  - rewrite extractCodebaseInfo_steps by assumption.
    unfold answeredRoles in Hin. cbn [In] in Hin.
    repeat (destruct Hin as [[= <- <-]|Hin]; [lookup_steps; reflexivity|]).
    destruct Hin.
  - destruct doc; [|discriminate].
    unfold answeredRoles in Hin. cbn [In] in Hin.
    repeat (destruct Hin as [[= <- <-]|Hin]; [reflexivity|]).
    destruct Hin.
Qed.

Lemma answered_role_wins_over_override_witness :
  In ("envFile", "What is the name of the environment file?")%string answeredRoles /\
  filePaths
    (extractCodebaseInfo
       (Some (str "What is the name of the environment file?" ++ ["010"] ++ str "-  .env "))
       {["envFile"%string := str ".env.production"]}) !! "envFile"%string
  = Some (str ".env").
Proof.
  assert (H : In ("envFile", "What is the name of the environment file?")%string
                answeredRoles) by (vm_compute; tauto).
  split; [exact H|].
  exact (answered_role_wins_over_override _ {["envFile"%string := str ".env.production"]}
           _ _ H).
Defined.

(** X5.  When the document answers the question about the utilities path,
    [libPath] is the answer trimmed and [serverFile] is recomputed as
    [<libPath>/flowglad.ts] when the returned language contains
    ["TypeScript"] and [<libPath>/flowglad.js] otherwise, whatever the
    overrides say; when it does not, both keep the override or the built-in
    path. *)
Theorem serverFile_follows_libPath (doc : jsstring) (ov : gmap string jsstring) :
  let info := extractCodebaseInfo (Some doc) ov in
  match answer libQuestion doc with
  | Some g =>
      filePaths info !! "libPath"%string = Some (trim g) /\
      filePaths info !! "serverFile"%string =
        Some (trim g ++ str "/flowglad." ++
              (if includes (str "TypeScript") (language info) then str "ts" else str "js"))
  | None =>
      filePaths info !! "libPath"%string =
        match ov !! "libPath"%string with
        | Some v => Some v | None => builtinPaths !! "libPath"%string end /\
      filePaths info !! "serverFile"%string =
        match ov !! "serverFile"%string with
        | Some v => Some v | None => builtinPaths !! "serverFile"%string end
  end.
Proof.
  cbv zeta. rewrite <- !union_lookup.
  destruct (truthy doc) eqn:Hd.
  - rewrite (final_language doc ov Hd).
    rewrite extractCodebaseInfo_steps by assumption.
    assert (Hlang : forall info0,
      language (extractPath "apiRoutePath" "Where should API routes be mounted?" doc
        (extractAdditional doc (extractStack doc (extractCustomerId doc
        (extractCustomerModel doc (extractAuth doc (extractLanguage doc
        (extractFramework doc info0))))))))
      = language (extractLanguage doc info0)).
    { intros info0.
      rewrite extractPath_keeps_language, extractAdditional_keeps_language,
        extractStack_keeps_language, extractCustomerId_keeps_language,
        extractCustomerModel_keeps_language, extractAuth_keeps_language.
      unfold extractLanguage, answer.
      repeat case_match; try reflexivity; apply extractFramework_keeps_language. }
    destruct (answer libQuestion doc) as [g|] eqn:E.
    + split; lookup_steps; rewrite ?E, ?Hlang; reflexivity.
    + split; lookup_steps; rewrite ?E; lookup_steps; reflexivity.
  - destruct doc; [|discriminate]. split; reflexivity.
Qed.

End ExtractorPathProperties.

(* ===================================================================== *)
(** * Sections of a document: a heading, any text, a closing heading *)
(* ===================================================================== *)

Section Sections.

Lemma lit_match_spec (T s : jsstring) (m : matchResult) :
  matchNodes (map NChar T) s = Some m ->
  s = matched m ++ rest m /\ group1 m = None /\ length (matched m) = length T.
Proof.
  revert s m. induction T as [|a T IH]; intros s m; cbn [map matchNodes].
  - intros [= <-]. repeat split.
  - destruct s as [|d s]; [discriminate|]. destruct (eqbCI a d); [|discriminate].
    unfold consumed. destruct (matchNodes (map NChar T) s) as [m'|] eqn:E; [|discriminate].
    intros [= <-]. cbn [matched rest group1]. destruct (IH s m' E) as (H1 & H2 & H3).
    repeat split; [cbn [app]; f_equal; exact H1 | exact H2 | cbn [length]; f_equal; exact H3].
Qed.

Lemma lit_match_mono (T x r : jsstring) (m : matchResult) :
  matchNodes (map NChar T) x = Some m ->
  matchNodes (map NChar T) (x ++ r) = Some (MatchResult (matched m) None (rest m ++ r)).
Proof.
  revert x m. induction T as [|a T IH]; intros x m; cbn [map matchNodes].
  - intros [= <-]. reflexivity.
  - destruct x as [|d x]; [discriminate|]. cbn [app]. destruct (eqbCI a d); [|discriminate].
    unfold consumed. destruct (matchNodes (map NChar T) x) as [m'|] eqn:E; [|discriminate].
    intros [= <-]. rewrite (IH x m' E). reflexivity.
Qed.

Lemma lit_match_self (T s : jsstring) (m : matchResult) :
  matchNodes (map NChar T) s = Some m ->
  matchNodes (map NChar T) (matched m) = Some (MatchResult (matched m) None []).
Proof.
  revert s m. induction T as [|a T IH]; intros s m; cbn [map matchNodes].
  - intros [= <-]. reflexivity.
  - destruct s as [|d s]; [discriminate|]. destruct (eqbCI a d) eqn:Ed; [|discriminate].
    unfold consumed. destruct (matchNodes (map NChar T) s) as [m'|] eqn:E; [|discriminate].
    intros [= <-]. cbn [matched]. rewrite Ed, (IH s m' E). reflexivity.
Qed.

(** The lazy run up to a closing text [T] stops at the first place where
    [T] matches; on the matched text alone it stops at the same place. *)
Lemma lazy_section (T : jsstring) :
  forall (s taken : jsstring) (m : matchResult),
    lazyRepeat AnyUnit false false (matchNodes (map NChar T)) taken s = Some m ->
    exists mid t,
      matched m = taken ++ mid ++ t /\ s = mid ++ t ++ rest m /\
      length t = length T /\ group1 m = None /\
      (forall before, execFrom (map NChar T) before (mid ++ t)
                      = Some (before ++ mid, MatchResult t None [])) /\
      (forall taken', lazyRepeat AnyUnit false false (matchNodes (map NChar T)) taken'
                        (mid ++ t)
                      = Some (MatchResult (taken' ++ mid ++ t) None [])).
Proof.
  assert (Hhere : forall s m', matchNodes (map NChar T) s = Some m' ->
    forall taken before,
      execFrom (map NChar T) before (matched m') = Some (before, MatchResult (matched m') None [])
      /\ lazyRepeat AnyUnit false false (matchNodes (map NChar T)) taken (matched m')
         = Some (MatchResult (taken ++ matched m') None [])).
  { intros s m' E taken before. pose proof (lit_match_self T s m' E) as Hs.
    split.
    - destruct (matched m'); cbn [execFrom]; rewrite Hs; reflexivity.
    - destruct (matched m'); cbn [lazyRepeat]; unfold leaveRepeat; cbn [andb];
        rewrite Hs; reflexivity. }
  intros s. induction s as [|c s IH]; intros taken m; cbn [lazyRepeat];
    unfold leaveRepeat; cbn [andb].
  - destruct (matchNodes (map NChar T) []) as [m'|] eqn:E; [|discriminate].
    intros [= <-]. cbn [matched rest group1].
    destruct (lit_match_spec T [] m' E) as (H1 & H2 & H3).
    exists [], (matched m'). cbn [app].
    repeat split; try assumption.
    + intros before. rewrite app_nil_r. apply (Hhere [] m' E taken before).
    + intros taken'. apply (Hhere [] m' E taken' []).
  - destruct (matchNodes (map NChar T) (c :: s)) as [m'|] eqn:E.
    + intros [= <-]. cbn [matched rest group1].
      destruct (lit_match_spec T (c :: s) m' E) as (H1 & H2 & H3).
      exists [], (matched m'). cbn [app].
      repeat split; try assumption.
      * intros before. rewrite app_nil_r. apply (Hhere _ m' E taken before).
      * intros taken'. apply (Hhere _ m' E taken' []).
    + cbn [inClass]. intros Hrec.
      destruct (IH (taken ++ [c]) m Hrec) as (mid & t & Hm & Hs & Ht & Hg & Hex & Hlz).
      exists (c :: mid), t. rewrite <- app_assoc in Hm. cbn [app] in *.
      assert (Hfail : matchNodes (map NChar T) (c :: mid ++ t) = None).
      { destruct (matchNodes (map NChar T) (c :: mid ++ t)) as [m'|] eqn:E'; [|reflexivity].
        apply (lit_match_mono T (c :: mid ++ t) (rest m)) in E'.
        cbn [app] in E'. rewrite <- app_assoc, <- Hs in E'. congruence. }
      repeat split; try assumption.
      * f_equal. exact Hs.
      * intros before. cbn [execFrom]. rewrite Hfail, Hex, <- app_assoc. reflexivity.
      * intros taken'. cbn [lazyRepeat]. unfold leaveRepeat. cbn [andb inClass].
        rewrite Hfail, Hlz, <- app_assoc. reflexivity.
Qed.

(** A section pattern [H[\s\S]*?T]: what it matches is a heading, a middle
    and a closing text; on the matched text alone it matches again, all of
    it. *)
Lemma heading_section (H T : jsstring) :
  forall (s : jsstring) (m : matchResult),
    matchNodes (map NChar H ++ lazyAny :: map NChar T) s = Some m ->
    exists h mid t,
      matched m = h ++ mid ++ t /\ s = matched m ++ rest m /\
      length h = length H /\ length t = length T /\
      matchNodes (map NChar H) (h ++ mid ++ t) = Some (MatchResult h None (mid ++ t)) /\
      (forall before, execFrom (map NChar T) before (mid ++ t)
                      = Some (before ++ mid, MatchResult t None [])) /\
      matchNodes (map NChar H ++ lazyAny :: map NChar T) (h ++ mid ++ t)
      = Some (MatchResult (h ++ mid ++ t) None []).
Proof.
  induction H as [|a H IH]; intros s m.
  - cbn [map app matchNodes lazyAny]. intros Hm.
    destruct (lazy_section T s [] m Hm) as (mid & t & H1 & H2 & H3 & H4 & H5 & H6).
    exists [], mid, t. cbn [app] in *.
    repeat split; try assumption.
    + rewrite H1, <- app_assoc. exact H2.
    + apply (H6 []).
  - cbn [map app matchNodes]. destruct s as [|d s]; [discriminate|].
    destruct (eqbCI a d) eqn:Ed; [|discriminate]. unfold consumed.
    destruct (matchNodes (map NChar H ++ lazyAny :: map NChar T) s) as [m'|] eqn:E;
      [|discriminate].
    intros [= <-]. cbn [matched rest group1].
    destruct (IH s m' E) as (h & mid & t & H1 & H2 & H3 & H4 & H5 & H6 & H7).
    exists (d :: h), mid, t. cbn [app length].
    repeat split; try assumption.
    + f_equal. exact H1.
    + f_equal. exact H2.
    + f_equal. exact H3.
    + rewrite Ed, H5. reflexivity.
    + rewrite Ed, H7. reflexivity.
Qed.

Lemma execFrom_matches (ns : list node) :
  forall (s before b : jsstring) (m : matchResult),
    execFrom ns before s = Some (b, m) ->
    exists s', matchNodes ns s' = Some m /\ before ++ s = b ++ s'.
Proof.
  intros s. induction s as [|c s IH]; intros before b m; cbn [execFrom].
  - destruct (matchNodes ns []) as [m'|] eqn:E; [|discriminate].
    intros [= <- <-]. exists []. split; [exact E | reflexivity].
  - destruct (matchNodes ns (c :: s)) as [m'|] eqn:E.
    + intros [= <- <-]. exists (c :: s). split; [exact E | reflexivity].
    + intros Hrec. destruct (IH _ _ _ Hrec) as (s' & H1 & H2).
      exists s'. split; [exact H1|]. rewrite <- H2, <- app_assoc. reflexivity.
Qed.

Lemma exec_at_start (ns : list node) (s : jsstring) (m : matchResult) :
  matchNodes ns s = Some m -> exec ns s = Some ([], m).
Proof. intros H. unfold exec. destruct s; cbn [execFrom]; rewrite H; reflexivity. Qed.

End Sections.

Section SectionProperties.

(** X6.  [additionalDetails] never carries text: for every document and
    every override record it is undefined or the empty string, because the
    pattern that finds the section is also the pattern removed from what it
    found. *)
Theorem additionalDetails_never_has_text
    (doc : option jsstring) (ov : gmap string jsstring) :
  additionalDetails (extractCodebaseInfo doc ov) = None \/
  additionalDetails (extractCodebaseInfo doc ov) = Some [].
Proof.
  destruct doc as [doc|]; [|left; reflexivity].
  destruct (truthy doc) eqn:Hd; [|destruct doc; [left; reflexivity | discriminate]].
  rewrite (final_additionalDetails doc ov Hd). unfold extractAdditional.
  destruct (exec additionalRe doc) as [[b m]|] eqn:E; [|left; reflexivity].
  right. cbn [additionalDetails]. f_equal.
  destruct (execFrom_matches additionalRe doc [] b m E) as (s' & Hm & _).
  unfold additionalRe, lit in Hm.
  destruct (heading_section _ _ s' m Hm) as (h & mid & t & H1 & _ & _ & _ & _ & _ & H7).
  unfold removeFirst. rewrite H1.
  change additionalRe
    with (map NChar (str "## 4. Customer Model") ++ lazyAny :: map NChar (str "## 5.")).
  rewrite (exec_at_start _ _ _ H7). reflexivity.
Qed.

(** X7.  When the document has a section from the heading
    ["## 2. File Structure & Paths"] to the next ["## 3."], [stackDetails]
    is the text between the two, trimmed: the matched text splits into the
    heading, a middle and the closing text, and the middle trimmed is what
    is returned. *)
Theorem stackDetails_is_section_body
    (doc : jsstring) (ov : gmap string jsstring) (b : jsstring) (m : matchResult) :
  exec stackRe doc = Some (b, m) ->
  exists h mid t,
    doc = b ++ h ++ mid ++ t ++ rest m /\
    length h = length (str "## 2. File Structure & Paths") /\
    length t = length (str "## 3.") /\
    stackDetails (extractCodebaseInfo (Some doc) ov) = Some (trim mid).
Proof.
  intros E.
  assert (Hd : truthy doc = true).
  { destruct doc; [discriminate E | reflexivity]. }
  destruct (execFrom_matches stackRe doc [] b m E) as (s' & Hm & Hdoc).
  unfold stackRe, stackHeadRe, stackTailRe, lit in Hm.
  destruct (heading_section _ _ s' m Hm) as (h & mid & t & H1 & H2 & H3 & H4 & H5 & H6 & _).
  exists h, mid, t. repeat split; try assumption.
  - cbn [app] in Hdoc. rewrite Hdoc, H2, H1, <- !app_assoc. reflexivity.
  - rewrite (final_stackDetails doc ov Hd). unfold extractStack. rewrite E.
    cbn [stackDetails]. f_equal. f_equal.
    unfold removeFirst at 2. unfold stackHeadRe, lit. rewrite H1.
    rewrite (exec_at_start _ _ _ H5). cbn [rest app].
    unfold removeFirst, stackTailRe, lit, exec. rewrite (H6 []).
    cbn [rest app]. apply app_nil_r.
Qed.

Lemma stackDetails_is_section_body_witness :
  let doc := str "x ## 2. file structure & paths" ++ ["010"] ++ str " src/lib " ++ ["010"]
             ++ str "## 3. Authentication" in
  exists b m,
    exec stackRe doc = Some (b, m) /\
    exists h mid t,
      doc = b ++ h ++ mid ++ t ++ rest m /\
      length h = length (str "## 2. File Structure & Paths") /\
      length t = length (str "## 3.") /\
      stackDetails (extractCodebaseInfo (Some doc) ∅) = Some (trim mid).
Proof.
  intros doc. eexists. eexists. split; [vm_compute; reflexivity|].
  apply (stackDetails_is_section_body doc ∅). vm_compute. reflexivity.
Defined.

End SectionProperties.

(* ===================================================================== *)
(** * Answers are lines of the document *)
(* ===================================================================== *)

Section Answers.

Lemma occursIn_after (g taken x : jsstring) : occursIn g x -> occursIn g (taken ++ x).
Proof.
  intros (pre & post & ->). exists (taken ++ pre), post. rewrite <- app_assoc. reflexivity.
Qed.

Lemma leave_captured (k : jsstring -> option matchResult) (taken s : jsstring)
    (m : matchResult) :
  splitting k -> forallb (inClass NotNewline) taken = true ->
  leaveRepeat true true k taken s = Some m ->
  taken ++ s = matched m ++ rest m /\
  exists g, group1 m = Some g /\ lineText g = true /\ occursIn g (matched m).
Proof.
  intros Hk Ht. unfold leaveRepeat. cbn [andb].
  destruct (truthy taken) eqn:Hn; [|discriminate]. cbn [negb].
  destruct (k s) as [m'|] eqn:E; [|discriminate]. intros [= <-].
  cbn [matched rest group1]. split.
  - rewrite (Hk s m' E) at 1. apply app_assoc.
  - exists taken. split; [reflexivity|]. split.
    + unfold lineText. rewrite Hn, Ht. reflexivity.
    + exists [], (matched m'). reflexivity.
Qed.

Lemma greedy_captured (k : jsstring -> option matchResult) :
  splitting k ->
  forall (s taken : jsstring) (m : matchResult),
    forallb (inClass NotNewline) taken = true ->
    greedyRepeat NotNewline true true k taken s = Some m ->
    taken ++ s = matched m ++ rest m /\
    exists g, group1 m = Some g /\ lineText g = true /\ occursIn g (matched m).
Proof.
  intros Hk s. induction s as [|c s IH]; intros taken m Ht; cbn [greedyRepeat].
  - apply leave_captured; assumption.
  - destruct (inClass NotNewline c) eqn:Hc; [|apply leave_captured; assumption].
    destruct (greedyRepeat NotNewline true true k (taken ++ [c]) s) as [m'|] eqn:E.
    + intros [= <-].
      assert (Ht' : forallb (inClass NotNewline) (taken ++ [c]) = true).
      { rewrite forallb_app, Ht. cbn [forallb]. rewrite Hc. reflexivity. }
      destruct (IH _ _ Ht' E) as [H1 H2]. split; [|exact H2].
      rewrite <- H1, <- app_assoc. reflexivity.
    + apply leave_captured; assumption.
Qed.

Lemma leave_uncaptured (k : jsstring -> option matchResult) (atLeastOne : bool)
    (taken s : jsstring) (m : matchResult) :
  answering k ->
  leaveRepeat atLeastOne false k taken s = Some m ->
  taken ++ s = matched m ++ rest m /\
  exists g, group1 m = Some g /\ lineText g = true /\ occursIn g (matched m).
Proof.
  intros Hk. unfold leaveRepeat.
  destruct (atLeastOne && negb (truthy taken)); [discriminate|].
  destruct (k s) as [m'|] eqn:E; [|discriminate]. intros [= <-].
  cbn [matched rest group1]. destruct (Hk s m' E) as (H1 & g & H2 & H3 & H4). split.
  - rewrite H1 at 1. apply app_assoc.
  - exists g. split; [exact H2|]. split; [exact H3|]. apply occursIn_after, H4.
Qed.

Lemma greedy_uncaptured (k : jsstring -> option matchResult) (cls : cclass)
    (atLeastOne : bool) :
  answering k ->
  forall (s taken : jsstring) (m : matchResult),
    greedyRepeat cls atLeastOne false k taken s = Some m ->
    taken ++ s = matched m ++ rest m /\
    exists g, group1 m = Some g /\ lineText g = true /\ occursIn g (matched m).
Proof.
  intros Hk s. induction s as [|c s IH]; intros taken m; cbn [greedyRepeat].
  - apply leave_uncaptured, Hk.
  - destruct (inClass cls c); [|apply leave_uncaptured, Hk].
    destruct (greedyRepeat cls atLeastOne false k (taken ++ [c]) s) as [m'|] eqn:E.
    + intros [= <-]. destruct (IH _ _ E) as [H1 H2]. split; [|exact H2].
      rewrite <- H1, <- app_assoc. reflexivity.
    + apply leave_uncaptured, Hk.
Qed.

Lemma lazy_uncaptured (k : jsstring -> option matchResult) (cls : cclass)
    (atLeastOne : bool) :
  answering k ->
  forall (s taken : jsstring) (m : matchResult),
    lazyRepeat cls atLeastOne false k taken s = Some m ->
    taken ++ s = matched m ++ rest m /\
    exists g, group1 m = Some g /\ lineText g = true /\ occursIn g (matched m).
Proof.
  intros Hk s. induction s as [|c s IH]; intros taken m; cbn [lazyRepeat].
  - destruct (leaveRepeat atLeastOne false k taken []) as [m'|] eqn:E; [|discriminate].
    intros [= <-]. exact (leave_uncaptured _ _ _ _ _ Hk E).
  - destruct (leaveRepeat atLeastOne false k taken (c :: s)) as [m'|] eqn:E.
    + intros [= <-]. exact (leave_uncaptured _ _ _ _ _ Hk E).
    + destruct (inClass cls c); [|discriminate]. intros Hrec.
      destruct (IH _ _ Hrec) as [H1 H2]. split; [|exact H2].
      rewrite <- H1, <- app_assoc. reflexivity.
Qed.

(** A pattern whose only group is the closing [([^\n]+)]: every match
    records a line text of the input. *)
Lemma matchNodes_answering (ns : list node) :
  forallb uncaptured ns = true -> answering (matchNodes (ns ++ [captureLine])).
Proof.
  induction ns as [|n ns IH]; intros Hu s m.
  - cbn [app matchNodes captureLine]. intros Hm.
    apply (greedy_captured (matchNodes [])) in Hm; [exact Hm | | reflexivity].
    intros s0 m0 [= <-]. reflexivity.
  - cbn [forallb] in Hu. apply andb_true_iff in Hu as [Hn Hu]. specialize (IH Hu).
    cbn [app matchNodes]. destruct n as [c|cls atLeastOne greedy captured].
    + destruct s as [|d s]; [discriminate|].
      destruct (eqbCI c d); [|discriminate]. unfold consumed.
      destruct (matchNodes (ns ++ [captureLine]) s) as [m'|] eqn:E; [|discriminate].
      intros [= <-]. cbn [matched rest group1].
      destruct (IH s m' E) as (H1 & g & H2 & H3 & H4). split.
      * cbn [app]. f_equal. exact H1.
      * exists g. split; [exact H2|]. split; [exact H3|].
        apply (occursIn_after g [d]), H4.
    + cbn [uncaptured] in Hn. apply negb_true_iff in Hn. subst captured.
      destruct greedy.
      * apply (greedy_uncaptured _ cls atLeastOne IH s []).
      * apply (lazy_uncaptured _ cls atLeastOne IH s []).
Qed.

Lemma answer_line (ns : list node) (doc g : jsstring) :
  forallb uncaptured ns = true ->
  answer (ns ++ [captureLine]) doc = Some g ->
  lineText g = true /\ occursIn g doc.
Proof.
  intros Hu. unfold answer.
  destruct (exec (ns ++ [captureLine]) doc) as [[b m]|] eqn:E; [|discriminate].
  intros Hg. destruct (execFrom_matches _ _ _ _ _ E) as (s' & Hm & Hdoc).
  destruct (matchNodes_answering ns Hu s' m Hm) as (H1 & g' & H2 & H3 & H4).
  rewrite Hg in H2. injection H2 as <-. split; [exact H3|].
  cbn [app] in Hdoc. rewrite Hdoc, H1. apply occursIn_after.
  destruct H4 as (pre & post & ->). exists pre, (post ++ rest m).
  rewrite <- !app_assoc. reflexivity.
Qed.

Lemma lit_uncaptured (x : string) : forallb uncaptured (lit x) = true.
Proof. unfold lit. induction (str x) as [|c l IH]; [reflexivity | exact IH]. Qed.

Lemma answerTo_line (question : string) (doc g : jsstring) :
  answer (answerTo (lit question)) doc = Some g -> lineText g = true /\ occursIn g doc.
Proof.
  unfold answerTo.
  replace (lit question ++ [restOfLine; NChar "010"] ++ lit "- " ++ [captureLine])
    with ((lit question ++ [restOfLine; NChar "010"] ++ lit "- ") ++ [captureLine])
    by (rewrite <- !app_assoc; reflexivity).
  apply answer_line. rewrite forallb_app, lit_uncaptured. reflexivity.
Qed.

Lemma answerUnder_line (heading question : string) (doc g : jsstring) :
  answer (answerUnder (lit heading) (lit question)) doc = Some g ->
  lineText g = true /\ occursIn g doc.
Proof.
  unfold answerUnder, answerTo.
  replace (lit heading ++ [lazyAny] ++
           lit question ++ [restOfLine; NChar "010"] ++ lit "- " ++ [captureLine])
    with ((lit heading ++ [lazyAny] ++
           lit question ++ [restOfLine; NChar "010"] ++ lit "- ") ++ [captureLine])
    by (rewrite <- !app_assoc; reflexivity).
  apply answer_line. rewrite !forallb_app, !lit_uncaptured. reflexivity.
Qed.

Lemma trim_line (g : jsstring) :
  forallb (inClass NotNewline) g = true -> forallb (inClass NotNewline) (trim g) = true.
Proof.
  destruct (trim_part g) as (a & b & Hg). intros H. rewrite Hg in H.
  rewrite !forallb_app in H. apply andb_true_iff in H as [_ H].
  apply andb_true_iff in H as [H _]. exact H.
Qed.

Lemma trim_occursIn (g doc : jsstring) : occursIn g doc -> occursIn (trim g) doc.
Proof.
  intros (pre & post & ->). destruct (trim_part g) as (a & b & Hg).
  exists (pre ++ a), (b ++ post). rewrite <- !app_assoc.
  f_equal. rewrite !app_assoc. f_equal. rewrite <- app_assoc. exact Hg.
Qed.

End Answers.

Section AnswerProperties.

(** X8.  A path that [extractCodebaseInfo] reads from the document is taken
    from the document itself: for each of the eight answered roles, when the
    question has an answer, the answer is a non-empty piece of the document
    without a line feed, and the role holds a piece of the document without
    a line feed. *)
Theorem answered_paths_are_document_text
    (doc : jsstring) (ov : gmap string jsstring) (role question : string) (g : jsstring) :
  In (role, question) answeredRoles ->
  answer (answerTo (lit question)) doc = Some g ->
  lineText g = true /\ occursIn g doc /\
  exists v, filePaths (extractCodebaseInfo (Some doc) ov) !! role = Some v /\
            occursIn v doc /\ forallb (inClass NotNewline) v = true.
Proof.
  intros Hin Hg. destruct (answerTo_line question doc g Hg) as [Hl Ho].
  split; [exact Hl|]. split; [exact Ho|].
  exists (trim g). split; [|split].
  - assert (Hd : truthy doc = true).
    { destruct doc; [|reflexivity]. unfold answeredRoles in Hin. cbn [In] in Hin.
      repeat (destruct Hin as [[= <- <-]|Hin]; [discriminate Hg|]). destruct Hin. }
    rewrite extractCodebaseInfo_steps by assumption.
    unfold answeredRoles in Hin. cbn [In] in Hin.
    repeat (destruct Hin as [[= <- <-]|Hin]; [lookup_steps; rewrite Hg; reflexivity|]).
    destruct Hin.
  - apply trim_occursIn, Ho.
  - apply trim_line. unfold lineText in Hl. apply andb_true_iff in Hl as [_ Hl]. exact Hl.
Qed.

Lemma answered_paths_are_document_text_witness :
  let doc := str "Where are UI components located? (folder)" ++ ["010"] ++
             str "-  app/ui " ++ ["010"] ++ str "- more" in
  In ("componentsPath", "Where are UI components located?")%string answeredRoles /\
  answer (answerTo (lit "Where are UI components located?")) doc = Some (str " app/ui ") /\
  exists v, filePaths (extractCodebaseInfo (Some doc) ∅) !! "componentsPath"%string = Some v /\
            occursIn v doc /\ forallb (inClass NotNewline) v = true.
Proof.
  intros doc.
  assert (H : In ("componentsPath", "Where are UI components located?")%string
                answeredRoles) by (vm_compute; tauto).
  assert (Hg : answer (answerTo (lit "Where are UI components located?")) doc
               = Some (str " app/ui ")) by (vm_compute; reflexivity).
  split; [exact H|]. split; [exact Hg|].
  exact (proj2 (proj2 (answered_paths_are_document_text doc ∅ _ _ _ H Hg))).
Defined.

Lemma keyword_in_document (kw doc g : jsstring) :
  answer authRe doc = Some g ->
  includes kw (toLowerCase g) = true -> includes kw (toLowerCase doc) = true.
Proof.
  intros Hg Hk. unfold authRe in Hg.
  destruct (answerUnder_line _ _ doc g Hg) as [_ (pre & post & ->)].
  apply includes_lower_mid, Hk.
Qed.

Lemma keyword_not_in_trim (kw g : jsstring) :
  includes kw (toLowerCase g) = false -> includes kw (toLowerCase (trim g)) = false.
Proof.
  intros H. destruct (trim_part g) as (a & b & Hg). rewrite Hg in H.
  exact (includes_lower_part _ _ _ _ H).
Qed.

(** X9.  The authentication key that [getAuthKey] reads from a whole
    document never falls behind the library that [extractCodebaseInfo] names
    for the same document: when the library is ["Supabase"] the key is
    [supabase]; when it is ["Clerk"] the key is [clerk] or [supabase]; when
    it is ["NextAuth"] the key is not [custom]. *)
Theorem authKey_of_document_follows_library (doc : jsstring) (ov : gmap string jsstring) :
  let info := extractCodebaseInfo (Some doc) ov in
  (authLibrary info = str "Supabase" -> getAuthKey doc = AuthSupabase) /\
  (authLibrary info = str "Clerk" ->
     getAuthKey doc = AuthClerk \/ getAuthKey doc = AuthSupabase) /\
  (authLibrary info = str "NextAuth" -> getAuthKey doc <> AuthCustom).
Proof.
  cbv zeta. destruct (truthy doc) eqn:Hd.
  2:{ destruct doc; [|discriminate]. repeat split; intros H; vm_compute in H; discriminate. }
  rewrite extractCodebaseInfo_authLibrary by assumption.
  unfold extractAuth.
  destruct (answer authRe doc) as [g|] eqn:Hg.
  2:{ rewrite extractLanguage_keeps_authLibrary, extractFramework_keeps_authLibrary.
      repeat split; intros H; vm_compute in H; discriminate. }
  cbv zeta. unfold getAuthKey. cbv zeta.
  destruct (includes (str "clerk") (toLowerCase g)) eqn:Hc.
  { rewrite (keyword_in_document _ _ _ Hg Hc).
    cbn [authLibrary setAuthLibrary].
    split; [intros H; vm_compute in H; discriminate|].
    split; [|intros H; vm_compute in H; discriminate].
    intros _. destruct (includes (str "supabase") (toLowerCase doc)); [right|left]; reflexivity. }
  destruct (includes (str "supabase") (toLowerCase g)) eqn:Hs.
  { rewrite (keyword_in_document _ _ _ Hg Hs).
    cbn [authLibrary setAuthLibrary].
    split; [reflexivity|].
    split; intros H; vm_compute in H; discriminate. }
  destruct (includes (str "nextauth") (toLowerCase g) ||
            includes (str "next-auth") (toLowerCase g)) eqn:Hn.
  { cbn [authLibrary setAuthLibrary].
    split; [intros H; vm_compute in H; discriminate|].
    split; [intros H; vm_compute in H; discriminate|].
    intros _. apply orb_true_iff in Hn as [Hn|Hn];
      rewrite (keyword_in_document _ _ _ Hg Hn), ?orb_true_r; cbn [orb];
      repeat case_match; discriminate. }
  apply orb_false_iff in Hn as [Hn1 Hn2].
  apply keyword_not_in_trim in Hc, Hs, Hn1, Hn2.
  cbn [authLibrary setAuthLibrary].
  split; [|split]; intros H; rewrite H in *; vm_compute in Hc, Hs, Hn1, Hn2; discriminate.
Qed.

Lemma authKey_of_document_follows_library_witness :
  let doc := authSection "Clerk, with a Supabase database" in
  authLibrary (extractCodebaseInfo (Some doc) ∅) = str "Clerk" /\
  (getAuthKey doc = AuthClerk \/ getAuthKey doc = AuthSupabase).
Proof.
  intros doc.
  assert (H : authLibrary (extractCodebaseInfo (Some doc) ∅) = str "Clerk")
    by (vm_compute; reflexivity).
  split; [exact H|].
  exact (proj1 (proj2 (authKey_of_document_follows_library doc ∅)) H).
Defined.

End AnswerProperties.

(* ===================================================================== *)
(** * Further properties of the tools *)
(* ===================================================================== *)

Section Credential.

Lemma trim_nil_blank (s : jsstring) : truthy s = false -> truthy (trim s) = false.
Proof. destruct s; [reflexivity | discriminate]. Qed.

(** X10.  A credential that [getSetupInstructions] resolves is never blank;
    a constructor argument that is not blank is taken as it is, neither
    trimmed nor looked at for a ["Bearer "] prefix, and the environment is
    not consulted; with a blank argument the credential is the environment
    value, with a leading ["Bearer "] stripped and the remainder trimmed. *)
Theorem resolveApiKey_never_blank (apiKey : jsstring) (w : World) (key : jsstring) :
  resolveApiKey apiKey w = Normal key ->
  truthy (trim key) = true /\
  (truthy (trim apiKey) = true -> key = apiKey) /\
  (truthy (trim apiKey) = false ->
     exists env, envMcpApiKey w = Some env /\
       key = match stripPrefix (str "Bearer ") env with
             | Some r => trim r
             | None => env
             end).
Proof.
  unfold resolveApiKey. cbv zeta.
  destruct (truthy apiKey) eqn:Ha; cbn [negb orb].
  - destruct (truthy (trim apiKey)) eqn:Hta; cbn [negb].
    + rewrite Ha, Hta. cbn [negb orb]. intros [= <-].
      split; [exact Hta|]. split; [reflexivity | discriminate].
    + destruct (envMcpApiKey w) as [env|]; cbn [from_option id].
      * set (k := match stripPrefix (str "Bearer ") env with
                  | Some r => trim r | None => env end).
        destruct (truthy k) eqn:Hk; cbn [negb orb]; [|discriminate].
        destruct (truthy (trim k)) eqn:Htk; cbn [negb]; [|discriminate].
        intros [= <-]. split; [exact Htk|]. split; [discriminate|].
        intros _. exists env. split; reflexivity.
      * discriminate.
  - rewrite (trim_nil_blank _ Ha).
    destruct (envMcpApiKey w) as [env|]; cbn [from_option id].
    + set (k := match stripPrefix (str "Bearer ") env with
                | Some r => trim r | None => env end).
      destruct (truthy k) eqn:Hk; cbn [negb orb]; [|discriminate].
      destruct (truthy (trim k)) eqn:Htk; cbn [negb]; [|discriminate].
      intros [= <-]. split; [exact Htk|]. split; [discriminate|].
      intros _. exists env. split; reflexivity.
    + discriminate.
Qed.

Lemma resolveApiKey_never_blank_witness :
  resolveApiKey (str "  ") meteredWorld = Normal (str "sk_live_1") /\
  truthy (trim (str "sk_live_1")) = true.
Proof.
  assert (H : resolveApiKey (str "  ") meteredWorld = Normal (str "sk_live_1"))
    by (vm_compute; reflexivity).
  split; [exact H|].
  exact (proj1 (resolveApiKey_never_blank (str "  ") meteredWorld (str "sk_live_1") H)).
Defined.

End Credential.

Section ToolProperties.

Variable buildTemplateReplacements :
  TemplateReplacementContext -> completion (list (jsstring * jsstring)).
Variables trialsBlock usageBlock toggleBlock : jsstring.

Local Abbreviation generate' :=
  (generate buildTemplateReplacements trialsBlock usageBlock toggleBlock).
Local Abbreviation getSetupInstructions' :=
  (getSetupInstructions buildTemplateReplacements trialsBlock usageBlock toggleBlock).

Ltac unfold_run :=
  cbv [mbind run_bind mret run_ret step finish propagate trace result fst snd].

(** X11.  [getSetupInstructions] takes no step at all exactly when no
    credential is resolved, and then it raises the error about the missing
    API key, whatever its arguments are: files are not delegated, no
    document is read. *)
Theorem no_step_without_credential (apiKey : jsstring) (w : World) (args : Args) :
  (trace (getSetupInstructions' apiKey w args) = [] <->
   resolveApiKey apiKey w = Throw noApiKeyMessage) /\
  (trace (getSetupInstructions' apiKey w args) = [] ->
   result (getSetupInstructions' apiKey w args) = Throw noApiKeyMessage).
Proof.
  destruct (resolveApiKey_cases apiKey w) as [[key Hkey]|Hno].
  - assert (Hne : trace (getSetupInstructions' apiKey w args) <> []).
    { destruct (analysisRequired args) eqn:Hreq.
      - rewrite (getSetupInstructions_delegates _ _ _ _ _ key) by assumption. discriminate.
      - rewrite (getSetupInstructions_generates _ _ _ _ _ key) by assumption.
        destruct (generate_extracts buildTemplateReplacements trialsBlock usageBlock
                    toggleBlock w key args) as [t ->]. discriminate. }
    split; [split|]; intros H; congruence.
  - rewrite (getSetupInstructions_no_key _ _ _ _ _ noApiKeyMessage) by assumption.
    split; [split|]; intros _; (reflexivity || exact Hno).
Qed.


(** X13.  Whenever a call with a non-empty analysis document returns a
    document, that document opens with the analysis header followed by the
    analysis document itself, word for word: the analysis is put in front
    after the substitution, so no token of it is replaced. *)
Theorem analysis_is_echoed
    (apiKey : jsstring) (w : World) (args : Args) (doc out : jsstring) :
  codebaseAnalysis args = Some doc -> truthy doc = true ->
  result (getSetupInstructions' apiKey w args) = Normal out ->
  exists tail, out = analysisHeader ++ doc ++ tail.
Proof.
  intros Hdoc Htruthy.
  assert (Hreq : analysisRequired args = false).
  { apply analysisRequired_false. right. right. rewrite Hdoc. cbn [falsy].
    rewrite Htruthy. reflexivity. }
  destruct (resolveApiKey_cases apiKey w) as [[key Hkey]|Hno].
  2:{ rewrite (getSetupInstructions_no_key _ _ _ _ _ noApiKeyMessage) by assumption.
      discriminate. }
  rewrite (getSetupInstructions_generates _ _ _ _ _ key) by assumption.
  assert (Hecho : forall text tail',
    exists tail, withAnalysis (codebaseAnalysis args) text ++ tail'
                 = analysisHeader ++ doc ++ tail).
  { intros text tail'. rewrite Hdoc. cbn [withAnalysis]. rewrite Htruthy.
    eexists. unfold analysisHeader. rewrite <- !app_assoc. reflexivity. }
  cbv [generate fetchPricingModel assemble]. unfold_run.
  repeat (case_match; subst; unfold_run; simplify_eq);
    try discriminate; intros [= <-]; apply Hecho.
Qed.

End ToolProperties.

Section ToolWitnesses.

Lemma no_step_without_credential_witness :
  trace (getSetupInstructions sampleTokens [] [] [] (str " ") sampleWorld filesOnly) = [] /\
  result (getSetupInstructions sampleTokens [] [] [] (str " ") sampleWorld filesOnly)
  = Throw noApiKeyMessage.
Proof.
  assert (H : trace (getSetupInstructions sampleTokens [] [] [] (str " ") sampleWorld
                       filesOnly) = []) by reflexivity.
  split; [exact H|].
  exact (proj2 (no_step_without_credential sampleTokens [] [] [] (str " ") sampleWorld
                  filesOnly) H).
Defined.


Lemma analysis_is_echoed_witness :
  exists out tail,
    result (getSetupInstructions sampleTokens [] [] [] (str "sk_test_1") sampleWorld analysed)
    = Normal out /\
    out = analysisHeader ++ str "The app uses Next.js." ++ tail.
Proof.
  eexists.
  assert (H : result (getSetupInstructions sampleTokens [] [] [] (str "sk_test_1")
                        sampleWorld analysed) = Normal _) by (vm_compute; reflexivity).
  destruct (analysis_is_echoed sampleTokens [] [] [] (str "sk_test_1") sampleWorld analysed
              (str "The app uses Next.js.") _ eq_refl eq_refl H) as [tail Htail].
  exists tail. split; [exact H | exact Htail].
Defined.

End ToolWitnesses.

(* ===================================================================== *)
(** * The analysis request *)
(* ===================================================================== *)

Section AnalysisRequest.

Lemma join_occursIn (sep x : jsstring) (l : list jsstring) :
  In x l -> occursIn x (join sep l).
Proof.
  induction l as [|p l IH]; [intros []|]. intros Hin.
  destruct l as [|q l].
  - destruct Hin as [->|[]]. exists [], []. cbn [join app]. symmetry. apply app_nil_r.
  - cbn [join]. destruct Hin as [->|Hin].
    + exists [], (sep ++ join sep (q :: l)). reflexivity.
    + apply occursIn_after, occursIn_after, IH, Hin.
Qed.

Lemma filter_none {A : Type} (p : A -> bool) (l : list A) :
  (forall x, In x l -> p x = false) -> List.filter p l = [].
Proof.
  induction l as [|x l IH]; intros H; [reflexivity|]. cbn [List.filter].
  rewrite (H x (or_introl eq_refl)). apply IH. intros y Hy. apply H. right. exact Hy.
Qed.

(** X14.  [analyzeCodebase], entered with an array of files, always answers
    a text.  When no file has a path, the answer is the error object about
    the missing files, and the analysis prompt is not read.  When some file
    has a path: if the prompt loads, the answer opens with the prompt and
    shows every file that has a path in a block of its own, path and
    content in full; if the prompt cannot be read, the answer is the error
    text with the message of the failure. *)
Theorem analyzeCodebase_answers (w : World) (files : list FileContent) :
  ((forall f, In f files -> truthy (path f) = false) ->
   analyzeCodebase w files = noValidFilesText files) /\
  (forall f, In f files -> truthy (path f) = true ->
   match analysisPrompt w with
   | Gives prompt =>
       (exists tail, analyzeCodebase w files = prompt ++ tail) /\
       occursIn (fileBlock f) (analyzeCodebase w files)
   | Raises message =>
       analyzeCodebase w files = str "Error analyzing codebase: " ++ message
   end).
Proof.
  split.
  - intros H. unfold analyzeCodebase. cbv zeta. rewrite filter_none by exact H. reflexivity.
  - intros f Hin Hvalid. unfold analyzeCodebase. cbv zeta.
    assert (Hf : In f (List.filter (fun f => truthy (path f)) files)).
    { apply filter_In. split; assumption. }
    destruct (List.filter (fun f => truthy (path f)) files) as [|f0 valid] eqn:E;
      [destruct Hf|].
    cbn [length Nat.eqb]. destruct (analysisPrompt w) as [prompt|message]; [|reflexivity].
    split.
    + eexists. unfold fullAnalysisRequest. reflexivity.
    + unfold fullAnalysisRequest.
      do 9 apply occursIn_after. apply occursIn_app_l, join_occursIn, in_map, Hf.
Qed.

Lemma analyzeCodebase_answers_witness :
  In {| path := str "package.json"; content := str "{}" |} sampleFiles /\
  occursIn (fileBlock {| path := str "package.json"; content := str "{}" |})
    (analyzeCodebase sampleWorld sampleFiles).
Proof.
  assert (H : In {| path := str "package.json"; content := str "{}" |} sampleFiles)
    by (left; reflexivity).
  split; [exact H|].
  exact (proj2 (proj2 (analyzeCodebase_answers sampleWorld sampleFiles) _ H eq_refl)).
Defined.

End AnalysisRequest.

(* ===================================================================== *)
(** * The pricing instructions *)
(* ===================================================================== *)

Section PricingInstructions.

Lemma existsb_false_iff {A : Type} (f : A -> bool) (l : list A) :
  existsb f l = false <-> forall x, In x l -> f x = false.
Proof.
  induction l as [|a l IH]; cbn [existsb In].
  - split; [intros _ x [] | reflexivity].
  - rewrite orb_false_iff, IH. split.
    + intros [Ha Hl] x [<-|Hx]; [exact Ha | apply Hl, Hx].
    + intros H. split; [apply H; left; reflexivity | intros x Hx; apply H; right; exact Hx].
Qed.

Lemma instructions_empty (t u g : jsstring) (data : SetupPricingModelInput)
    (a : PricingModelAnalysis) :
  t <> [] -> u <> [] -> g <> [] ->
  (constructPricingModelInstructions t u g data a = [] <->
   hasTrials a = false /\ hasUsageMeters a = false /\ hasToggleFeatures a = false).
Proof.
  intros Ht Hu Hg. unfold constructPricingModelInstructions. cbv zeta.
  destruct t as [|t0 t]; [congruence|]. destruct u as [|u0 u]; [congruence|].
  destruct g as [|g0 g]; [congruence|].
  destruct (hasTrials a), (hasUsageMeters a), (hasToggleFeatures a); cbn [app join];
    split; try discriminate; try (intros (? & ? & ?); discriminate); auto.
Qed.

(** X15.  The instructions composed for a pricing model are empty exactly
    when the model gives nothing to say: no price of any product has a trial
    period, there is no usage meter, and no feature is a toggle (the three
    blocks of prose being non-empty).  So the pricing block of the returned
    document carries instructions exactly when the model has a trial, a
    meter or a toggle. *)
Theorem pricing_instructions_empty_iff
    (t u g : jsstring) (data : SetupPricingModelInput) :
  t <> [] -> u <> [] -> g <> [] ->
  (constructPricingModelInstructions t u g data (analyzePricingModel data) = [] <->
   (forall product price, In product (products data) -> In price (prices product) ->
      trialPeriodDays price = Undefined \/ trialPeriodDays price = Null) /\
   usageMeters data = [] /\
   (forall feature, In feature (features data) -> featureType feature <> Toggle)).
Proof.
  intros Ht Hu Hg. rewrite (instructions_empty t u g data _ Ht Hu Hg).
  cbn [analyzePricingModel hasTrials hasUsageMeters hasToggleFeatures].
  rewrite !existsb_false_iff.
  assert (H1 : (forall x, In x (products data) ->
                  existsb (fun price =>
                    negb (isUndefined (trialPeriodDays price)) &&
                    negb (isNull (trialPeriodDays price))) (prices x) = false) <->
               (forall product price, In product (products data) ->
                  In price (prices product) ->
                  trialPeriodDays price = Undefined \/ trialPeriodDays price = Null)).
  { split.
    - intros H product price Hp Hpr. specialize (H product Hp).
      rewrite existsb_false_iff in H. specialize (H price Hpr).
      destruct (trialPeriodDays price); cbn in H; auto; discriminate.
    - intros H product Hp. apply existsb_false_iff. intros price Hpr.
      destruct (H product price Hp Hpr) as [-> | ->]; reflexivity. }
  assert (H2 : (0 <? length (usageMeters data))%nat = false <-> usageMeters data = []).
  { destruct (usageMeters data); cbn; split; congruence. }
  assert (H3 : (forall x, In x (features data) ->
                  bool_decide (featureType x = Toggle) = false) <->
               (forall feature, In feature (features data) ->
                  featureType feature <> Toggle)).
  { split; intros H x Hx; specialize (H x Hx).
    - apply bool_decide_eq_false in H. exact H.
    - apply bool_decide_eq_false. exact H. }
  rewrite H1, H2, H3. reflexivity.
Qed.

Lemma pricing_instructions_empty_iff_witness :
  str "## Free Trials" <> [] /\
  constructPricingModelInstructions (str "## Free Trials") (str "## Usage-Based Pricing")
    (str "## Feature Access") sampleModel (analyzePricingModel sampleModel) = [].
Proof.
  assert (Ht : str "## Free Trials" <> []) by discriminate.
  assert (Hu : str "## Usage-Based Pricing" <> []) by discriminate.
  assert (Hg : str "## Feature Access" <> []) by discriminate.
  split; [exact Ht|].
  apply (proj2 (pricing_instructions_empty_iff _ _ _ sampleModel Ht Hu Hg)).
  split; [intros product price []|]. split; [reflexivity|]. intros feature [].
Defined.

End PricingInstructions.

(* ===================================================================== *)
(** * Further properties of the snippet resolver *)
(* ===================================================================== *)

Section ResolverProperties.

Lemma fold_assign_dom {K V E : Type} `{Countable K}
    (f : gmap K V -> E -> gmap K V) (kf : E -> K) (vf : E -> V) (pk : K) :
  (forall a x, f a x = if bool_decide (kf x = pk) then a else <[kf x := vf x]> a) ->
  forall (l : list E) (acc : gmap K V) (k : K),
    is_Some (fold_left f l acc !! k) <->
    (In k (map kf l) /\ k <> pk) \/ is_Some (acc !! k).
Proof.
  intros Hf l. induction l as [|x l IH]; intros acc k; cbn [fold_left map In].
  - tauto.
  - rewrite IH, Hf. destruct (bool_decide_reflect (kf x = pk)) as [Hpk|Hpk].
    + intuition congruence.
    + rewrite lookup_insert_is_Some. destruct (decide (kf x = k)); intuition congruence.
Qed.

Lemma fold_assign_from {K V E : Type} `{Countable K}
    (f : gmap K V -> E -> gmap K V) (kf : E -> K) (vf : E -> V) (pk : K) :
  (forall a x, f a x = if bool_decide (kf x = pk) then a else <[kf x := vf x]> a) ->
  forall (l : list E) (acc : gmap K V) (k : K) (v : V),
    fold_left f l acc !! k = Some v ->
    (exists x, In x l /\ kf x = k /\ vf x = v) \/ acc !! k = Some v.
Proof.
  intros Hf l. induction l as [|x l IH]; intros acc k v; cbn [fold_left].
  - auto.
  - intros Hl. destruct (IH _ _ _ Hl) as [(y & Hy & Hk & Hv)|Hacc].
    + left. exists y. split; [right; exact Hy | split; assumption].
    + rewrite Hf in Hacc. destruct (bool_decide (kf x = pk)); [right; exact Hacc|].
      apply lookup_insert_Some in Hacc as [[Hk Hv]|[_ Hacc]].
      * left. exists x. split; [left; reflexivity | split; assumption].
      * right. exact Hacc.
Qed.

(** X16.  When the library has a base level and an entry for the framework,
    the object that [resolveSnippets] returns has as own properties exactly
    the auth providers of the base level other than [__proto__], and has a
    replaced prototype exactly when the base level has an entry of that
    name; what it holds for a provider is the object filled for one of the
    provider's entries of the base level, whose names are exactly the
    resolved names of the keys of that entry other than [__proto__]: no
    snippet is dropped but under that name, and none is invented. *)
Theorem resolveSnippets_emits_exactly
    (snippets : SnippetLibrary) (frameworkKey : FrameworkKey)
    (fws : gmap string FrameworkEntry)
    (b : list (jsstring * list (jsstring * jsstring))) (framework : FrameworkEntry) :
  frameworks snippets = Some fws -> base snippets = Some b ->
  fws !! frameworkKeyName frameworkKey = Some framework ->
  exists resolved,
    resolveSnippets snippets frameworkKey = Normal (Some resolved) /\
    (forall authKey,
       is_Some (ownProviders resolved !! authKey) <->
       In authKey (map fst b) /\ authKey <> protoKey) /\
    (is_Some (prototype resolved) <-> In protoKey (map fst b)) /\
    (forall authKey m,
       ownProviders resolved !! authKey = Some m \/
       (authKey = protoKey /\ prototype resolved = Some m) ->
       exists authSnippets,
         In (authKey, authSnippets) b /\
         forall name,
           is_Some (m !! name) <->
           In name (map (fun e => resolvedName (fst e)) authSnippets) /\
           name <> protoKey).
Proof.
  intros Hfw Hb Hentry. unfold resolveSnippets. rewrite Hfw, Hb, Hentry.
  eexists. split; [reflexivity|].
  assert (Hown : forall a e,
    (fun (a : gmap jsstring (gmap jsstring jsstring))
         (e : jsstring * list (jsstring * jsstring)) =>
       if bool_decide (fst e = protoKey) then a
       else <[fst e := fold_left (resolveEntry framework) (snd e) ∅]> a) a e =
    if bool_decide (fst e = protoKey) then a
    else <[fst e := fold_left (resolveEntry framework) (snd e) ∅]> a)
    by reflexivity.
  assert (Hnames : forall snips name,
    is_Some (fold_left (resolveEntry framework) snips ∅ !! name) <->
    In name (map (fun e => resolvedName (fst e)) snips) /\ name <> protoKey).
  { intros snips name.
    rewrite (fold_assign_dom (resolveEntry framework) (fun e => resolvedName (fst e))
               (resolvedText framework) protoKey (resolveEntry_assign framework)).
    rewrite lookup_empty. split; [intros [Hn|[x Hx]]; [exact Hn | discriminate] | auto]. }
  split; [|split].
  - intros authKey. rewrite resolveAuth_own.
    rewrite (fold_assign_dom _ fst
               (fun e => fold_left (resolveEntry framework) (snd e) ∅) protoKey Hown).
    cbn [ownProviders]. rewrite lookup_empty.
    split; [intros [Hn|[x Hx]]; [exact Hn | discriminate] | auto].
  - rewrite resolveAuth_prototype_set. cbn [prototype].
    split; [intros [Hn|[x Hx]]; [exact Hn | discriminate] | auto].
  - intros authKey m [Hm|[-> Hm]].
    + rewrite resolveAuth_own in Hm.
      apply (fold_assign_from _ fst
               (fun e => fold_left (resolveEntry framework) (snd e) ∅) protoKey Hown) in Hm.
      destruct Hm as [([a snips] & Hin & Ha & Hv)|Hm];
        [|cbn [ownProviders] in Hm; rewrite lookup_empty in Hm; discriminate].
      cbn [fst snd] in Ha, Hv. subst a m. exists snips. split; [exact Hin | apply Hnames].
    + apply resolveAuth_prototype in Hm as [(snips & Hin & ->)|Hp]; [|discriminate Hp].
      exists snips. split; [exact Hin | apply Hnames].
Qed.

Lemma resolveSnippets_emits_exactly_witness :
  exists resolved,
    resolveSnippets sampleLibrary KeyNextjs = Normal (Some resolved) /\
    (is_Some (ownProviders resolved !! str "clerk") <->
     In (str "clerk") (map fst [(str "clerk",
              [(str "serverInitTemplate", str "import { FlowgladServer } from '{SERVER_PKG}'");
               (str "layoutProvider", str "<FlowgladProvider>")])]) /\
     str "clerk" <> protoKey).
Proof.
  destruct (resolveSnippets_emits_exactly sampleLibrary KeyNextjs
              {["nextjs"%string := sampleFramework]} _ sampleFramework
              eq_refl eq_refl eq_refl) as (resolved & Hr & Hdom & _).
  exists resolved. split; [exact Hr | apply Hdom].
Defined.

Lemma replaceGlobal_absent (M v s : jsstring) :
  includes M s = false -> replaceGlobal (map PChar M) v s = s.
Proof.
  unfold replaceGlobal. generalize (@nil ascii) as before.
  generalize (S (length s)) as fuel. intros fuel; revert s.
  induction fuel as [|fuel IH]; intros s before Habs; [reflexivity|].
  cbn [replaceLoop]. rewrite matchItems_PChar.
  destruct s as [|c s].
  - cbn [includes] in Habs. destruct (stripPrefix M []); [discriminate | reflexivity].
  - cbn [includes] in Habs. destruct (stripPrefix M (c :: s)); [discriminate|].
    f_equal. apply IH, Habs.
Qed.

(** X17.  A template value in which none of the three package markers
    occurs is resolved to itself, whatever the package names of the
    framework entry are, dollar signs included. *)
Theorem resolveValue_without_markers (framework : FrameworkEntry) (value : jsstring) :
  includes serverMarker value = false ->
  includes providerMarker value = false ->
  includes billingHookMarker value = false ->
  resolveValue framework value = value.
Proof.
  intros Hs Hp Hb. unfold resolveValue, markerRe.
  rewrite (replaceGlobal_absent serverMarker _ value Hs).
  rewrite (replaceGlobal_absent providerMarker _ value Hp).
  apply replaceGlobal_absent, Hb.
Qed.

Lemma resolveValue_without_markers_witness :
  resolveValue {| serverPkg := str "$&"; providerPkg := str "$'"; billingHookPkg := str "$$" |}
    (str "<FlowgladProvider loadBilling={true}>")
  = str "<FlowgladProvider loadBilling={true}>".
Proof.
  apply resolveValue_without_markers; vm_compute; reflexivity.
Defined.

End ResolverProperties.

(* ===================================================================== *)
(** * Further properties of the replacement engine *)
(* ===================================================================== *)

Section EngineProperties.

Lemma lookupName_In (n v : jsstring) (l : list (jsstring * jsstring)) :
  List.NoDup (map fst l) -> (lookupName n l = Some v <-> In (n, v) l).
Proof.
  induction l as [|[n' v'] l IH]; cbn [map fst lookupName In].
  - intros _. split; [discriminate | intros []].
  - intros Hnd. inversion Hnd as [|? ? Hnot Hnd']; subst.
    destruct (decide (n' = n)) as [->|Hne].
    + split.
      * intros [= ->]. left. reflexivity.
      * intros [[= ->]|Hin]; [reflexivity|].
        exfalso. apply Hnot. change n with (fst (n, v)). apply in_map, Hin.
    + rewrite (IH Hnd'). split; [auto|]. intros [[= -> _]|Hin]; [congruence | exact Hin].
Qed.

Lemma lookupName_perm (n : jsstring) (l l' : list (jsstring * jsstring)) :
  Permutation l l' -> List.NoDup (map fst l) -> lookupName n l' = lookupName n l.
Proof.
  intros Hp Hnd.
  assert (Hnd' : List.NoDup (map fst l')).
  { eapply Permutation_NoDup; [apply Permutation_map, Hp | exact Hnd]. }
  destruct (lookupName n l) as [v|] eqn:E.
  - apply (lookupName_In n v l' Hnd'). eapply Permutation_in; [exact Hp|].
    apply (lookupName_In n v l Hnd), E.
  - destruct (lookupName n l') as [v|] eqn:E'; [|reflexivity].
    apply (lookupName_In n v l' Hnd') in E'.
    apply (Permutation_in _ (Permutation_sym Hp)) in E'.
    apply (lookupName_In n v l Hnd) in E'. congruence.
Qed.

(** X18.  On a template made of tokens [{NAME}] and of text without opening
    brace, with names that are plain and pairwise distinct and values free
    of opening braces and dollar signs, the order of the entries of the
    token map does not matter: every arrangement of the map gives the same
    document. *)
Theorem applyTemplateReplacements_any_order
    (l l' : list (jsstring * jsstring)) (ps : list piece) :
  Permutation l l' -> List.NoDup (map fst l) ->
  forallb wfEntry l = true -> forallb wfPiece ps = true ->
  applyTemplateReplacements (render ps) (tokenEntries l') =
  applyTemplateReplacements (render ps) (tokenEntries l).
Proof.
  intros Hp Hnd Hl Hps.
  assert (Hl' : forallb wfEntry l' = true).
  { apply forallb_forall. intros e He. rewrite forallb_forall in Hl. apply Hl.
    eapply Permutation_in; [apply Permutation_sym, Hp | exact He]. }
  rewrite !applyTemplateReplacements_pieces by assumption.
  f_equal. unfold substitute. f_equal. apply map_ext. intros [t|n]; [reflexivity|].
  cbn [substitutePiece]. rewrite (lookupName_perm n l l' Hp Hnd). reflexivity.
Qed.

Lemma applyTemplateReplacements_any_order_witness :
  applyTemplateReplacements (str "a {FRAMEWORK} app in {LANGUAGE}")
    [(str "{LANGUAGE}", str "TypeScript"); (str "{FRAMEWORK}", str "Next.js")] =
  applyTemplateReplacements (str "a {FRAMEWORK} app in {LANGUAGE}")
    [(str "{FRAMEWORK}", str "Next.js"); (str "{LANGUAGE}", str "TypeScript")].
Proof.
  refine (applyTemplateReplacements_any_order
            [(str "FRAMEWORK", str "Next.js"); (str "LANGUAGE", str "TypeScript")]
            [(str "LANGUAGE", str "TypeScript"); (str "FRAMEWORK", str "Next.js")]
            [Text (str "a "); Token (str "FRAMEWORK"); Text (str " app in ");
             Token (str "LANGUAGE")] _ _ eq_refl eq_refl).
  - apply perm_swap.
  - repeat constructor; cbn; intuition discriminate.
Defined.

Lemma empty_pattern_loop (v : jsstring) :
  dollarFree v = true ->
  forall (fuel : nat) (s before : jsstring),
    length s < fuel -> replaceLoop [] v fuel before s = interleave v s.
Proof.
  intros Hv fuel. induction fuel as [|fuel IH]; intros s before Hlen; [lia|].
  cbn [replaceLoop matchItems]. rewrite getSubstitution_dollarFree by assumption.
  destruct s as [|c s].
  - unfold interleave. rewrite app_nil_r. reflexivity.
  - cbn [length] in Hlen. rewrite IH by lia.
    unfold interleave. cbn [flat_map]. rewrite <- !app_assoc. reflexivity.
Qed.

(** X19.  An empty key is not skipped: its pattern matches before every
    code unit and at the end, so the value is inserted before every code
    unit of the template and after the last one. *)
Theorem applyTemplateReplacements_empty_key (t v : jsstring) :
  dollarFree v = true ->
  applyTemplateReplacements t [([], v)] = Some (interleave v t).
Proof.
  intros Hv. cbn [applyTemplateReplacements replaceEntry escapeBraces flat_map parsePattern].
  unfold replaceGlobal. rewrite (empty_pattern_loop v Hv) by lia. reflexivity.
Qed.

Lemma applyTemplateReplacements_empty_key_witness :
  dollarFree (str "-") = true /\
  applyTemplateReplacements (str "ab") [([], str "-")] = Some (str "-a-b-").
Proof.
  split; [reflexivity|].
  exact (applyTemplateReplacements_empty_key (str "ab") (str "-") eq_refl).
Defined.

End EngineProperties.

(* ===================================================================== *)
(** * The scalar fields, and the errors of the tool *)
(* ===================================================================== *)

Section ScalarFields.

Ltac keeps_field f := intros; unfold f, answer, setPath; repeat case_match; reflexivity.

Lemma extractFramework_keeps_customerIdSource doc info :
  customerIdSource (extractFramework doc info) = customerIdSource info.
Proof. keeps_field extractFramework. Qed.

Lemma extractLanguage_keeps_customerIdSource doc info :
  customerIdSource (extractLanguage doc info) = customerIdSource info.
Proof. keeps_field extractLanguage. Qed.

Lemma extractAuth_keeps_customerIdSource doc info :
  customerIdSource (extractAuth doc info) = customerIdSource info.
Proof. keeps_field extractAuth. Qed.

Lemma extractCustomerModel_keeps_customerIdSource doc info :
  customerIdSource (extractCustomerModel doc info) = customerIdSource info.
Proof. keeps_field extractCustomerModel. Qed.

Lemma extractStack_keeps_customerIdSource doc info :
  customerIdSource (extractStack doc info) = customerIdSource info.
Proof. keeps_field extractStack. Qed.

Lemma extractAdditional_keeps_customerIdSource doc info :
  customerIdSource (extractAdditional doc info) = customerIdSource info.
Proof. keeps_field extractAdditional. Qed.

Lemma extractPath_keeps_customerIdSource role q doc info :
  customerIdSource (extractPath role q doc info) = customerIdSource info.
Proof. keeps_field extractPath. Qed.

Lemma extractLib_keeps_customerIdSource doc info :
  customerIdSource (extractLib doc info) = customerIdSource info.
Proof. keeps_field extractLib. Qed.

(** X20.  The language and the customer identifier returned by
    [extractCodebaseInfo] follow the document alone: each is the answer to
    its question, trimmed, whenever the document has that answer (a blank
    answer gives an empty field), and the default ["TypeScript"], resp.
    ["user.id"], otherwise; no override reaches them. *)
Theorem scalar_fields_follow_answers (doc : jsstring) (ov : gmap string jsstring) :
  let info := extractCodebaseInfo (Some doc) ov in
  language info =
    match answer languageRe doc with Some g => trim g | None => str "TypeScript" end /\
  customerIdSource info =
    match answer customerIdRe doc with Some g => trim g | None => str "user.id" end.
Proof.
  cbv zeta. destruct (truthy doc) eqn:Hd.
  2:{ destruct doc; [|discriminate]. split; reflexivity. }
  split.
  - rewrite (final_language doc ov Hd). unfold extractLanguage.
    destruct (answer languageRe doc); reflexivity.
  - rewrite extractCodebaseInfo_steps by assumption.
    rewrite !extractPath_keeps_customerIdSource, extractLib_keeps_customerIdSource,
      extractPath_keeps_customerIdSource, extractAdditional_keeps_customerIdSource,
      extractStack_keeps_customerIdSource.
    unfold extractCustomerId. destruct (answer customerIdRe doc); [reflexivity|].
    rewrite extractCustomerModel_keeps_customerIdSource, extractAuth_keeps_customerIdSource,
      extractLanguage_keeps_customerIdSource, extractFramework_keeps_customerIdSource.
    reflexivity.
Qed.

End ScalarFields.

Section ToolErrors.

Variable buildTemplateReplacements :
  TemplateReplacementContext -> completion (list (jsstring * jsstring)).
Variables trialsBlock usageBlock toggleBlock : jsstring.

Local Abbreviation getSetupInstructions' :=
  (getSetupInstructions buildTemplateReplacements trialsBlock usageBlock toggleBlock).

(** X21.  An error raised by [getSetupInstructions] is the error about the
    missing API key, raised before any step, or the error of reading the
    generation template, of reading the snippet library, or of building the
    token map.  A failure of the pricing-model lookup or of its
    serialization is never raised. *)
Theorem raised_errors_come_from_resources
    (apiKey : jsstring) (w : World) (args : Args) (message : jsstring) :
  result (getSetupInstructions' apiKey w args) = Throw message ->
  (message = noApiKeyMessage /\ trace (getSetupInstructions' apiKey w args) = []) \/
  generationTemplate w = Raises message \/
  codeSnippets w = Raises message \/
  exists ctx, buildTemplateReplacements ctx = Throw message.
Proof.
  destruct (resolveApiKey_cases apiKey w) as [[key Hkey]|Hno].
  2:{ rewrite (getSetupInstructions_no_key _ _ _ _ _ noApiKeyMessage) by assumption.
      intros [= <-]. left. split; reflexivity. }
  destruct (analysisRequired args) eqn:Hreq.
  { rewrite (getSetupInstructions_delegates _ _ _ _ _ key) by assumption. discriminate. }
  rewrite (getSetupInstructions_generates _ _ _ _ _ key) by assumption.
  cbv [generate fetchPricingModel assemble mbind run_bind mret run_ret step finish
       propagate trace result fst snd].
  destruct (generationTemplate w) as [template|e] eqn:Ht.
  2:{ repeat (case_match; subst;
              cbv [mbind run_bind mret run_ret step finish propagate fst snd] in *;
              simplify_eq); intros [= <-]; right; left; reflexivity. }
  destruct (codeSnippets w) as [snippets|e] eqn:Hs.
  2:{ repeat (case_match; subst;
              cbv [mbind run_bind mret run_ret step finish propagate fst snd] in *;
              simplify_eq); intros [= <-]; right; right; left; reflexivity. }
  repeat (case_match; subst;
          cbv [mbind run_bind mret run_ret step finish propagate fst snd] in *;
          simplify_eq);
    try discriminate; intros [= <-]; right; right; right; eexists; eassumption.
Qed.

End ToolErrors.

Section ToolErrorWitness.

Lemma raised_errors_come_from_resources_witness :
  result (getSetupInstructions sampleTokens [] [] [] (str "sk_test_1") templatelessWorld
            analysed) = Throw (str "ENOENT: no such file or directory") /\
  ((str "ENOENT: no such file or directory" = noApiKeyMessage /\
    trace (getSetupInstructions sampleTokens [] [] [] (str "sk_test_1") templatelessWorld
             analysed) = []) \/
   generationTemplate templatelessWorld = Raises (str "ENOENT: no such file or directory") \/
   codeSnippets templatelessWorld = Raises (str "ENOENT: no such file or directory") \/
   exists ctx, sampleTokens ctx = Throw (str "ENOENT: no such file or directory")).
Proof.
  assert (H : result (getSetupInstructions sampleTokens [] [] [] (str "sk_test_1")
                        templatelessWorld analysed)
              = Throw (str "ENOENT: no such file or directory")) by (vm_compute; reflexivity).
  split; [exact H|].
  exact (raised_errors_come_from_resources sampleTokens [] [] [] (str "sk_test_1")
           templatelessWorld analysed _ H).
Defined.

End ToolErrorWitness.
